(** * metadata-forensic: the hidden-data detection engine of [server.ts]

    A shallow embedding of the scanners of [server.ts] (entropy estimator,
    encoded-block scanner, DOCX and PDF analysers, fallback risk scorer and
    the oracle/fallback dispatch of the [/api/analyze] handler), with the
    properties the specification states about them.

    Number model.  JavaScript numbers are IEEE 754 doubles.  Byte counters
    and counts are integers far below 2^53, which doubles hold exactly;
    they are modelled as [N].  [hiddenRatio], the risk score and the widths
    of the progress bars are computed in double arithmetic, modelled by
    [Number]: every operation returns the exact result rounded to the
    nearest double, ties to even.  The Shannon entropy needs [Math.log2],
    which ECMAScript leaves to the implementation; it is modelled over the
    real numbers [R], so what is stated of it holds up to the rounding of
    the double computation. *)

From Stdlib Require Import String Ascii DecimalString.
From Stdlib Require Import List Bool Arith NArith ZArith.
From Stdlib Require Import QArith Qround Qpower Qabs.
From Stdlib Require Import Permutation Lia Lra Psatz.
From Stdlib Require Import Reals.
Import ListNotations.
Local Open Scope list_scope.

(* ================================================================= *)
(** ** Strings *)

(** A JavaScript string is a sequence of UTF-16 code units. *)
Definition char := N.
Definition jsstring := list char.

Definition char_eq_dec : forall a b : char, {a = b} + {a <> b} := N.eq_dec.

(** An ASCII literal of the source, as code units. *)
Definition lit (s : string) : jsstring :=
  map N_of_ascii (list_ascii_of_string s).
Arguments lit s%_string.

(** [String.prototype.length]. *)
Definition jslength (s : jsstring) : N := N.of_nat (length s).

Fixpoint jsstring_eqb (a b : jsstring) : bool :=
  match a, b with
  | [], [] => true
  | x :: a', y :: b' => N.eqb x y && jsstring_eqb a' b'
  | _, _ => false
  end.

(** [a.startsWith(p)]. *)
Fixpoint startsWith (p s : jsstring) : bool :=
  match p, s with
  | [], _ => true
  | x :: p', y :: s' => N.eqb x y && startsWith p' s'
  | _ :: _, [] => false
  end.

(** [s.includes(p)] on strings: [p] occurs somewhere in [s]. *)
Fixpoint str_includes (p s : jsstring) : bool :=
  startsWith p s ||
  match s with
  | [] => false
  | _ :: s' => str_includes p s'
  end.

(** [arr.includes(x)] on an array of strings. *)
Definition includes (x : jsstring) (arr : list jsstring) : bool :=
  existsb (jsstring_eqb x) arr.

(** Decimal rendering of a non-negative integer, as in a template literal. *)
Definition N_to_string (n : N) : jsstring :=
  lit (NilZero.string_of_uint (N.to_uint n)).

(* ================================================================= *)
(** ** Regular expressions

    The fragment of ECMAScript regular expressions used by [server.ts]:
    character classes, concatenation, alternation (left alternative first),
    and greedy or lazy iteration.  Matching is backtracking; [ends r s]
    lists, in the order in which a backtracking matcher tries them, the
    suffixes of [s] left over by each way of matching [r] at the start of
    [s].  The match the engine reports is the first one. *)

Inductive greed := Greedy | Lazy.

Inductive regex :=
| Eps
| Cls (p : char -> bool)
| Seq (r1 r2 : regex)
| Alt (r1 r2 : regex)
| Star (g : greed) (r : regex).

(** One round of an iteration: continue only from the ends of the body
    that consumed something (an empty iteration is rejected, as by the
    RepeatMatcher of ECMAScript). *)
Definition star_more (again : jsstring -> list jsstring)
    (s : jsstring) (es : list jsstring) : list jsstring :=
  flat_map (fun s' => if (length s' <? length s)%nat then again s' else []) es.

(** Iteration of a body whose ends are given by [body]: a greedy iteration
    tries one more round before stopping, a lazy one stops first.  Every
    round consumes at least one code unit, so [length s] rounds of fuel are
    never used up. *)
Fixpoint star_loop (g : greed) (body : jsstring -> list jsstring)
    (fuel : nat) (s : jsstring) : list jsstring :=
  match fuel with
  | O => [s]
  | S fuel' =>
      let more := star_more (star_loop g body fuel') s (body s) in
      match g with
      | Greedy => more ++ [s]
      | Lazy => s :: more
      end
  end.

Fixpoint ends (r : regex) (s : jsstring) : list jsstring :=
  match r with
  | Eps => [s]
  | Cls p =>
      match s with
      | c :: s' => if p c then [s'] else []
      | [] => []
      end
  | Seq r1 r2 => flat_map (ends r2) (ends r1 s)
  | Alt r1 r2 => ends r1 s ++ ends r2 s
  | Star g r => star_loop g (ends r) (length s) s
  end.

(** Derived forms. *)
Definition Chr (c : char) : regex := Cls (N.eqb c).

Fixpoint Lit (s : jsstring) : regex :=
  match s with
  | [] => Eps
  | c :: s' => Seq (Chr c) (Lit s')
  end.

(** [r{n}] *)
Fixpoint Times (n : nat) (r : regex) : regex :=
  match n with
  | O => Eps
  | S n' => Seq r (Times n' r)
  end.

(** [r{n,}], greedy. *)
Definition AtLeast (n : nat) (r : regex) : regex :=
  Seq (Times n r) (Star Greedy r).

(** [r?], greedy. *)
Definition Opt (r : regex) : regex := Alt r Eps.

(** The first match of [r] at the start of [s]: the matched text and the
    rest of the input. *)
Definition match_here (r : regex) (s : jsstring) : option (jsstring * jsstring) :=
  match ends r s with
  | [] => None
  | rest :: _ => Some (firstn (length s - length rest) s, rest)
  end.

(** All matches of a global ([/g]) regex, left to right: what the loop
    [while ((m = re.exec(text)) !== null)] visits and what
    [text.match(re)] returns ([null] when the list is empty).  After a
    match the search resumes where the match ended (one code unit further
    after an empty match); where nothing matches the start moves one code
    unit to the right. *)
Fixpoint scan (fuel : nat) (r : regex) (s : jsstring) : list jsstring :=
  match fuel with
  | O => []
  | S fuel' =>
      match match_here r s with
      | Some (m, rest) =>
          m :: match m, rest with
               | _ :: _, _ => scan fuel' r rest
               | [], _ :: rest' => scan fuel' r rest'
               | [], [] => []
               end
      | None =>
          match s with
          | [] => []
          | _ :: s' => scan fuel' r s'
          end
      end
  end.

Definition matches (r : regex) (s : jsstring) : list jsstring :=
  scan (S (length s)) r s.

(** Character classes. *)
Definition code (a : ascii) : char := N_of_ascii a.

Definition in_range (lo hi : ascii) (c : char) : bool :=
  (code lo <=? c)%N && (c <=? code hi)%N.

Definition is_chr (a : ascii) (c : char) : bool := N.eqb (code a) c.

(** The base64 alphabet [[A-Za-z0-9+/]]. *)
Definition b64 (c : char) : bool :=
  in_range "A" "Z" c || in_range "a" "z" c || in_range "0" "9" c
  || is_chr "+" c || is_chr "/" c.

(** [.] without the [s] flag: anything but a line terminator. *)
Definition dot (c : char) : bool :=
  negb (N.eqb c 10 || N.eqb c 13 || N.eqb c 8232 || N.eqb c 8233).

(* ================================================================= *)
(** ** Entropy estimator: [calculateEntropy] *)

(** [frequencies[char] = (frequencies[char] || 0) + 1] on an object whose
    keys are kept in insertion order. *)
Fixpoint bump (c : char) (fr : list (char * nat)) : list (char * nat) :=
  match fr with
  | [] => [(c, 1%nat)]
  | (d, n) :: fr' =>
      if N.eqb c d then (d, S n) :: fr' else (d, n) :: bump c fr'
  end.

Definition frequencies (str : jsstring) : list (char * nat) :=
  fold_left (fun fr c => bump c fr) str [].

Definition log2 (x : R) : R := (ln x / ln 2)%R.

(** The [for (const char in frequencies)] loop, over the reals.  The
    enumeration order of [for-in] (integer-like keys first, then insertion
    order) only permutes the terms of the sum, which over the reals does
    not change it; the double sum of the code depends on that order in its
    last bits. *)
Definition calculateEntropy (str : jsstring) : R :=
  let len := length str in
  match len with
  | O => 0%R
  | _ =>
      fold_left
        (fun entropy (kv : char * nat) =>
           let p := (INR (snd kv) / INR len)%R in
           (entropy - p * log2 p)%R)
        (frequencies str) 0%R
  end.

(* ================================================================= *)
(** ** Encoded-block scanner: [findBase64Blocks] *)

(** [/(?:[A-Za-z0-9+/]{4}){10,}(?:[A-Za-z0-9+/]{2}==|[A-Za-z0-9+/]{3}=)?/g] *)
Definition base64Regex : regex :=
  Seq (AtLeast 10 (Times 4 (Cls b64)))
      (Opt (Alt (Seq (Times 2 (Cls b64)) (Lit (lit "==")))
                (Seq (Times 3 (Cls b64)) (Lit (lit "="))))).

Record blocks := mkBlocks {
  count : N;
  size : N;
  maxEntropy : R
}.

Definition no_blocks : blocks := mkBlocks 0 0 0.

(** The body of the [while ((match = base64Regex.exec(text)) !== null)] loop. *)
Definition add_block (acc : blocks) (m : jsstring) : blocks :=
  let entropy := calculateEntropy m in
  mkBlocks (count acc + 1) (size acc + jslength m)
    (if Rlt_dec (maxEntropy acc) entropy then entropy else maxEntropy acc).

Definition findBase64Blocks (text : jsstring) : blocks :=
  fold_left add_block (matches base64Regex text) no_blocks.

(* ================================================================= *)
(** ** Numbers *)

(** A JavaScript number: an IEEE 754 double.  A finite double is kept as
    the rational it denotes, and an operation returns its exact result
    rounded by [round]: to the nearest double, the one with an even last
    bit on a tie, with gradual underflow and with overflow to infinity.
    The sign of zero is not tracked: the numbers the code computes are
    never negative, so that its zeros are [+0], and the one divisor that
    can be zero is the size of the file, an integer. *)
Module Number.

Inductive t := NaN | Infinity (negative : bool) | Finite (q : Q).

(** The nearest integer, the even one on a tie. *)
Definition rne (x : Q) : Z :=
  let f := Qfloor x in
  match Qcompare (x - inject_Z f) (1 # 2) with
  | Lt => f
  | Eq => if Z.even f then f else (f + 1)%Z
  | Gt => (f + 1)%Z
  end.

(** For [q > 0], the [k] with [2^k <= q < 2^(k+1)]. *)
Definition ilog2 (q : Q) : Z :=
  let k := (Z.log2 (Qnum q) - Z.log2 (Zpos (Qden q)))%Z in
  if Qle_bool (2 ^ k) q then k else (k - 1)%Z.

(** For [q > 0], the exponent of the last of 53 significant bits, at least
    -1074 (subnormal numbers), and the nearest multiple of two to that
    power. *)
Definition exponent (q : Q) : Z := Z.max (ilog2 q - 52) (-1074).

Definition nearest (q : Q) : Q :=
  inject_Z (rne (q / 2 ^ exponent q)) * 2 ^ exponent q.

Definition overflows (r : Q) : bool := Qle_bool (2 ^ 1024) r.

(** The double nearest to a rational: what a decimal literal and the
    exact result of an operation become. *)
Definition round (q : Q) : t :=
  match q ?= 0 with
  | Eq => Finite 0
  | Gt => let r := nearest q in
          if overflows r then Infinity false else Finite (Qred r)
  | Lt => let r := nearest (- q) in
          if overflows r then Infinity true else Finite (Qred (- r))
  end.

(** The number that holds a counter.  Counters are integers below 2^53,
    and every such integer is a double. *)
Definition of_N (n : N) : t := Finite (inject_Z (Z.of_N n)).

(** [x + y] *)
Definition add (x y : t) : t :=
  match x, y with
  | NaN, _ | _, NaN => NaN
  | Infinity a, Infinity b => if Bool.eqb a b then Infinity a else NaN
  | Infinity a, Finite _ => Infinity a
  | Finite _, Infinity b => Infinity b
  | Finite a, Finite b => round (a + b)
  end.

(** An infinity times or over a finite number [q]. *)
Definition scaled (negative : bool) (q : Q) : t :=
  match q ?= 0 with
  | Eq => NaN
  | Lt => Infinity (negb negative)
  | Gt => Infinity negative
  end.

(** [x * y] *)
Definition mul (x y : t) : t :=
  match x, y with
  | NaN, _ | _, NaN => NaN
  | Infinity a, Infinity b => Infinity (xorb a b)
  | Infinity a, Finite q => scaled a q
  | Finite q, Infinity b => scaled b q
  | Finite a, Finite b => round (a * b)
  end.

(** [x / y] *)
Definition div (x y : t) : t :=
  match x, y with
  | NaN, _ | _, NaN => NaN
  | Infinity _, Infinity _ => NaN
  | Infinity a, Finite q =>
      match q ?= 0 with Lt => Infinity (negb a) | _ => Infinity a end
  | Finite _, Infinity _ => Finite 0
  | Finite a, Finite b =>
      match b ?= 0 with
      | Eq => scaled false a
      | _ => round (a / b)
      end
  end.

(** [x <= y]; false when either is [NaN]. *)
Definition leb (x y : t) : bool :=
  match x, y with
  | NaN, _ | _, NaN => false
  | Infinity true, _ => true
  | _, Infinity false => true
  | Infinity false, _ => false
  | _, Infinity true => false
  | Finite a, Finite b => Qle_bool a b
  end.

(** [x < y]; false when either is [NaN]. *)
Definition ltb (x y : t) : bool :=
  match x, y with
  | NaN, _ | _, NaN => false
  | _, _ => negb (leb y x)
  end.

(** [Math.min(x, y)] and [Math.max(x, y)] *)
Definition min (x y : t) : t :=
  match x, y with
  | NaN, _ | _, NaN => NaN
  | _, _ => if ltb x y then x else y
  end.

Definition max (x y : t) : t :=
  match x, y with
  | NaN, _ | _, NaN => NaN
  | _, _ => if ltb x y then y else x
  end.

Definition le (x y : t) : Prop := leb x y = true.
Definition lt (x y : t) : Prop := ltb x y = true.

End Number.

Definition number := Number.t.

(** [parseFloat] of a decimal numeral, given by the rational it denotes. *)
Definition parseFloat (q : Q) : number := Number.round q.

(* ================================================================= *)
(** ** Analysis results *)

Record breakdown_t := mkBreakdown {
  hidden_text : N;
  embedded_files : N;
  base64_blocks : N;
  metadata_score : N;
  comments_size : N
}.

(** [entropyScore] is the string [maxEntropy.toFixed(2)]; it is kept as the
    rational that numeral denotes. *)
Record details_t := mkDetails {
  entropyScore : Q;
  base64BlockCount : N;
  embeddedObjectCount : N;
  metadataFieldsExtracted : N;
  revisionHistoryCount : N
}.

Record AnalysisResult := mkAnalysis {
  hiddenBytes : N;
  hiddenRatio : number;
  breakdown : breakdown_t;
  findings : list jsstring;
  details : details_t
}.

(** [x.toFixed(2)] for [x >= 0]: the nearest multiple of 1/100, the larger
    one on a tie. *)
Definition toFixed2 (x : R) : Q := Qmake (Int_part (x * 100 + / 2)) 100.

(** [x.toFixed(1)], as text, for a number below 1e21 in magnitude: the
    nearest multiple of 1/10 of the exact value, the larger one in
    magnitude on a tie. *)
Definition toFixed1 (x : number) : jsstring :=
  match x with
  | Number.NaN => lit "NaN"
  | Number.Infinity negative =>
      if negative then lit "-Infinity" else lit "Infinity"
  | Number.Finite q =>
      let n := Z.to_N (Qfloor (Qabs q * 10 + (1 # 2))) in
      (if Qle_bool 0 q then [] else lit "-")
      ++ N_to_string (n / 10) ++ lit "." ++ N_to_string (n mod 10)
  end.

(** The local variables shared by [analyzeDocx] and [analyzePdf]. *)
Module St.
Record t := mk {
  hiddenTextSize : N;
  embeddedFileSize : N;
  commentsSize : N;
  base64Blocks : blocks;
  metadataScore : N;
  embeddedObjectCount : N;
  revisionHistoryCount : N;
  metadataFieldsExtracted : N;
  findings : list jsstring
}.

Definition init : t := mk 0 0 0 no_blocks 0 0 0 0 [].

Definition push (f : jsstring) (st : t) : t :=
  mk (hiddenTextSize st) (embeddedFileSize st) (commentsSize st)
     (base64Blocks st) (metadataScore st) (embeddedObjectCount st)
     (revisionHistoryCount st) (metadataFieldsExtracted st)
     (findings st ++ [f]).
End St.

(** [Math.min((hiddenBytes / fileSize) * 100, 100)] *)
Definition ratio (hiddenBytes fileSize : N) : number :=
  Number.min
    (Number.mul
       (Number.div (Number.of_N hiddenBytes) (Number.of_N fileSize))
       (Number.Finite 100))
    (Number.Finite 100).

(** The tail shared by both analysers: [hiddenBytes], [hiddenRatio] and the
    returned object. *)
Definition result_of (st : St.t) (fileSize : N) : AnalysisResult :=
  let hiddenBytes :=
    (St.hiddenTextSize st + St.embeddedFileSize st
     + size (St.base64Blocks st) + St.commentsSize st)%N in
  let hiddenRatio := ratio hiddenBytes fileSize in
  mkAnalysis hiddenBytes hiddenRatio
    (mkBreakdown (St.hiddenTextSize st) (St.embeddedFileSize st)
       (size (St.base64Blocks st)) (St.metadataScore st) (St.commentsSize st))
    (St.findings st)
    (mkDetails (toFixed2 (maxEntropy (St.base64Blocks st)))
       (count (St.base64Blocks st)) (St.embeddedObjectCount st)
       (St.metadataFieldsExtracted st) (St.revisionHistoryCount st)).

(** Finding texts; they start with U+26A0 and a space. *)
Definition warn (s : string) : jsstring := 9888%N :: 32%N :: lit s.
Arguments warn s%_string.

Definition F_embedded : jsstring := warn "Embedded objects/files found".
Definition F_comments : jsstring := warn "Significant volume of comments detected".
Definition F_revisions (revisions : N) : jsstring :=
  warn "Track changes/revisions found (" ++ N_to_string revisions ++ lit " edits)".
Definition F_vanish : jsstring := warn "Hidden text (vanish tag) detected".
Definition F_white : jsstring := warn "White-colored text detected".
Definition F_blocks (n : N) : jsstring :=
  warn "High entropy encoded blocks detected (" ++ N_to_string n ++ lit " blocks)".
Definition F_metadata : jsstring := warn "Metadata anomaly detected (excessive fields)".
Definition F_annots : jsstring := warn "Annotations/Comments detected".
Definition F_invisible : jsstring := warn "Invisible text rendering detected".

(** [(s.match(re) || []).length] *)
Definition match_count (r : regex) (s : jsstring) : N :=
  N.of_nat (length (matches r s)).

(** [ms.forEach(m => total += m.length)] *)
Definition total_length (ms : list jsstring) : N :=
  fold_left (fun total m => (total + jslength m)%N) ms 0%N.

(* ================================================================= *)
(** ** DOCX path: [analyzeDocx] *)

(** A ZIP entry: its name, the uncompressed size declared in its header,
    and its data decoded as UTF-8. *)
Record entry := mkEntry {
  entryName : jsstring;
  header_size : N;
  getData : jsstring
}.

(** [/<w:ins/g] and [/<w:del/g] *)
Definition insRegex : regex := Lit (lit "<w:ins").
Definition delRegex : regex := Lit (lit "<w:del").

(** [/<w:vanish\/>.*?<w:t>(.*?)<\/w:t>/g] *)
Definition vanishRegex : regex :=
  Seq (Lit (lit "<w:vanish/>"))
    (Seq (Star Lazy (Cls dot))
       (Seq (Lit (lit "<w:t>"))
          (Seq (Star Lazy (Cls dot)) (Lit (lit "</w:t>"))))).

(** [/<w:color w:val="FFFFFF".*?<w:t>(.*?)<\/w:t>/g]; 34 is the double quote. *)
Definition whiteRegex : regex :=
  Seq (Lit (lit "<w:color w:val=" ++ [34%N] ++ lit "FFFFFF" ++ [34%N]))
    (Seq (Star Lazy (Cls dot))
       (Seq (Lit (lit "<w:t>"))
          (Seq (Star Lazy (Cls dot)) (Lit (lit "</w:t>"))))).

(** [/<[^>]+>/g] *)
Definition tagRegex : regex :=
  Seq (Chr (code "<"))
    (Seq (AtLeast 1 (Cls (fun c => negb (is_chr ">" c)))) (Chr (code ">"))).

Definition is_embedded (e : entry) : bool :=
  startsWith (lit "word/embeddings/") (entryName e)
  || startsWith (lit "word/media/") (entryName e).

(** Check for embedded files. *)
Definition check_embedded (e : entry) (st : St.t) : St.t :=
  if is_embedded e then
    let st' :=
      St.mk (St.hiddenTextSize st) (St.embeddedFileSize st + header_size e)
        (St.commentsSize st) (St.base64Blocks st) (St.metadataScore st)
        (St.embeddedObjectCount st + 1) (St.revisionHistoryCount st)
        (St.metadataFieldsExtracted st) (St.findings st) in
    if negb (includes F_embedded (St.findings st')) then St.push F_embedded st'
    else st'
  else st.

(** Check comments. *)
Definition check_comments (e : entry) (st : St.t) : St.t :=
  if jsstring_eqb (entryName e) (lit "word/comments.xml") then
    let content := getData e in
    let st' :=
      St.mk (St.hiddenTextSize st) (St.embeddedFileSize st)
        (St.commentsSize st + jslength content) (St.base64Blocks st)
        (St.metadataScore st) (St.embeddedObjectCount st)
        (St.revisionHistoryCount st) (St.metadataFieldsExtracted st)
        (St.findings st) in
    if (500 <? jslength content)%N then St.push F_comments st' else st'
  else st.

(** Check revisions, hidden text, white text and base64 blocks. *)
Definition check_document (e : entry) (st : St.t) : St.t :=
  if jsstring_eqb (entryName e) (lit "word/document.xml") then
    let content := getData e in
    let revisions := (match_count insRegex content + match_count delRegex content)%N in
    let hiddenMatches := matches vanishRegex content in
    let whiteTextMatches := matches whiteRegex content in
    let b64 := findBase64Blocks content in
    let old := St.base64Blocks st in
    St.mk
      (St.hiddenTextSize st + total_length hiddenMatches
       + total_length whiteTextMatches)
      (St.embeddedFileSize st) (St.commentsSize st)
      (mkBlocks (count old + count b64) (size old + size b64)
         (Rmax (maxEntropy old) (maxEntropy b64)))
      (St.metadataScore st) (St.embeddedObjectCount st)
      (St.revisionHistoryCount st + revisions)
      (St.metadataFieldsExtracted st)
      (St.findings st
       ++ (if (0 <? revisions)%N then [F_revisions revisions] else [])
       ++ (match hiddenMatches with [] => [] | _ => [F_vanish] end)
       ++ (match whiteTextMatches with [] => [] | _ => [F_white] end))
  else st.

(** Metadata. *)
Definition check_metadata (e : entry) (st : St.t) : St.t :=
  if jsstring_eqb (entryName e) (lit "docProps/core.xml")
     || jsstring_eqb (entryName e) (lit "docProps/app.xml") then
    let content := getData e in
    St.mk (St.hiddenTextSize st) (St.embeddedFileSize st) (St.commentsSize st)
      (St.base64Blocks st)
      (if str_includes (lit "creator") content
          || str_includes (lit "lastModifiedBy") content
       then St.metadataScore st + 10 else St.metadataScore st)
      (St.embeddedObjectCount st) (St.revisionHistoryCount st)
      (St.metadataFieldsExtracted st + match_count tagRegex content)
      (St.findings st)
  else st.

(** The callback of [zipEntries.forEach]. *)
Definition docx_entry (st : St.t) (e : entry) : St.t :=
  check_metadata e (check_document e (check_comments e (check_embedded e st))).

(** After the loop: the encoded-block finding. *)
Definition docx_finish (st : St.t) : St.t :=
  if (0 <? count (St.base64Blocks st))%N
  then St.push (F_blocks (count (St.base64Blocks st))) st
  else st.

Definition analyzeDocx (zipEntries : list entry) (fileSize : N) : AnalysisResult :=
  result_of (docx_finish (fold_left docx_entry zipEntries St.init)) fileSize.

(* ================================================================= *)
(** ** PDF path: [analyzePdf] *)

(** What the external extractor [pdfParse] returns: the text layer and the
    info dictionary ([None] when [data.info] is missing), an object with
    string values listed by key. *)
Record pdf_data := mkPdfData {
  text : jsstring;
  info : option (list (jsstring * jsstring))
}.

(** [obj.key], truthy: the key is present with a non-empty string. *)
Fixpoint truthy_field (key : jsstring) (obj : list (jsstring * jsstring)) : bool :=
  match obj with
  | [] => false
  | (k, v) :: obj' =>
      if jsstring_eqb k key then negb (jsstring_eqb v []) else truthy_field key obj'
  end.

(** [/\/EmbeddedFiles|\/Names/g], [/\/Annots/g] and [/3 Tr/g] *)
Definition embeddedRegex : regex :=
  Alt (Lit (lit "/EmbeddedFiles")) (Lit (lit "/Names")).
Definition annotRegex : regex := Lit (lit "/Annots").
Definition trRegex : regex := Lit (lit "3 Tr").

(** Base64 blocks in text. *)
Definition pdf_blocks (data : pdf_data) (st : St.t) : St.t :=
  let b64 := findBase64Blocks (text data) in
  let st' :=
    St.mk (St.hiddenTextSize st) (St.embeddedFileSize st) (St.commentsSize st)
      b64 (St.metadataScore st) (St.embeddedObjectCount st)
      (St.revisionHistoryCount st) (St.metadataFieldsExtracted st)
      (St.findings st) in
  if (0 <? count b64)%N then St.push (F_blocks (count b64)) st' else st'.

(** Metadata anomalies. *)
Definition pdf_metadata (data : pdf_data) (st : St.t) : St.t :=
  let has_creator :=
    match info data with
    | Some obj =>
        truthy_field (lit "Creator") obj || truthy_field (lit "Producer") obj
    | None => false
    end in
  let score1 :=
    if has_creator then (St.metadataScore st + 10)%N else St.metadataScore st in
  let st' :=
    St.mk (St.hiddenTextSize st) (St.embeddedFileSize st) (St.commentsSize st)
      (St.base64Blocks st) score1 (St.embeddedObjectCount st)
      (St.revisionHistoryCount st) (St.metadataFieldsExtracted st)
      (St.findings st) in
  if (10 <? St.metadataFieldsExtracted st)%N then
    let st'' := St.push F_metadata st' in
    St.mk (St.hiddenTextSize st'') (St.embeddedFileSize st'')
      (St.commentsSize st'') (St.base64Blocks st'') (score1 + 20)
      (St.embeddedObjectCount st'') (St.revisionHistoryCount st'')
      (St.metadataFieldsExtracted st'') (St.findings st'')
  else st'.

(** Check raw buffer for embedded files. *)
Definition pdf_embedded (rawString : jsstring) (st : St.t) : St.t :=
  match matches embeddedRegex rawString with
  | [] => st
  | embeddedMatches =>
      let embeddedObjectCount := N.of_nat (length embeddedMatches) in
      St.push F_embedded
        (St.mk (St.hiddenTextSize st) (embeddedObjectCount * 1024)
           (St.commentsSize st) (St.base64Blocks st) (St.metadataScore st)
           embeddedObjectCount (St.revisionHistoryCount st)
           (St.metadataFieldsExtracted st) (St.findings st))
  end.

(** Check for annotations/comments. *)
Definition pdf_annots (rawString : jsstring) (st : St.t) : St.t :=
  match matches annotRegex rawString with
  | [] => st
  | annotMatches =>
      St.push F_annots
        (St.mk (St.hiddenTextSize st) (St.embeddedFileSize st)
           (N.of_nat (length annotMatches) * 256) (St.base64Blocks st)
           (St.metadataScore st) (St.embeddedObjectCount st)
           (St.revisionHistoryCount st) (St.metadataFieldsExtracted st)
           (St.findings st))
  end.

(** Check for hidden text (text rendering mode 3). *)
Definition pdf_invisible (rawString : jsstring) (st : St.t) : St.t :=
  match matches trRegex rawString with
  | [] => st
  | trMatches =>
      St.push F_invisible
        (St.mk (N.of_nat (length trMatches) * 50) (St.embeddedFileSize st)
           (St.commentsSize st) (St.base64Blocks st) (St.metadataScore st)
           (St.embeddedObjectCount st) (St.revisionHistoryCount st)
           (St.metadataFieldsExtracted st) (St.findings st))
  end.

(** [rawString] is the buffer read with the [binary] encoding (one code
    unit per byte); [data] is the result of [pdfParse] on the same buffer. *)
Definition analyzePdf (rawString : jsstring) (data : pdf_data) (fileSize : N)
  : AnalysisResult :=
  let st0 :=
    St.mk 0 0 0 no_blocks 0 0 0
      (match info data with
       | Some obj => N.of_nat (length obj)
       | None => 0%N
       end) [] in
  result_of
    (pdf_invisible rawString
       (pdf_annots rawString
          (pdf_embedded rawString (pdf_metadata data (pdf_blocks data st0)))))
    fileSize.

(* ================================================================= *)
(** ** Fallback risk scorer (the [catch] branch of the handler) *)

Record RiskVerdict := mkVerdict {
  riskScore : number;
  riskLevel : jsstring;
  confidence : N;
  verdict : jsstring
}.

(** The score before any adjustment; [Number.round (1 # 10)] is the
    literal [0.1]. *)
Definition rawRiskScore (analysis : AnalysisResult) : number :=
  let embeddedPresence :=
    if (0 <? embeddedObjectCount (details analysis))%N
    then Number.Finite 1 else Number.Finite 0 in
  let base64EntropyScore := parseFloat (entropyScore (details analysis)) in
  let metadataAnomalyScore :=
    Number.of_N (metadata_score (breakdown analysis)) in
  Number.add
    (Number.add
       (Number.add
          (Number.mul (hiddenRatio analysis) (Number.Finite 2))
          (Number.mul embeddedPresence (Number.Finite 20)))
       (Number.mul base64EntropyScore (Number.Finite 2)))
    (Number.mul metadataAnomalyScore (Number.round (1 # 10))).

Definition verdictText (riskLevel : jsstring) (hiddenRatio : number)
  : jsstring :=
  if jsstring_eqb riskLevel (lit "HIGH") then
    lit "The document contains a significant volume of concealed data representing "
    ++ toFixed1 hiddenRatio
    ++ lit "% of total file size. Embedded binary objects and high-entropy encoded segments strongly indicate potential covert data transmission. Manual forensic review recommended."
  else if jsstring_eqb riskLevel (lit "MEDIUM") then
    lit "The document contains moderate indicators of hidden data ("
    ++ toFixed1 hiddenRatio
    ++ lit "% of total file size). Some anomalies detected such as comments or metadata irregularities. Proceed with caution."
  else
    lit "The document appears clean with minimal to no hidden data ("
    ++ toFixed1 hiddenRatio
    ++ lit "% of total file size). No significant anomalies detected. Standard handling procedures apply.".

Definition fallbackScore (analysis : AnalysisResult) : RiskVerdict :=
  let riskScore0 := rawRiskScore analysis in
  let riskScore1 :=
    if (0 <? length (findings analysis))%nat
       && Number.ltb riskScore0 (Number.Finite 10)
    then Number.add riskScore0 (Number.Finite 15) else riskScore0 in
  let riskScore :=
    Number.min (Number.max riskScore1 (Number.Finite 0))
      (Number.Finite 100) in
  let riskLevel :=
    if Number.leb (Number.Finite 70) riskScore then lit "HIGH"
    else if Number.leb (Number.Finite 30) riskScore then lit "MEDIUM"
    else lit "LOW" in
  let confidence := N.min (80 + N.of_nat (length (findings analysis)) * 5) 99 in
  mkVerdict riskScore riskLevel confidence
    (verdictText riskLevel (hiddenRatio analysis)).

(* ================================================================= *)
(** ** Oracle or fallback: the inner [try]/[catch] of the handler *)

#[local] Unset Elimination Schemes.
Inductive json :=
| JNull
| JBool (b : bool)
| JNum (x : number)
| JStr (s : jsstring)
| JArr (items : list json)
| JObj (fields : list (jsstring * json)).
#[local] Set Elimination Schemes.

(** What lines 308-326 come to: the request is rejected (time-out, network
    or API error), or [JSON.parse] throws on the response text, or it
    returns a value.  A missing or empty response text is parsed as ["{}"],
    that is [Parsed (JObj [])]. *)
Inductive oracle_outcome :=
| Rejected
| Unparsable
| Parsed (parsed : json).

Fixpoint lookup (key : jsstring) (fields : list (jsstring * json)) : option json :=
  match fields with
  | [] => None
  | (k, v) :: fields' => if jsstring_eqb k key then Some v else lookup key fields'
  end.

(** [v.key] for a key that is no built-in property: [None] when the access
    throws a [TypeError] (on [null]), [Some None] when it is [undefined]. *)
Definition prop (key : jsstring) (v : json) : option (option json) :=
  match v with
  | JNull => None
  | JObj fields => Some (lookup key fields)
  | _ => Some None
  end.

Definition verdict_json (v : RiskVerdict) : json :=
  JObj [(lit "riskScore", JNum (riskScore v));
        (lit "riskLevel", JStr (riskLevel v));
        (lit "confidence", JNum (Number.of_N (confidence v)));
        (lit "verdict", JStr (verdict v))].

(** The initial value of [aiResult]. *)
Definition defaultResult : json :=
  JObj [(lit "riskScore", JNum (Number.Finite 0));
        (lit "riskLevel", JStr (lit "LOW"));
        (lit "confidence", JNum (Number.Finite 85));
        (lit "verdict", JStr (lit "The document appears clean with minimal to no hidden data. No significant anomalies detected. Standard handling procedures apply."))].

(** The value of [aiResult] after the inner [try]/[catch]. *)
Definition aiResult (analysis : AnalysisResult) (o : oracle_outcome) : json :=
  match o with
  | Rejected | Unparsable => verdict_json (fallbackScore analysis)
  | Parsed parsed =>
      match prop (lit "riskScore") parsed with
      | None => verdict_json (fallbackScore analysis)
      | Some (Some _) => parsed
      | Some None => defaultResult
      end
  end.

(* ================================================================= *)
(** * Specification-level notions and sample inputs *)

(** What claim C2 says of one analysis result for a file of [fileSize]
    bytes. *)
Definition aggregated (a : AnalysisResult) (fileSize : N) : Prop :=
  hiddenBytes a
  = (hidden_text (breakdown a) + embedded_files (breakdown a)
     + base64_blocks (breakdown a) + comments_size (breakdown a))%N
  /\ hiddenRatio a
     = Number.min
         (Number.mul
            (Number.div (Number.of_N (hiddenBytes a)) (Number.of_N fileSize))
            (Number.Finite 100))
         (Number.Finite 100)
  /\ (Number.le (Number.Finite 0) (hiddenRatio a)
      /\ Number.le (hiddenRatio a) (Number.Finite 100))
  /\ ((fileSize <= hiddenBytes a)%N -> hiddenRatio a = Number.Finite 100).

(** An embedded entry whose declared size exceeds the size of the file. *)
Definition oversized_entry : entry :=
  mkEntry (lit "word/media/image1.png") 5000 [].

(** A file that is hidden data through and through: one embedded object as
    large as the file. *)
Definition saturated_analysis : AnalysisResult :=
  mkAnalysis 5000 (Number.Finite 100) (mkBreakdown 0 5000 0 0 0) [F_embedded]
    (mkDetails 0 0 1 0 0).

(** What one ZIP entry adds to the accumulators of [analyzeDocx], apart
    from the embedded-objects finding, which depends on the findings so
    far.  [d_blocks] is [None] for an entry that is not the document body
    (the block totals are then left as they are). *)
Record delta := mkDelta {
  d_hidden : N;
  d_embedded : N;
  d_comments : N;
  d_blocks : option blocks;
  d_meta : N;
  d_objects : N;
  d_revisions : N;
  d_fields : N;
  d_findings : list jsstring
}.

Definition comments_findings (e : entry) : list jsstring :=
  if jsstring_eqb (entryName e) (lit "word/comments.xml")
     && (500 <? jslength (getData e))%N
  then [F_comments] else [].

Definition document_revisions (e : entry) : N :=
  (match_count insRegex (getData e) + match_count delRegex (getData e))%N.

Definition document_findings (e : entry) : list jsstring :=
  if jsstring_eqb (entryName e) (lit "word/document.xml") then
    (if (0 <? document_revisions e)%N
     then [F_revisions (document_revisions e)] else [])
    ++ (match matches vanishRegex (getData e) with [] => [] | _ => [F_vanish] end)
    ++ (match matches whiteRegex (getData e) with [] => [] | _ => [F_white] end)
  else [].

Definition entry_delta (e : entry) : delta :=
  let is_doc := jsstring_eqb (entryName e) (lit "word/document.xml") in
  let is_meta :=
    jsstring_eqb (entryName e) (lit "docProps/core.xml")
    || jsstring_eqb (entryName e) (lit "docProps/app.xml") in
  mkDelta
    (if is_doc
     then total_length (matches vanishRegex (getData e))
          + total_length (matches whiteRegex (getData e))
     else 0)
    (if is_embedded e then header_size e else 0)
    (if jsstring_eqb (entryName e) (lit "word/comments.xml")
     then jslength (getData e) else 0)
    (if is_doc then Some (findBase64Blocks (getData e)) else None)
    (if is_meta
        && (str_includes (lit "creator") (getData e)
            || str_includes (lit "lastModifiedBy") (getData e))
     then 10 else 0)
    (if is_embedded e then 1 else 0)
    (if is_doc then document_revisions e else 0)
    (if is_meta then match_count tagRegex (getData e) else 0)
    (comments_findings e ++ document_findings e).

Definition merge_blocks (old : blocks) (b : option blocks) : blocks :=
  match b with
  | None => old
  | Some b64 =>
      mkBlocks (count old + count b64) (size old + size b64)
        (Rmax (maxEntropy old) (maxEntropy b64))
  end.

Definition embedded_finding (is_emb : bool) (found : list jsstring)
  : list jsstring :=
  if is_emb && negb (includes F_embedded found) then [F_embedded] else [].

Definition apply_delta (st : St.t) (is_emb : bool) (d : delta) : St.t :=
  St.mk (St.hiddenTextSize st + d_hidden d)
    (St.embeddedFileSize st + d_embedded d)
    (St.commentsSize st + d_comments d)
    (merge_blocks (St.base64Blocks st) (d_blocks d))
    (St.metadataScore st + d_meta d)
    (St.embeddedObjectCount st + d_objects d)
    (St.revisionHistoryCount st + d_revisions d)
    (St.metadataFieldsExtracted st + d_fields d)
    (St.findings st ++ embedded_finding is_emb (St.findings st) ++ d_findings d).

(** Two accumulator states that differ at most in the order of their
    findings. *)
Definition St_equiv (st st' : St.t) : Prop :=
  St.hiddenTextSize st = St.hiddenTextSize st'
  /\ St.embeddedFileSize st = St.embeddedFileSize st'
  /\ St.commentsSize st = St.commentsSize st'
  /\ St.base64Blocks st = St.base64Blocks st'
  /\ St.metadataScore st = St.metadataScore st'
  /\ St.embeddedObjectCount st = St.embeddedObjectCount st'
  /\ St.revisionHistoryCount st = St.revisionHistoryCount st'
  /\ St.metadataFieldsExtracted st = St.metadataFieldsExtracted st'
  /\ Permutation (St.findings st) (St.findings st').

(** Two analysis results that agree on every counter and detail and carry
    the same findings, possibly in another order. *)
Definition same_up_to_findings_order (a a' : AnalysisResult) : Prop :=
  hiddenBytes a = hiddenBytes a'
  /\ hiddenRatio a = hiddenRatio a'
  /\ breakdown a = breakdown a'
  /\ details a = details a'
  /\ Permutation (findings a) (findings a').

(** A comments part of 600 characters and an embedded image. *)
Definition comments_entry : entry :=
  mkEntry (lit "word/comments.xml") 600 (repeat (code "x") 600).

Definition media_entry : entry :=
  mkEntry (lit "word/media/image1.png") 2048 [].

Definition jsstring_eq_dec : forall a b : jsstring, {a = b} + {a <> b} :=
  list_eq_dec char_eq_dec.

(** How often the embedded-objects finding occurs in a findings list. *)
Definition embedded_count (found : list jsstring) : nat :=
  count_occ jsstring_eq_dec found F_embedded.

(** Every character class of [r] accepts only code units in [P]. *)
Fixpoint classes_within (P : char -> Prop) (r : regex) : Prop :=
  match r with
  | Eps => True
  | Cls p => forall c, p c = true -> P c
  | Seq r1 r2 | Alt r1 r2 => classes_within P r1 /\ classes_within P r2
  | Star _ r1 => classes_within P r1
  end.

(** [s'] is what is left of [s] after a prefix of code units in [P]. *)
Definition splits_within (P : char -> Prop) (s s' : jsstring) : Prop :=
  exists m, s = m ++ s' /\ Forall P m.

(** The number of positions of [s] at which one of the [markers] starts. *)
Fixpoint occurrences (markers : list jsstring) (s : jsstring) : nat :=
  match s with
  | [] => O
  | _ :: s' =>
      ((if existsb (fun p => startsWith p s) markers then 1 else 0)
       + occurrences markers s')%nat
  end.

Definition embedded_markers : list jsstring :=
  [lit "/EmbeddedFiles"; lit "/Names"].
Definition annot_markers : list jsstring := [lit "/Annots"].
Definition tr_markers : list jsstring := [lit "3 Tr"].

(** The first of the [markers] that [s] starts with. *)
Definition first_marker (markers : list jsstring) (s : jsstring)
  : option jsstring :=
  find (fun p => startsWith p s) markers.

(** A marker that starts with [c0] and has no other [c0]: two of its
    occurrences cannot overlap. *)
Definition headed (c0 : char) (p : jsstring) : Prop :=
  exists tl, p = c0 :: tl /\ ~ In c0 tl.

(** [r] matches exactly where one of the [markers] starts, and matches that
    marker. *)
Definition matches_markers (r : regex) (markers : list jsstring) : Prop :=
  forall s,
    match_here r s
    = match first_marker markers s with
      | Some p => Some (p, skipn (length p) s)
      | None => None
      end.

(** A PDF buffer with three embedded-file markers and no annotation or
    invisible-text marker, and the result of a text extraction that found
    neither text nor an info dictionary. *)
Definition three_markers_pdf : jsstring :=
  lit "%PDF-1.7 1 0 obj << /EmbeddedFiles 2 0 R >> /EmbeddedFiles 3 0 R /EmbeddedFiles 4 0 R %%EOF".

Definition no_text : pdf_data := mkPdfData [] None.

(** Sums of reals. *)
Definition Rsum (l : list R) : R := fold_right Rplus 0%R l.

(** The keys of a frequency table, the count it holds for a code unit, and
    the sum of its counts. *)
Definition keys (fr : list (char * nat)) : list char := map fst fr.

Fixpoint count_of (c : char) (fr : list (char * nat)) : nat :=
  match fr with
  | [] => O
  | (d, n) :: fr' => if N.eqb c d then n else count_of c fr'
  end.

Fixpoint total (fr : list (char * nat)) : nat :=
  match fr with
  | [] => O
  | (_, n) :: fr' => (n + total fr')%nat
  end.

(** Shannon entropy in bits per symbol, as the specification words it:
    [- sum p * log2 p] over the symbols that occur, [p] being the relative
    frequency of the symbol. *)
Definition probability (s : jsstring) (c : char) : R :=
  (INR (count_occ char_eq_dec s c) / INR (length s))%R.

Definition shannon (s : jsstring) : R :=
  (- Rsum (map (fun c => probability s c * log2 (probability s c))
             (nodup char_eq_dec s)))%R.

(** The number of distinct code units of a string. *)
Definition distinct (s : jsstring) : nat := length (nodup char_eq_dec s).

(** The length of the longest prefix of [s] in the base64 alphabet. *)
Fixpoint span (s : jsstring) : nat :=
  match s with
  | c :: s' => if b64 c then S (span s') else O
  | [] => O
  end.

(** What the optional padding group [(?:X{2}==|X{3}=)?] consumes at the
    start of [s]. *)
Definition pad_length (s : jsstring) : nat :=
  match s with
  | a :: b :: c :: d :: _ =>
      if b64 a && b64 b && is_chr "=" c && is_chr "=" d then 4
      else if b64 a && b64 b && b64 c && is_chr "=" d then 4
      else 0
  | _ => 0
  end.

(** The length of the match of [base64Regex] at the start of [s], if any:
    as many groups of four as the run holds, at least ten, then the
    padding. *)
Definition block_length (s : jsstring) : option nat :=
  let q := (span s / 4)%nat in
  if (10 <=? q)%nat
  then Some (4 * q + pad_length (skipn (4 * q) s))%nat
  else None.

(** An encoded block as the specification words it: at least ten groups
    of four characters of the base64 alphabet, optionally followed by two
    more and [==] or three more and [=]. *)
Inductive padding : jsstring -> Prop :=
| pad_none : padding []
| pad_two a b :
    b64 a = true -> b64 b = true -> padding [a; b; code "="; code "="]
| pad_one a b c :
    b64 a = true -> b64 b = true -> b64 c = true ->
    padding [a; b; c; code "="].

Definition b64_block (m : jsstring) : Prop :=
  exists body pad k,
    m = body ++ pad
    /\ Forall (fun c => b64 c = true) body
    /\ length body = (4 * k)%nat /\ (10 <= k)%nat
    /\ padding pad.

(** [scanned text ms]: [ms] are the blocks found in [text] from left to
    right without overlap; a position is passed over only when no block
    starts there, and a block is as long as a block starting there can be. *)
Inductive scanned : jsstring -> list jsstring -> Prop :=
| scanned_end : scanned [] []
| scanned_skip c s ms :
    (forall m t, c :: s = m ++ t -> ~ b64_block m) ->
    scanned s ms -> scanned (c :: s) ms
| scanned_block m t ms :
    b64_block m ->
    (forall m' t', m ++ t = m' ++ t' -> b64_block m' ->
                   (length m' <= length m)%nat) ->
    scanned t ms -> scanned (m ++ t) (m :: ms).

(** The largest of a list of non-negative reals, 0 for the empty list. *)
Definition max_of (l : list R) : R := fold_right Rmax 0%R l.

(** [interleaved text ms]: the strings [ms] occur in [text] in this order
    and without overlap. *)
Inductive interleaved : jsstring -> list jsstring -> Prop :=
| interleaved_nil text : interleaved text []
| interleaved_cons gap m rest ms :
    interleaved rest ms -> interleaved (gap ++ m ++ rest) (m :: ms).

(** The 65 symbols a match of the base64 pattern can hold: the alphabet
    and the padding sign. *)
Definition base64_symbol (c : char) : Prop := b64 c = true \/ c = code "=".

Definition base64_alphabet : list char :=
  map N.of_nat (seq 65 26 ++ seq 97 26 ++ seq 48 10)
  ++ [code "+"; code "/"; code "="].

(** A text that is one block of forty characters. *)
Definition forty_A : jsstring := repeat (code "A") 40.

(** Sums and counts over the entries of a package. *)
Definition sum_over (f : entry -> N) (l : list entry) : N :=
  fold_right (fun e t => (f e + t)%N) 0%N l.

Definition count_where (p : entry -> bool) (l : list entry) : N :=
  N.of_nat (length (filter p l)).

Definition is_comments (e : entry) : bool :=
  jsstring_eqb (entryName e) (lit "word/comments.xml").

Definition is_document (e : entry) : bool :=
  jsstring_eqb (entryName e) (lit "word/document.xml").

Definition is_metadata (e : entry) : bool :=
  jsstring_eqb (entryName e) (lit "docProps/core.xml")
  || jsstring_eqb (entryName e) (lit "docProps/app.xml").

(** The metadata part names its author. *)
Definition names_author (e : entry) : bool :=
  str_includes (lit "creator") (getData e)
  || str_includes (lit "lastModifiedBy") (getData e).

Definition revision_markers_ins : list jsstring := [lit "<w:ins"].
Definition revision_markers_del : list jsstring := [lit "<w:del"].

(** The positions of [content] at which an insertion or a deletion tag
    opens. *)
Definition revision_occurrences (content : jsstring) : N :=
  N.of_nat (occurrences revision_markers_ins content
            + occurrences revision_markers_del content).

(** The part of the package named [word/document.xml] holds a match of
    the hidden-text pattern, of the white-text pattern. *)
Definition has_vanish (e : entry) : bool :=
  is_document e
  && match matches vanishRegex (getData e) with [] => false | _ => true end.

Definition has_white (e : entry) : bool :=
  is_document e
  && match matches whiteRegex (getData e) with [] => false | _ => true end.

Definition long_comments (e : entry) : bool :=
  is_comments e && (500 <? jslength (getData e))%N.

(** An entry no branch of the loop of [analyzeDocx] looks at. *)
Definition is_other (e : entry) : bool :=
  negb (is_embedded e || is_comments e || is_document e || is_metadata e).

(** The number of keys of the info dictionary, and whether it names a
    creator or a producer. *)
Definition info_keys (data : pdf_data) : N :=
  match info data with
  | Some obj => N.of_nat (length obj)
  | None => 0%N
  end.

Definition has_creator (data : pdf_data) : bool :=
  match info data with
  | Some obj =>
      truthy_field (lit "Creator") obj || truthy_field (lit "Producer") obj
  | None => false
  end.

(** An analysis with one finding and a raw score of 9, and one that differs
    only in a larger hidden ratio, with a raw score of 12. *)
Definition light_analysis : AnalysisResult :=
  mkAnalysis 45 (Number.Finite (9 # 2)) (mkBreakdown 0 0 0 0 45) [F_annots]
    (mkDetails 0 0 0 0 0).

Definition heavier_analysis : AnalysisResult :=
  mkAnalysis 60 (Number.Finite 6) (mkBreakdown 0 0 0 0 60) [F_annots]
    (mkDetails 0 0 0 0 0).

(* ================================================================= *)
(** ** The handler of [POST /api/analyze] *)

(** The uploaded file as [multer] hands it over. *)
Module File.
Record t := mk {
  originalname : jsstring;
  path : jsstring;
  size : N
}.
End File.

(** The files of the upload directory, by path. *)
Definition disk := list jsstring.

Definition existsSync (p : jsstring) (d : disk) : bool := includes p d.

(** [fs.unlinkSync(p)]: [None] when it throws (no such file). *)
Definition unlinkSync (p : jsstring) (d : disk) : option disk :=
  if existsSync p d then Some (remove jsstring_eq_dec p d) else None.

(** The body of a successful response; [timestamp], read from the clock,
    is left out.  The four verdict members are whatever [aiResult] holds
    under these keys ([None] for [undefined]). *)
Record response := mkResponse {
  file_name : jsstring;
  file_size : N;
  hidden_bytes : N;
  hidden_ratio : number;
  risk_score : option json;
  risk_level : option json;
  r_confidence : option json;
  r_breakdown : breakdown_t;
  r_findings : list jsstring;
  r_details : details_t;
  r_verdict : option json
}.

Inductive reply :=
| Json (body : response)                  (* status 200 *)
| Error (status : N) (message : jsstring)
| Unanswered.                             (* an exception left the handler *)

(** What the libraries make of the uploaded file: the entries [AdmZip]
    lists and the buffer and extraction result of [readFileSync] and
    [pdfParse]; [None] when the call throws or rejects. *)
Record libraries := mkLibraries {
  zip : option (list entry);
  pdf : option (jsstring * pdf_data)
}.

(** [aiResult.key] in the response: the member of an object, [undefined]
    on any other value. *)
Definition member (key : jsstring) (v : json) : option json :=
  match v with
  | JObj fields => lookup key fields
  | _ => None
  end.

(** The outer [catch]. *)
Definition analysis_failed (file : File.t) (d : disk) : reply * disk :=
  (Error 500 (lit "Failed to analyze file"),
   if existsSync (File.path file) d
   then remove jsstring_eq_dec (File.path file) d else d).

(** The handler; [ext] is [path.extname(file.originalname).toLowerCase()]. *)
Definition handle (req_file : option File.t) (ext : jsstring)
    (libs : libraries) (o : oracle_outcome) (d : disk) : reply * disk :=
  match req_file with
  | None => (Error 400 (lit "No file uploaded"), d)
  | Some file =>
      if negb (jsstring_eqb ext (lit ".pdf"))
         && negb (jsstring_eqb ext (lit ".docx"))
      then
        match unlinkSync (File.path file) d with
        | Some d' =>
            (Error 400
               (lit "Unsupported file type. Only PDF and DOCX are allowed."),
             d')
        | None => (Unanswered, d)
        end
      else
        let analysis :=
          if jsstring_eqb ext (lit ".docx") then
            option_map (fun l => analyzeDocx l (File.size file)) (zip libs)
          else if jsstring_eqb ext (lit ".pdf") then
            option_map
              (fun rd => analyzePdf (fst rd) (snd rd) (File.size file))
              (pdf libs)
          else None in
        match analysis with
        | None => analysis_failed file d
        | Some analysis =>
            let ai := aiResult analysis o in
            let body :=
              mkResponse (File.originalname file) (File.size file)
                (hiddenBytes analysis) (hiddenRatio analysis)
                (member (lit "riskScore") ai) (member (lit "riskLevel") ai)
                (member (lit "confidence") ai) (breakdown analysis)
                (findings analysis) (details analysis)
                (member (lit "verdict") ai) in
            match unlinkSync (File.path file) d with
            | Some d' => (Json body, d')
            | None => analysis_failed file d
            end
        end
  end.

(** Sample request: a PDF upload stored as [uploads/ab12]. *)
Definition sample_upload : File.t :=
  File.mk (lit "report.pdf") (lit "uploads/ab12") 4096.

Definition sample_libraries : libraries :=
  mkLibraries None (Some (three_markers_pdf, no_text)).

(** The body the handler sends for [analysis] and the oracle outcome [o]. *)
Definition response_body (file : File.t) (analysis : AnalysisResult)
    (o : oracle_outcome) : response :=
  let ai := aiResult analysis o in
  mkResponse (File.originalname file) (File.size file)
    (hiddenBytes analysis) (hiddenRatio analysis)
    (member (lit "riskScore") ai) (member (lit "riskLevel") ai)
    (member (lit "confidence") ai) (breakdown analysis)
    (findings analysis) (details analysis)
    (member (lit "verdict") ai).

(** The analysis the handler runs for a file with extension [ext]. *)
Definition analysis_for (file : File.t) (ext : jsstring) (libs : libraries)
  : option AnalysisResult :=
  if jsstring_eqb ext (lit ".docx") then
    option_map (fun l => analyzeDocx l (File.size file)) (zip libs)
  else if jsstring_eqb ext (lit ".pdf") then
    option_map (fun rd => analyzePdf (fst rd) (snd rd) (File.size file))
      (pdf libs)
  else None.

Definition supported (ext : jsstring) : Prop :=
  ext = lit ".pdf" \/ ext = lit ".docx".

(* ================================================================= *)
(** ** The dashboard ([App.tsx]) *)

(** [total={result.hidden_bytes || 1}] *)
Definition bar_total (hidden_bytes : N) : N :=
  if (hidden_bytes =? 0)%N then 1%N else hidden_bytes.

(** [ProgressBar]: [total > 0 ? (value / total) * 100 : 0] *)
Definition percentage (value total : N) : number :=
  if (0 <? total)%N
  then Number.mul (Number.div (Number.of_N value) (Number.of_N total))
         (Number.Finite 100)
  else Number.Finite 0.

(** What is shown for a counter [value] of a result with [hidden] hidden
    bytes. *)
Definition bar_ok (value hidden : N) : Prop :=
  let p := percentage value (bar_total hidden) in
  Number.le (Number.Finite 0) p
  /\ Number.le p (Number.Finite 100)
  /\ (value = 0%N -> p = Number.Finite 0)
  /\ (value = hidden -> (0 < hidden)%N -> p = Number.Finite 100).

(** The colour of the risk badge and gauge. *)
Inductive colour := Red | Amber | Green.

Definition badge (risk_level : jsstring) : colour :=
  if jsstring_eqb risk_level (lit "HIGH") then Red
  else if jsstring_eqb risk_level (lit "MEDIUM") then Amber
  else Green.

(** The result of a scan, DOCX or PDF. *)
Definition scan_result (a : AnalysisResult) (fileSize : N) : Prop :=
  (exists zipEntries, a = analyzeDocx zipEntries fileSize)
  \/ (exists rawString data, a = analyzePdf rawString data fileSize).

(* ================================================================= *)
(** * Properties *)

(* ================================================================= *)
(** ** Numbers: rounding is monotone *)

Lemma pow2_pos (e : Z) : 0 < 2 ^ e.
Proof. apply Qpower_0_lt. reflexivity. Qed.

Lemma pow2_plus (a b : Z) : 2 ^ (a + b) == 2 ^ a * 2 ^ b.
Proof. apply Qpower_plus. discriminate. Qed.

Lemma pow2_le (a b : Z) : (a <= b)%Z -> 2 ^ a <= 2 ^ b.
Proof. intros H. apply Qpower_le_compat_l; [exact H | discriminate]. Qed.

Lemma pow2_Z (n : Z) : (0 <= n)%Z -> inject_Z (2 ^ n) == 2 ^ n.
Proof. intros H. rewrite (Zpower_Qpower 2 n H). reflexivity. Qed.

Lemma Z_log2_Q (n : Z) :
  (0 < n)%Z -> 2 ^ Z.log2 n <= inject_Z n /\ inject_Z n < 2 ^ (Z.log2 n + 1).
Proof.
  intros H. destruct (Z.log2_spec n H) as [H1 H2].
  assert (H0 := Z.log2_nonneg n).
  split.
  - rewrite <- pow2_Z by exact H0. rewrite <- Zle_Qle. exact H1.
  - rewrite <- pow2_Z by lia. rewrite <- Zlt_Qlt. exact H2.
Qed.

Lemma ilog2_spec (q : Q) :
  0 < q -> 2 ^ Number.ilog2 q <= q /\ q < 2 ^ (Number.ilog2 q + 1).
Proof.
  intros Hq. unfold Number.ilog2.
  destruct q as [n d]. cbn [Qnum Qden].
  assert (Hn : (0 < n)%Z) by (unfold Qlt in Hq; simpl in Hq; lia).
  destruct (Z_log2_Q n Hn) as [N1 N2].
  destruct (Z_log2_Q (Zpos d) eq_refl) as [D1 D2].
  set (ln := Z.log2 n) in *. set (ld := Z.log2 (Zpos d)) in *.
  assert (Hq' : n # d == inject_Z n / inject_Z (Zpos d)) by apply Qmake_Qdiv.
  assert (HD : 0 < inject_Z (Zpos d)) by reflexivity.
  assert (Hup : n # d < 2 ^ (ln - ld + 1)).
  { rewrite Hq'. apply Qlt_shift_div_r; [exact HD|].
    eapply Qlt_le_trans; [exact N2|].
    replace (ln + 1)%Z with ((ln - ld + 1) + ld)%Z by lia.
    rewrite pow2_plus. apply Qmult_le_l; [apply pow2_pos | exact D1]. }
  assert (Hlo : 2 ^ (ln - ld - 1) < n # d).
  { rewrite Hq'. apply Qlt_shift_div_l; [exact HD|].
    eapply Qlt_le_trans; [|exact N1].
    replace ln with ((ln - ld - 1) + (ld + 1))%Z at 2 by lia.
    rewrite pow2_plus. apply Qmult_lt_l; [apply pow2_pos | exact D2]. }
  destruct (Qle_bool (2 ^ (ln - ld)) (n # d)) eqn:E.
  - apply Qle_bool_iff in E. split; assumption.
  - split; [apply Qlt_le_weak; exact Hlo|].
    replace (ln - ld - 1 + 1)%Z with (ln - ld)%Z by lia.
    apply Qnot_le_lt. intros H. apply Qle_bool_iff in H. congruence.
Qed.

Lemma ilog2_le (x y : Q) :
  0 < x -> x <= y -> (Number.ilog2 x <= Number.ilog2 y)%Z.
Proof.
  intros Hx Hxy.
  assert (Hy : 0 < y) by (eapply Qlt_le_trans; eassumption).
  destruct (ilog2_spec x Hx) as [X1 _]. destruct (ilog2_spec y Hy) as [_ Y2].
  assert (A : (Number.ilog2 x < Number.ilog2 y + 1)%Z).
  { apply (Qpower_lt_compat_l_inv 2); [|reflexivity].
    eapply Qle_lt_trans; [exact X1|]. eapply Qle_lt_trans; eassumption. }
  lia.
Qed.

(** The nearest integer. *)
Lemma rne_bounds (x : Q) :
  (Qfloor x <= Number.rne x <= Qfloor x + 1)%Z.
Proof.
  unfold Number.rne.
  destruct (Qcompare _ _); [destruct (Z.even _)| |]; lia.
Qed.

Lemma rne_le (x y : Q) : x <= y -> (Number.rne x <= Number.rne y)%Z.
Proof.
  intros Hxy. assert (Hf := Qfloor_resp_le _ _ Hxy).
  destruct (Z.eq_dec (Qfloor x) (Qfloor y)) as [E | N].
  - unfold Number.rne. rewrite <- E.
    destruct (Qcompare_spec (x - inject_Z (Qfloor x)) (1 # 2)) as [A | A | A];
      destruct (Qcompare_spec (y - inject_Z (Qfloor x)) (1 # 2)) as [B | B | B];
      try destruct (Z.even (Qfloor x)); try lia; exfalso; lra.
  - assert (H1 := rne_bounds x). assert (H2 := rne_bounds y). lia.
Qed.

Lemma rne_Z (z : Z) : Number.rne (inject_Z z) = z.
Proof.
  unfold Number.rne. rewrite Qfloor_Z.
  destruct (Qcompare_spec (inject_Z z - inject_Z z) (1 # 2)) as [A | A | A];
    [exfalso; lra | reflexivity | exfalso; lra].
Qed.

Lemma rne_ge (z : Z) (x : Q) : inject_Z z <= x -> (z <= Number.rne x)%Z.
Proof. intros H. rewrite <- (rne_Z z). apply rne_le. exact H. Qed.

Lemma rne_le_Z (z : Z) (x : Q) : x <= inject_Z z -> (Number.rne x <= z)%Z.
Proof. intros H. rewrite <- (rne_Z z). apply rne_le. exact H. Qed.

Lemma scaled_lt (q : Q) : 0 < q -> q / 2 ^ Number.exponent q < 2 ^ 53.
Proof.
  intros Hq. apply Qlt_shift_div_r; [apply pow2_pos|].
  rewrite <- pow2_plus.
  eapply Qlt_le_trans; [apply (ilog2_spec q Hq)|].
  apply pow2_le. unfold Number.exponent. lia.
Qed.

Lemma scaled_ge (q : Q) :
  0 < q -> (-1074 < Number.exponent q)%Z -> 2 ^ 52 <= q / 2 ^ Number.exponent q.
Proof.
  intros Hq He. apply Qle_shift_div_l; [apply pow2_pos|].
  rewrite <- pow2_plus.
  eapply Qle_trans; [|apply (ilog2_spec q Hq)].
  apply pow2_le. unfold Number.exponent in *. lia.
Qed.

Lemma nearest_nonneg (q : Q) : 0 < q -> 0 <= Number.nearest q.
Proof.
  intros Hq. unfold Number.nearest.
  apply Qmult_le_0_compat; [|apply Qlt_le_weak, pow2_pos].
  change 0 with (inject_Z 0). rewrite <- Zle_Qle. apply rne_ge.
  apply Qle_shift_div_l; [apply pow2_pos|]. rewrite Qmult_0_l.
  apply Qlt_le_weak. exact Hq.
Qed.

Lemma nearest_le (x y : Q) :
  0 < x -> x <= y -> Number.nearest x <= Number.nearest y.
Proof.
  intros Hx Hxy.
  assert (Hy : 0 < y) by (eapply Qlt_le_trans; eassumption).
  assert (He : (Number.exponent x <= Number.exponent y)%Z).
  { unfold Number.exponent. assert (H := ilog2_le x y Hx Hxy). lia. }
  unfold Number.nearest.
  destruct (Z.eq_dec (Number.exponent x) (Number.exponent y)) as [E | N].
  - rewrite E. apply Qmult_le_compat_r; [|apply Qlt_le_weak, pow2_pos].
    rewrite <- Zle_Qle. apply rne_le.
    apply Qmult_le_compat_r; [exact Hxy|].
    apply Qlt_le_weak, Qinv_lt_0_compat, pow2_pos.
  - assert (A : (Number.rne (x / 2 ^ Number.exponent x) <= 2 ^ 53)%Z).
    { apply rne_le_Z. rewrite (pow2_Z 53) by lia.
      apply Qlt_le_weak, scaled_lt. exact Hx. }
    assert (B : (2 ^ 52 <= Number.rne (y / 2 ^ Number.exponent y))%Z).
    { apply rne_ge. rewrite (pow2_Z 52) by lia.
      apply scaled_ge; [exact Hy|]. unfold Number.exponent in *. lia. }
    apply (Qle_trans _ (2 ^ 53 * 2 ^ Number.exponent x)).
    + apply Qmult_le_compat_r; [|apply Qlt_le_weak, pow2_pos].
      rewrite <- (pow2_Z 53) by lia. rewrite <- Zle_Qle. exact A.
    + apply (Qle_trans _ (2 ^ 52 * 2 ^ Number.exponent y)).
      * rewrite <- !pow2_plus. apply pow2_le. lia.
      * apply Qmult_le_compat_r; [|apply Qlt_le_weak, pow2_pos].
        rewrite <- (pow2_Z 52) by lia. rewrite <- Zle_Qle. exact B.
Qed.

Lemma nearest_comp (x y : Q) :
  0 < x -> x == y -> Number.nearest x == Number.nearest y.
Proof.
  intros Hx E.
  assert (Hy : 0 < y) by (rewrite <- E; exact Hx).
  apply Qle_antisym; apply nearest_le; try assumption;
    rewrite E; apply Qle_refl.
Qed.

Lemma Qle_bool_negb (x y : Q) : negb (Qle_bool y x) = true <-> x < y.
Proof.
  rewrite negb_true_iff. split.
  - intros H. apply Qnot_le_lt. intros Hle.
    apply Qle_bool_iff in Hle. congruence.
  - intros H. destruct (Qle_bool y x) eqn:E; [|reflexivity].
    apply Qle_bool_iff in E. exfalso. exact (Qlt_not_le _ _ H E).
Qed.

Lemma Qle_bool_false (x y : Q) : Qle_bool x y = false <-> y < x.
Proof. rewrite <- Qle_bool_negb. rewrite negb_true_iff. tauto. Qed.

(** The value [round] gives a positive rational. *)
Lemma round_pos (q : Q) :
  0 < q ->
  Number.round q
  = if Number.overflows (Number.nearest q) then Number.Infinity false
    else Number.Finite (Qred (Number.nearest q)).
Proof.
  intros H. unfold Number.round.
  destruct (Qcompare_spec q 0) as [A | A | A];
    [exfalso; lra | exfalso; lra | reflexivity].
Qed.

Lemma round_neg (q : Q) :
  q < 0 ->
  Number.round q
  = if Number.overflows (Number.nearest (- q)) then Number.Infinity true
    else Number.Finite (Qred (- Number.nearest (- q))).
Proof.
  intros H. unfold Number.round.
  destruct (Qcompare_spec q 0) as [A | A | A];
    [exfalso; lra | reflexivity | exfalso; lra].
Qed.

Lemma round_zero (q : Q) : q == 0 -> Number.round q = Number.Finite 0.
Proof.
  intros H. unfold Number.round.
  destruct (Qcompare_spec q 0) as [A | A | A];
    [reflexivity | exfalso; lra | exfalso; lra].
Qed.

Lemma overflows_le (x y : Q) :
  x <= y -> Number.overflows x = true -> Number.overflows y = true.
Proof.
  unfold Number.overflows. intros H E. apply Qle_bool_iff in E.
  apply Qle_bool_iff. eapply Qle_trans; eassumption.
Qed.

Lemma round_not_NaN (q : Q) : Number.round q <> Number.NaN.
Proof.
  unfold Number.round.
  destruct (q ?= 0); [discriminate | |];
    destruct (Number.overflows _); discriminate.
Qed.

(** Rounding is monotone. *)
Lemma round_le (x y : Q) :
  x <= y -> Number.le (Number.round x) (Number.round y).
Proof.
  intros Hxy. unfold Number.le.
  destruct (Qlt_le_dec x 0) as [Xn | Xp].
  - rewrite (round_neg x Xn).
    assert (Nx := nearest_nonneg (- x) ltac:(lra)).
    destruct (Number.overflows (Number.nearest (- x))) eqn:Ox.
    { destruct (Number.round y) eqn:Ey;
        [exfalso; exact (round_not_NaN y Ey) | reflexivity | reflexivity]. }
    destruct (Qlt_le_dec y 0) as [Yn | Yp].
    + rewrite (round_neg y Yn).
      assert (M := nearest_le (- y) (- x) ltac:(lra) ltac:(lra)).
      destruct (Number.overflows (Number.nearest (- y))) eqn:Oy.
      * rewrite (overflows_le _ _ M Oy) in Ox. discriminate Ox.
      * cbn [Number.leb]. apply Qle_bool_iff. rewrite !Qred_correct. lra.
    + destruct (Qeq_dec y 0) as [Y0 | Y0].
      * rewrite (round_zero y Y0). cbn [Number.leb]. apply Qle_bool_iff.
        rewrite Qred_correct. lra.
      * assert (Yq : 0 < y) by (apply Qle_lt_or_eq in Yp;
          destruct Yp as [Yp | Yp]; [exact Yp | exfalso; apply Y0; lra]).
        rewrite (round_pos y Yq).
        assert (Ny := nearest_nonneg y Yq).
        destruct (Number.overflows (Number.nearest y)); [reflexivity|].
        cbn [Number.leb]. apply Qle_bool_iff. rewrite !Qred_correct. lra.
  - destruct (Qeq_dec x 0) as [X0 | X0].
    + rewrite (round_zero x X0).
      destruct (Qeq_dec y 0) as [Y0 | Y0].
      * rewrite (round_zero y Y0). reflexivity.
      * assert (Yq : 0 < y) by (apply Qnot_le_lt; intros H; apply Y0; lra).
        rewrite (round_pos y Yq).
        assert (Ny := nearest_nonneg y Yq).
        destruct (Number.overflows (Number.nearest y)); [reflexivity|].
        cbn [Number.leb]. apply Qle_bool_iff. rewrite Qred_correct. exact Ny.
    + assert (Xq : 0 < x) by (apply Qnot_le_lt; intros H; apply X0; lra).
      assert (Yq : 0 < y) by lra.
      rewrite (round_pos x Xq), (round_pos y Yq).
      assert (M := nearest_le x y Xq Hxy).
      destruct (Number.overflows (Number.nearest x)) eqn:Ox.
      * rewrite (overflows_le _ _ M Ox). reflexivity.
      * destruct (Number.overflows (Number.nearest y)); [reflexivity|].
        cbn [Number.leb]. apply Qle_bool_iff. rewrite !Qred_correct. exact M.
Qed.


Lemma overflows_comp (x y : Q) :
  x == y -> Number.overflows x = Number.overflows y.
Proof.
  intros E. unfold Number.overflows.
  destruct (Qle_bool (2 ^ 1024) x) eqn:A, (Qle_bool (2 ^ 1024) y) eqn:B;
    try reflexivity.
  - apply Qle_bool_iff in A. apply Qle_bool_false in B. exfalso. lra.
  - apply Qle_bool_iff in B. apply Qle_bool_false in A. exfalso. lra.
Qed.

(** [round] depends on the value of the rational only. *)
Lemma round_comp (x y : Q) : x == y -> Number.round x = Number.round y.
Proof.
  intros E.
  destruct (Qlt_le_dec x 0) as [Xn | Xp].
  - rewrite (round_neg x Xn), (round_neg y ltac:(lra)).
    assert (M : Number.nearest (- x) == Number.nearest (- y))
      by (apply nearest_comp; lra).
    rewrite (overflows_comp _ _ M).
    destruct (Number.overflows _); [reflexivity|].
    f_equal. apply Qred_complete. rewrite M. reflexivity.
  - destruct (Qeq_dec x 0) as [X0 | X0].
    + rewrite (round_zero x X0), (round_zero y ltac:(lra)). reflexivity.
    + assert (Xq : 0 < x) by (apply Qnot_le_lt; intros H; apply X0; lra).
      rewrite (round_pos x Xq), (round_pos y ltac:(lra)).
      assert (M : Number.nearest x == Number.nearest y)
        by (apply nearest_comp; assumption).
      rewrite (overflows_comp _ _ M).
      destruct (Number.overflows _); [reflexivity|].
      f_equal. apply Qred_complete. exact M.
Qed.

(** Order on numbers, case by case. *)
Ltac number_simpl :=
  cbn [Number.leb Number.ltb Number.min Number.max negb] in *.

Ltac qbool :=
  repeat match goal with
         | H : Qle_bool _ _ = true |- _ => apply Qle_bool_iff in H
         | H : Qle_bool _ _ = false |- _ => apply Qle_bool_false in H
         | H : context [Qle_bool ?a ?b] |- _ =>
             destruct (Qle_bool a b) eqn:?; number_simpl
         | |- context [Qle_bool ?a ?b] =>
             destruct (Qle_bool a b) eqn:?; number_simpl
         end.

Ltac number_cases :=
  unfold Number.le, Number.lt in *;
  repeat match goal with
         | x : Number.t |- _ => destruct x as [| [|] | ?]
         | x : number |- _ => destruct x as [| [|] | ?]
         end;
  number_simpl; try discriminate; try reflexivity;
  qbool; try discriminate; try reflexivity; try tauto;
  try solve [exfalso; lra].

Lemma le_trans (x y z : Number.t) :
  Number.le x y -> Number.le y z -> Number.le x z.
Proof. intros H1 H2. number_cases. Qed.

Lemma lt_le_trans (x y z : Number.t) :
  Number.lt x y -> Number.le y z -> Number.lt x z.
Proof. intros H1 H2. number_cases. Qed.

Lemma le_lt_trans (x y z : Number.t) :
  Number.le x y -> Number.lt y z -> Number.lt x z.
Proof. intros H1 H2. number_cases. Qed.

Lemma lt_le (x y : Number.t) : Number.lt x y -> Number.le x y.
Proof. intros H. number_cases. Qed.

Lemma le_not_NaN (x y : Number.t) :
  Number.le x y -> x <> Number.NaN /\ y <> Number.NaN.
Proof. intros H. split; intros E; subst; number_cases. Qed.

Lemma ltb_false (x y : Number.t) :
  x <> Number.NaN -> y <> Number.NaN ->
  Number.ltb x y = false -> Number.le y x.
Proof. intros Hx Hy H. number_cases. Qed.

Lemma ltb_le_false (x y : Number.t) :
  Number.le y x -> Number.ltb x y = false.
Proof. intros H. number_cases. Qed.

Lemma leb_lt_false (x y : Number.t) :
  Number.lt y x -> Number.leb x y = false.
Proof. intros H. number_cases. Qed.

Lemma leb_false (x y : Number.t) :
  Number.leb x y = false <-> x = Number.NaN \/ y = Number.NaN \/ Number.lt y x.
Proof.
  split.
  - intros H. destruct x as [| [|] | a], y as [| [|] | b];
      try (left; reflexivity); try (right; left; reflexivity);
      right; right; number_cases.
  - intros [-> | [-> | H]]; [reflexivity | destruct x as [| [|] |]; reflexivity
                            | apply leb_lt_false; exact H].
Qed.

(** Rounding against a number that is its own rounding. *)
Lemma round_ge (c q : Q) :
  Number.round c = Number.Finite c -> c <= q ->
  Number.le (Number.Finite c) (Number.round q).
Proof. intros Hc H. rewrite <- Hc. apply round_le. exact H. Qed.

Lemma round_le_fixed (c q : Q) :
  Number.round c = Number.Finite c -> q <= c ->
  Number.le (Number.round q) (Number.Finite c).
Proof. intros Hc H. rewrite <- Hc. apply round_le. exact H. Qed.

(** Arithmetic above a bound. *)
Lemma add_ge (c a b : Q) (x y : Number.t) :
  Number.round c = Number.Finite c -> c <= a + b ->
  Number.le (Number.Finite a) x -> Number.le (Number.Finite b) y ->
  Number.le (Number.Finite c) (Number.add x y).
Proof.
  intros Hc Hab Hx Hy.
  destruct x as [| [|] | p], y as [| [|] | q]; try discriminate;
    try reflexivity.
  cbn [Number.add]. apply round_ge; [exact Hc|].
  unfold Number.le in Hx, Hy. cbn [Number.leb] in Hx, Hy.
  apply Qle_bool_iff in Hx, Hy. lra.
Qed.

Lemma add_le (c a b : Q) (x y : Number.t) :
  Number.round c = Number.Finite c -> a + b <= c ->
  Number.le x (Number.Finite a) -> Number.le y (Number.Finite b) ->
  Number.le (Number.Finite 0) x -> Number.le (Number.Finite 0) y ->
  Number.le (Number.add x y) (Number.Finite c).
Proof.
  intros Hc Hab Hx Hy Hx0 Hy0.
  destruct x as [| [|] | p], y as [| [|] | q]; try discriminate.
  cbn [Number.add]. apply round_le_fixed; [exact Hc|].
  unfold Number.le in Hx, Hy. cbn [Number.leb] in Hx, Hy.
  apply Qle_bool_iff in Hx, Hy. lra.
Qed.

Lemma mul_ge (c a k : Q) (x : Number.t) :
  Number.round c = Number.Finite c -> 0 < k -> c <= a * k ->
  Number.le (Number.Finite a) x ->
  Number.le (Number.Finite c) (Number.mul x (Number.Finite k)).
Proof.
  intros Hc Hk Hak Hx.
  destruct x as [| [|] | p]; try discriminate.
  - cbn [Number.mul]. unfold Number.scaled.
    destruct (Qcompare_spec k 0) as [A | A | A];
      [exfalso; lra | exfalso; lra | reflexivity].
  - cbn [Number.mul]. apply round_ge; [exact Hc|].
    unfold Number.le in Hx. cbn [Number.leb] in Hx.
    apply Qle_bool_iff in Hx. nra.
Qed.

Lemma mul_le (c a k : Q) (x : Number.t) :
  Number.round c = Number.Finite c -> 0 < k -> a * k <= c ->
  Number.le x (Number.Finite a) -> Number.le (Number.Finite 0) x ->
  Number.le (Number.mul x (Number.Finite k)) (Number.Finite c).
Proof.
  intros Hc Hk Hak Hx Hx0.
  destruct x as [| [|] | p]; try discriminate.
  cbn [Number.mul]. apply round_le_fixed; [exact Hc|].
  unfold Number.le in Hx. cbn [Number.leb] in Hx.
  apply Qle_bool_iff in Hx. nra.
Qed.

(** The quotient of two counters. *)
Lemma div_of_N (a b : N) :
  (0 < b)%N ->
  Number.div (Number.of_N a) (Number.of_N b)
  = Number.round (inject_Z (Z.of_N a) / inject_Z (Z.of_N b)).
Proof.
  intros Hb. unfold Number.of_N. cbn [Number.div].
  destruct (Qcompare_spec (inject_Z (Z.of_N b)) 0) as [A | A | A];
    try reflexivity.
  exfalso. assert (H : 0 < inject_Z (Z.of_N b)).
  { change 0 with (inject_Z 0). rewrite <- Zlt_Qlt. lia. }
  lra.
Qed.

(* ================================================================= *)
(** ** Strings and findings *)

Lemma jsstring_eqb_eq (a b : jsstring) : jsstring_eqb a b = true <-> a = b.
Proof.
  revert b; induction a as [|x a IH]; intros [|y b]; simpl;
    try (split; [discriminate | congruence]); try tauto.
  rewrite andb_true_iff, N.eqb_eq, IH. split.
  - intros [-> ->]; reflexivity.
  - intros H; injection H; auto.
Qed.

Lemma jsstring_eqb_refl (a : jsstring) : jsstring_eqb a a = true.
Proof. apply jsstring_eqb_eq; reflexivity. Qed.

Lemma includes_In (x : jsstring) (arr : list jsstring) :
  includes x arr = true <-> In x arr.
Proof.
  unfold includes. rewrite existsb_exists. split.
  - intros (y & Hy & E). apply jsstring_eqb_eq in E. subst; assumption.
  - intros H. exists x. split; [assumption | apply jsstring_eqb_refl].
Qed.


(* ================================================================= *)
(** ** Hidden ratio *)

Lemma of_N_nonneg (n : N) : 0 <= inject_Z (Z.of_N n).
Proof. change 0 with (inject_Z 0). rewrite <- Zle_Qle. lia. Qed.

Lemma of_N_pos (n : N) : (0 < n)%N -> 0 < inject_Z (Z.of_N n).
Proof. intros H. change 0 with (inject_Z 0). rewrite <- Zlt_Qlt. lia. Qed.

Lemma of_N_le (a b : N) :
  (a <= b)%N -> inject_Z (Z.of_N a) <= inject_Z (Z.of_N b).
Proof. intros H. rewrite <- Zle_Qle. lia. Qed.

(** The quotient of two counters lies on the side of 0 and of 1 where the
    exact quotient lies. *)
Lemma quotient_nonneg (a b : N) :
  (0 < b)%N ->
  Number.le (Number.Finite 0) (Number.div (Number.of_N a) (Number.of_N b)).
Proof.
  intros Hb. rewrite (div_of_N a b Hb). apply round_ge; [reflexivity|].
  apply Qle_shift_div_l; [apply of_N_pos; exact Hb|].
  rewrite Qmult_0_l. apply of_N_nonneg.
Qed.

Lemma quotient_ge_1 (a b : N) :
  (0 < b)%N -> (b <= a)%N ->
  Number.le (Number.Finite 1) (Number.div (Number.of_N a) (Number.of_N b)).
Proof.
  intros Hb Hle. rewrite (div_of_N a b Hb). apply round_ge; [reflexivity|].
  apply Qle_shift_div_l; [apply of_N_pos; exact Hb|].
  rewrite Qmult_1_l. apply of_N_le. exact Hle.
Qed.

Lemma quotient_le_1 (a b : N) :
  (0 < b)%N -> (a <= b)%N ->
  Number.le (Number.div (Number.of_N a) (Number.of_N b)) (Number.Finite 1).
Proof.
  intros Hb Hle. rewrite (div_of_N a b Hb).
  apply round_le_fixed; [reflexivity|].
  apply Qle_shift_div_r; [apply of_N_pos; exact Hb|].
  rewrite Qmult_1_l. apply of_N_le. exact Hle.
Qed.

(** [Math.min(x, 100)] of a number that is not negative. *)
Lemma min_100_bounds (x : number) :
  Number.le (Number.Finite 0) x ->
  Number.le (Number.Finite 0) (Number.min x (Number.Finite 100))
  /\ Number.le (Number.min x (Number.Finite 100)) (Number.Finite 100).
Proof. intros H. split; number_cases. Qed.

Lemma min_100_saturates (x : number) :
  Number.le (Number.Finite 100) x ->
  Number.min x (Number.Finite 100) = Number.Finite 100.
Proof. intros H. number_cases. Qed.

Lemma ratio_bounds (hiddenBytes fileSize : N) :
  (0 < fileSize)%N ->
  Number.le (Number.Finite 0) (ratio hiddenBytes fileSize)
  /\ Number.le (ratio hiddenBytes fileSize) (Number.Finite 100).
Proof.
  intros Hpos. unfold ratio. apply min_100_bounds.
  apply (mul_ge 0 0 100); [reflexivity | reflexivity | discriminate|].
  apply quotient_nonneg. exact Hpos.
Qed.

Lemma ratio_saturates (hiddenBytes fileSize : N) :
  (0 < fileSize)%N -> (fileSize <= hiddenBytes)%N ->
  ratio hiddenBytes fileSize = Number.Finite 100.
Proof.
  intros Hpos Hle. unfold ratio. apply min_100_saturates.
  apply (mul_ge 100 1 100); [reflexivity | reflexivity | discriminate|].
  apply quotient_ge_1; assumption.
Qed.

Lemma result_of_aggregated (st : St.t) (fileSize : N) :
  (0 < fileSize)%N -> aggregated (result_of st fileSize) fileSize.
Proof.
  intros Hpos. unfold aggregated, result_of.
  cbn [hiddenBytes hiddenRatio breakdown hidden_text embedded_files
       base64_blocks comments_size].
  split; [reflexivity|]. split; [reflexivity|]. split.
  - apply ratio_bounds. exact Hpos.
  - intros Hle. apply ratio_saturates; assumption.
Qed.

(** C2: in a DOCX scan and in a PDF scan alike, [hiddenBytes] is the sum of
    the four byte counters of the breakdown (the metadata score is left
    out), [hiddenRatio] is [min(hiddenBytes / fileSize * 100, 100)] in
    double arithmetic (the quotient is rounded, then the product), and for
    a file of positive size it lies in [0, 100], being 100 as soon as
    [hiddenBytes] reaches or exceeds the file size. *)
Theorem hiddenRatio_aggregation (fileSize : N) :
  (0 < fileSize)%N ->
  (forall zipEntries, aggregated (analyzeDocx zipEntries fileSize) fileSize)
  /\ (forall rawString data,
        aggregated (analyzePdf rawString data fileSize) fileSize).
Proof.
  intros Hpos. split; intros; apply result_of_aggregated; assumption.
Qed.

Lemma hiddenRatio_aggregation_witness :
  aggregated (analyzeDocx [oversized_entry] 100) 100
  /\ (100 <= hiddenBytes (analyzeDocx [oversized_entry] 100))%N.
Proof.
  split.
  - apply (hiddenRatio_aggregation 100); reflexivity.
  - vm_compute. discriminate.
Defined.

(** The two roundings at work: 2648 hidden bytes of 10000 give the double
    next below 26.48, and 497 of 10000 give 4.97, the double nearest to
    497/100. *)
Example ratio_rounds_twice :
  ratio 2648 10000 = Number.Finite (3726728691649085 # 140737488355328)
  /\ Number.lt (ratio 2648 10000) (parseFloat (2648 # 100))
  /\ ratio 497 10000 = parseFloat (497 # 100).
Proof. repeat split; vm_compute; reflexivity. Qed.

Lemma mul_mono (k : Q) (x y : number) :
  0 < k -> Number.le (Number.Finite 0) x -> Number.le x y ->
  Number.le (Number.mul x (Number.Finite k)) (Number.mul y (Number.Finite k)).
Proof.
  intros Hk H0 Hxy.
  assert (Hs : Number.scaled false k = Number.Infinity false).
  { unfold Number.scaled.
    destruct (Qcompare_spec k 0) as [A | A | A];
      [exfalso; lra | exfalso; lra | reflexivity]. }
  destruct x as [| [|] | p], y as [| [|] | q]; try discriminate;
    cbn [Number.mul]; rewrite ?Hs; try reflexivity.
  - unfold Number.le. destruct (Number.round (p * k)) eqn:E;
      [exfalso; exact (round_not_NaN _ E) | destruct negative | ];
      reflexivity.
  - apply round_le. unfold Number.le in Hxy. cbn [Number.leb] in Hxy.
    apply Qle_bool_iff in Hxy. nra.
Qed.

Lemma min_100_mono (x y : number) :
  Number.le x y ->
  Number.le (Number.min x (Number.Finite 100)) (Number.min y (Number.Finite 100)).
Proof. intros H. number_cases. Qed.

(** X26: for a file of a given positive size, more hidden bytes never give
    a smaller [hiddenRatio]: the quotient and the product are rounded, but
    rounding keeps the order. *)
Theorem hiddenRatio_monotone (hiddenBytes hiddenBytes' fileSize : N) :
  (0 < fileSize)%N -> (hiddenBytes <= hiddenBytes')%N ->
  Number.le (ratio hiddenBytes fileSize) (ratio hiddenBytes' fileSize).
Proof.
  intros Hpos Hle. unfold ratio.
  apply min_100_mono. apply mul_mono; [reflexivity | |].
  - apply quotient_nonneg. exact Hpos.
  - rewrite !(div_of_N _ fileSize Hpos). apply round_le.
    apply Qmult_le_compat_r; [apply of_N_le; exact Hle|].
    apply Qlt_le_weak, Qinv_lt_0_compat, of_N_pos. exact Hpos.
Qed.

Lemma hiddenRatio_monotone_witness :
  Number.le (ratio 2648 10000) (ratio 2649 10000).
Proof. apply hiddenRatio_monotone; [reflexivity | lia]. Defined.

(* ================================================================= *)
(** ** Fallback risk scorer *)

(** [Math.min(Math.max(x, 0), 100)] case by case. *)
Lemma clamp_cases (x : number) :
  let c := Number.min (Number.max x (Number.Finite 0)) (Number.Finite 100) in
  (x = Number.NaN /\ c = Number.NaN)
  \/ (Number.lt x (Number.Finite 0) /\ c = Number.Finite 0)
  \/ (Number.le (Number.Finite 0) x /\ Number.lt x (Number.Finite 100)
      /\ c = x)
  \/ (Number.le (Number.Finite 100) x /\ c = Number.Finite 100).
Proof.
  cbv zeta. destruct x as [| [|] | q].
  - left. split; reflexivity.
  - right; left. split; reflexivity.
  - right; right; right. split; reflexivity.
  - destruct (Qlt_le_dec q 0) as [Hneg | Hnn].
    + right; left. split; number_cases.
    + destruct (Qlt_le_dec q 100) as [Hlt | Hge].
      * right; right; left. repeat split; number_cases.
      * right; right; right. split; number_cases.
Qed.

Lemma clamp_range (x : number) :
  let c := Number.min (Number.max x (Number.Finite 0)) (Number.Finite 100) in
  c = Number.NaN
  \/ (Number.le (Number.Finite 0) c /\ Number.le c (Number.Finite 100)).
Proof.
  cbv zeta.
  destruct (clamp_cases x) as [[_ ->] | [[_ ->] | [(H0 & H1 & ->) | [_ ->]]]].
  - left; reflexivity.
  - right; split; reflexivity.
  - right; split; [exact H0 | apply lt_le; exact H1].
  - right; split; reflexivity.
Qed.

(** The level by the score. *)
Lemma level_cases (s : number) :
  let level :=
    if Number.leb (Number.Finite 70) s then lit "HIGH"
    else if Number.leb (Number.Finite 30) s then lit "MEDIUM"
    else lit "LOW" in
  (level = lit "HIGH" <-> Number.le (Number.Finite 70) s)
  /\ (level = lit "MEDIUM"
      <-> Number.le (Number.Finite 30) s /\ Number.lt s (Number.Finite 70))
  /\ (level = lit "LOW" <-> Number.lt s (Number.Finite 30) \/ s = Number.NaN).
Proof.
  cbv zeta. unfold Number.le, Number.lt.
  destruct (Number.leb (Number.Finite 70) s) eqn:E70.
  - assert (E30 : Number.leb (Number.Finite 30) s = true)
      by (apply (le_trans (Number.Finite 30) (Number.Finite 70) s);
          [reflexivity | exact E70]).
    assert (N70 : Number.ltb s (Number.Finite 70) = false)
      by (apply ltb_le_false; exact E70).
    assert (N30 : Number.ltb s (Number.Finite 30) = false)
      by (apply ltb_le_false; exact E30).
    rewrite E30, N70, N30.
    split; [tauto|]. split; (split; [discriminate|]).
    + intros [_ H]; discriminate H.
    + intros [H | H]; [discriminate H | subst s; discriminate E70].
  - destruct (Number.leb (Number.Finite 30) s) eqn:E30.
    + assert (L70 : Number.ltb s (Number.Finite 70) = true).
      { apply leb_false in E70.
        destruct E70 as [E | [E | E]];
          [discriminate E | subst s; discriminate E30 | exact E]. }
      assert (N30 : Number.ltb s (Number.Finite 30) = false)
        by (apply ltb_le_false; exact E30).
      rewrite L70, N30.
      split; [split; discriminate|]. split; [tauto|].
      split; [discriminate|].
      intros [H | H]; [discriminate H | subst s; discriminate E30].
    + split; [split; discriminate|].
      split; [split; [discriminate | intros [H _]; discriminate H]|].
      split; [intros _ | reflexivity].
      apply leb_false in E30.
      destruct E30 as [E | [E | E]];
        [discriminate E | right; exact E | left; exact E].
Qed.

Lemma level_names_distinct :
  lit "HIGH" <> lit "MEDIUM" /\ lit "HIGH" <> lit "LOW"
  /\ lit "MEDIUM" <> lit "LOW".
Proof. repeat split; discriminate. Qed.

Lemma findings_nonempty (analysis : AnalysisResult) :
  findings analysis <> [] <-> (0 <? length (findings analysis))%nat = true.
Proof.
  destruct (findings analysis); cbn; split; congruence.
Qed.

(** The products with 0 and 1 of [embeddedPresence * 20] are exact. *)
Lemma rawRiskScore_formula (analysis : AnalysisResult) :
  rawRiskScore analysis
  = Number.add
      (Number.add
         (Number.add
            (Number.mul (hiddenRatio analysis) (Number.Finite 2))
            (if (0 <? embeddedObjectCount (details analysis))%N
             then Number.Finite 20 else Number.Finite 0))
         (Number.mul (parseFloat (entropyScore (details analysis)))
            (Number.Finite 2)))
      (Number.mul (Number.of_N (metadata_score (breakdown analysis)))
         (Number.round (1 # 10))).
Proof.
  unfold rawRiskScore. cbv zeta.
  destruct (0 <? embeddedObjectCount (details analysis))%N; reflexivity.
Qed.

(** C1: the fallback scorer, in double arithmetic.  The raw score is
    [hiddenRatio*2 + (20 if embeddedObjectCount > 0) + entropy*2 +
    metadataScore*0.1]; 15 is added when there are findings and the raw
    score is below 10; the result is clamped to [0, 100] (a score that is
    not a number stays so); the level is HIGH from 70, MEDIUM from 30 up to
    70, LOW otherwise; the confidence is [min(80 + 5 * findingsCount, 99)]. *)
Theorem fallbackScore_spec (analysis : AnalysisResult) :
  let v := fallbackScore analysis in
  let raw :=
    Number.add
      (Number.add
         (Number.add
            (Number.mul (hiddenRatio analysis) (Number.Finite 2))
            (if (0 <? embeddedObjectCount (details analysis))%N
             then Number.Finite 20 else Number.Finite 0))
         (Number.mul (parseFloat (entropyScore (details analysis)))
            (Number.Finite 2)))
      (Number.mul (Number.of_N (metadata_score (breakdown analysis)))
         (Number.round (1 # 10))) in
  (exists adjusted,
      ((findings analysis <> [] /\ Number.lt raw (Number.Finite 10))
       /\ adjusted = Number.add raw (Number.Finite 15)
       \/ ~ (findings analysis <> [] /\ Number.lt raw (Number.Finite 10))
          /\ adjusted = raw)
      /\ ((adjusted = Number.NaN /\ riskScore v = Number.NaN)
          \/ (Number.lt adjusted (Number.Finite 0)
              /\ riskScore v = Number.Finite 0)
          \/ (Number.le (Number.Finite 0) adjusted
              /\ Number.lt adjusted (Number.Finite 100)
              /\ riskScore v = adjusted)
          \/ (Number.le (Number.Finite 100) adjusted
              /\ riskScore v = Number.Finite 100)))
  /\ (riskScore v = Number.NaN
      \/ (Number.le (Number.Finite 0) (riskScore v)
          /\ Number.le (riskScore v) (Number.Finite 100)))
  /\ (riskLevel v = lit "HIGH" <-> Number.le (Number.Finite 70) (riskScore v))
  /\ (riskLevel v = lit "MEDIUM"
      <-> Number.le (Number.Finite 30) (riskScore v)
          /\ Number.lt (riskScore v) (Number.Finite 70))
  /\ (riskLevel v = lit "LOW"
      <-> Number.lt (riskScore v) (Number.Finite 30)
          \/ riskScore v = Number.NaN)
  /\ confidence v
     = N.min (80 + 5 * N.of_nat (length (findings analysis))) 99.
Proof.
  intros v raw.
  assert (Hraw : rawRiskScore analysis = raw)
    by apply rawRiskScore_formula.
  set (adj := if (0 <? length (findings analysis))%nat
                 && Number.ltb (rawRiskScore analysis) (Number.Finite 10)
              then Number.add (rawRiskScore analysis) (Number.Finite 15)
              else rawRiskScore analysis).
  assert (Hscore : riskScore v
                   = Number.min (Number.max adj (Number.Finite 0))
                       (Number.Finite 100)) by reflexivity.
  split; [|split].
  - exists adj. split.
    + unfold adj. rewrite Hraw.
      destruct ((0 <? length (findings analysis))%nat
                && Number.ltb raw (Number.Finite 10)) eqn:E.
      * left. apply andb_true_iff in E. destruct E as [E1 E2].
        apply findings_nonempty in E1. repeat split; assumption.
      * right. split; [|reflexivity].
        intros [Hne Hlt]. apply findings_nonempty in Hne.
        unfold Number.lt in Hlt. rewrite Hne, Hlt in E. discriminate E.
    + rewrite Hscore. apply clamp_cases.
  - rewrite Hscore. apply clamp_range.
  - destruct (level_cases (riskScore v)) as (LH & LM & LL).
    split; [exact LH|]. split; [exact LM|]. split; [exact LL|].
    unfold v, fallbackScore. cbv [confidence].
    rewrite (N.mul_comm 5). reflexivity.
Qed.

(** The boundaries: a score of exactly 70 is HIGH, of exactly 30 MEDIUM. *)
Example fallbackScore_at_70 :
  let a := mkAnalysis 350 (Number.Finite 35) (mkBreakdown 0 0 0 0 350)
             [F_comments] (mkDetails 0 0 0 0 0) in
  riskScore (fallbackScore a) = Number.Finite 70
  /\ riskLevel (fallbackScore a) = lit "HIGH".
Proof. split; vm_compute; reflexivity. Qed.

Example fallbackScore_at_30 :
  let a := mkAnalysis 150 (Number.Finite 15) (mkBreakdown 0 0 0 0 150)
             [F_comments] (mkDetails 0 0 0 0 0) in
  riskScore (fallbackScore a) = Number.Finite 30
  /\ riskLevel (fallbackScore a) = lit "MEDIUM".
Proof. split; vm_compute; reflexivity. Qed.

(** Rounding decides at the thresholds.  With 497 hidden bytes of 10000,
    an entropy score of 0.03 and one finding the raw score is the double
    10, so nothing is added; with 580 hidden bytes of 4000, a metadata
    score of 10 and one finding the score is the double next below 30, and
    the level is LOW. *)
Example fallbackScore_rounding :
  let a := mkAnalysis 497 (ratio 497 10000) (mkBreakdown 0 0 0 0 497)
             [F_comments] (mkDetails (3 # 100) 0 0 0 0) in
  let b := mkAnalysis 580 (ratio 580 4000) (mkBreakdown 0 0 0 10 580)
             [F_comments] (mkDetails 0 0 0 0 0) in
  rawRiskScore a = Number.Finite 10
  /\ riskScore (fallbackScore a) = Number.Finite 10
  /\ Number.lt (riskScore (fallbackScore b)) (Number.Finite 30)
  /\ riskLevel (fallbackScore b) = lit "LOW".
Proof. repeat split; vm_compute; reflexivity. Qed.

(* ================================================================= *)
(** ** Oracle failures *)

(** When the request is rejected, when the response does not parse, and
    when it parses to [null], the fallback scorer decides. *)
Lemma aiResult_falls_back_on_throw (analysis : AnalysisResult) :
  aiResult analysis Rejected = verdict_json (fallbackScore analysis)
  /\ aiResult analysis Unparsable = verdict_json (fallbackScore analysis)
  /\ aiResult analysis (Parsed JNull) = verdict_json (fallbackScore analysis).
Proof. repeat split. Qed.

(** A response that carries a [riskScore] is taken as it is. *)
Lemma aiResult_uses_oracle (analysis : AnalysisResult) fields score :
  lookup (lit "riskScore") fields = Some score ->
  aiResult analysis (Parsed (JObj fields)) = JObj fields.
Proof. intros H. unfold aiResult, prop. rewrite H. reflexivity. Qed.

(** C3, at the oracle response [{}] (or an empty response text): nothing is
    thrown, the fallback scorer is not consulted, and the verdict is the
    fixed initial one (score 0, LOW, confidence 85) although the fallback
    scorer rates the same analysis 100, HIGH. *)
Theorem aiResult_missing_riskScore_keeps_default :
  aiResult saturated_analysis (Parsed (JObj [])) = defaultResult
  /\ prop (lit "riskScore") defaultResult
     = Some (Some (JNum (Number.Finite 0)))
  /\ prop (lit "riskLevel") defaultResult = Some (Some (JStr (lit "LOW")))
  /\ riskScore (fallbackScore saturated_analysis) = Number.Finite 100
  /\ riskLevel (fallbackScore saturated_analysis) = lit "HIGH"
  /\ aiResult saturated_analysis (Parsed (JObj []))
     <> verdict_json (fallbackScore saturated_analysis).
Proof.
  repeat split. intros H. vm_compute in H. discriminate H.
Qed.

(* ================================================================= *)
(** ** DOCX path: one entry at a time *)

Lemma docx_entry_delta (st : St.t) (e : entry) :
  docx_entry st e = apply_delta st (is_embedded e) (entry_delta e).
Proof.
  destruct st as [h ef c b m o r f fs].
  unfold docx_entry, check_metadata, check_document, check_comments,
    check_embedded, apply_delta, entry_delta, embedded_finding,
    comments_findings, document_findings, document_revisions, St.push.
  simpl.
  destruct (is_embedded e); simpl;
    destruct (includes F_embedded fs); simpl;
    destruct (jsstring_eqb (entryName e) (lit "word/comments.xml")); simpl;
    try destruct (500 <? jslength (getData e))%N; simpl;
    destruct (jsstring_eqb (entryName e) (lit "word/document.xml")); simpl;
    destruct (jsstring_eqb (entryName e) (lit "docProps/core.xml")
              || jsstring_eqb (entryName e) (lit "docProps/app.xml")); simpl;
    try destruct (str_includes (lit "creator") (getData e)
                  || str_includes (lit "lastModifiedBy") (getData e)); simpl;
    f_equal; try lia;
    repeat rewrite <- app_assoc; simpl; repeat rewrite app_nil_r;
    reflexivity.
Qed.

Ltac perm_by_count :=
  apply (Permutation_count_occ jsstring_eq_dec); intro;
  repeat rewrite count_occ_app;
  repeat match goal with
         | |- context [count_occ ?d (?a :: ?l) ?x] =>
             destruct (d a x);
             [ rewrite (@count_occ_cons_eq _ d l a x) by assumption
             | rewrite (@count_occ_cons_neq _ d l a x) by assumption ]
         end;
  simpl count_occ; first [lia | congruence].

(** No other finding text is the embedded-objects text: they differ at
    their third code unit. *)
Ltac third_differs :=
  let H := fresh in
  intro H; apply (f_equal (fun s : jsstring => nth 2 s 0%N)) in H;
  vm_compute in H; discriminate H.

Lemma F_embedded_distinct :
  F_comments <> F_embedded /\ F_vanish <> F_embedded
  /\ F_white <> F_embedded /\ F_metadata <> F_embedded
  /\ F_annots <> F_embedded /\ F_invisible <> F_embedded
  /\ (forall n, F_revisions n <> F_embedded)
  /\ (forall n, F_blocks n <> F_embedded).
Proof. repeat split; first [third_differs | intro n; third_differs]. Qed.

Lemma includes_app (x : jsstring) (a b : list jsstring) :
  includes x (a ++ b) = includes x a || includes x b.
Proof. apply existsb_app. Qed.

Lemma includes_not_In (x : jsstring) (arr : list jsstring) :
  ~ In x arr -> includes x arr = false.
Proof.
  intros H. destruct (includes x arr) eqn:E; [|reflexivity].
  apply includes_In in E. contradiction.
Qed.

Lemma includes_Permutation (x : jsstring) (a b : list jsstring) :
  Permutation a b -> includes x a = includes x b.
Proof.
  intros HP. destruct (includes x b) eqn:E.
  - apply includes_In. apply includes_In in E.
    apply Permutation_in with (l := b); [symmetry|]; assumption.
  - apply includes_not_In. intros HIn.
    apply (Permutation_in _ HP), includes_In in HIn. congruence.
Qed.

Lemma entry_delta_no_embedded (e : entry) :
  ~ In F_embedded (d_findings (entry_delta e)).
Proof.
  destruct F_embedded_distinct as (Hc & Hv & Hw & _ & _ & _ & Hr & _).
  unfold entry_delta, comments_findings, document_findings; simpl.
  intros H. apply in_app_or in H. destruct H as [H | H].
  - destruct (_ && _); simpl in H; intuition.
  - destruct (jsstring_eqb _ _); [|contradiction].
    repeat (apply in_app_or in H; destruct H as [H | H]).
    + destruct (0 <? _)%N; simpl in H; [|contradiction].
      destruct H as [H | []]. exact (Hr _ H).
    + destruct (matches vanishRegex _); simpl in H; intuition.
    + destruct (matches whiteRegex _); simpl in H; intuition.
Qed.

Lemma St_equiv_refl (st : St.t) : St_equiv st st.
Proof. unfold St_equiv. repeat split. apply Permutation_refl. Qed.

Lemma St_equiv_trans (a b c : St.t) :
  St_equiv a b -> St_equiv b c -> St_equiv a c.
Proof.
  unfold St_equiv. intros (?&?&?&?&?&?&?&?&HP1) (?&?&?&?&?&?&?&?&HP2).
  repeat split; try congruence.
  eapply Permutation_trans; eassumption.
Qed.

Lemma apply_delta_equiv (st st' : St.t) (is_emb : bool) (d : delta) :
  St_equiv st st' -> St_equiv (apply_delta st is_emb d) (apply_delta st' is_emb d).
Proof.
  unfold St_equiv, apply_delta; simpl.
  intros (?&?&?&?&?&?&?&?&HP).
  repeat split; try congruence.
  unfold embedded_finding. rewrite (includes_Permutation F_embedded _ _ HP).
  apply Permutation_app_tail. assumption.
Qed.

Lemma merge_blocks_comm (b : blocks) (x y : option blocks) :
  merge_blocks (merge_blocks b x) y = merge_blocks (merge_blocks b y) x.
Proof.
  destruct x as [x|], y as [y|]; simpl; try reflexivity.
  f_equal; try lia.
  rewrite <- !Rmax_assoc. f_equal. apply Rmax_comm.
Qed.

Lemma apply_delta_comm (st : St.t) (bx by' : bool) (dx dy : delta) :
  ~ In F_embedded (d_findings dx) -> ~ In F_embedded (d_findings dy) ->
  St_equiv (apply_delta (apply_delta st bx dx) by' dy)
           (apply_delta (apply_delta st by' dy) bx dx).
Proof.
  intros Hx Hy. unfold St_equiv, apply_delta; simpl.
  repeat split; try lia; try apply merge_blocks_comm.
  unfold embedded_finding. rewrite !includes_app.
  rewrite (includes_not_In _ _ Hx), (includes_not_In _ _ Hy).
  destruct bx, by', (includes F_embedded (St.findings st)); simpl;
    try (unfold includes; simpl; rewrite jsstring_eqb_refl; simpl).
  all: perm_by_count.
Qed.

(* ================================================================= *)
(** ** DOCX path: the order of the entries *)

Lemma docx_entry_equiv (st st' : St.t) (e : entry) :
  St_equiv st st' -> St_equiv (docx_entry st e) (docx_entry st' e).
Proof. rewrite !docx_entry_delta. apply apply_delta_equiv. Qed.

Lemma docx_entry_comm (st : St.t) (x y : entry) :
  St_equiv (docx_entry (docx_entry st x) y) (docx_entry (docx_entry st y) x).
Proof.
  rewrite !docx_entry_delta.
  apply apply_delta_comm; apply entry_delta_no_embedded.
Qed.

Lemma fold_docx_equiv (l : list entry) :
  forall st st', St_equiv st st' ->
    St_equiv (fold_left docx_entry l st) (fold_left docx_entry l st').
Proof.
  induction l as [|e l IH]; intros st st' H; simpl; [assumption|].
  apply IH, docx_entry_equiv, H.
Qed.

Lemma fold_docx_Permutation (l l' : list entry) :
  Permutation l l' ->
  forall st st', St_equiv st st' ->
    St_equiv (fold_left docx_entry l st) (fold_left docx_entry l' st').
Proof.
  induction 1 as [| e l l' _ IH | x y l | l l' l'' _ IH1 _ IH2];
    intros st st' H; simpl.
  - assumption.
  - apply IH, docx_entry_equiv, H.
  - apply fold_docx_equiv.
    eapply St_equiv_trans; [apply docx_entry_comm|].
    apply docx_entry_equiv, docx_entry_equiv, H.
  - eapply St_equiv_trans; [apply IH1, H | apply IH2, St_equiv_refl].
Qed.

Lemma docx_finish_equiv (st st' : St.t) :
  St_equiv st st' -> St_equiv (docx_finish st) (docx_finish st').
Proof.
  intros H. assert (H' := H). destruct H' as (?&?&?&Hb&?&?&?&?&HP).
  unfold docx_finish. rewrite Hb.
  destruct (0 <? count (St.base64Blocks st'))%N; [|assumption].
  unfold St_equiv, St.push; simpl. repeat split; try assumption.
  apply Permutation_app_tail. assumption.
Qed.

Lemma result_of_equiv (st st' : St.t) (fileSize : N) :
  St_equiv st st' ->
  same_up_to_findings_order (result_of st fileSize) (result_of st' fileSize).
Proof.
  intros (Hh & He & Hc & Hb & Hm & Ho & Hr & Hf & HP).
  unfold same_up_to_findings_order, result_of; simpl.
  rewrite Hh, He, Hc, Hb, Hm, Ho, Hr, Hf. repeat split. assumption.
Qed.

(** C7, as the code has it: processing the ZIP entries in another order
    yields the same [hiddenBytes], [hiddenRatio], breakdown and details,
    and the same findings up to their order in the list. *)
Theorem analyzeDocx_permutation (zipEntries zipEntries' : list entry)
    (fileSize : N) :
  Permutation zipEntries zipEntries' ->
  same_up_to_findings_order (analyzeDocx zipEntries fileSize)
    (analyzeDocx zipEntries' fileSize).
Proof.
  intros HP. unfold analyzeDocx.
  apply result_of_equiv, docx_finish_equiv.
  apply fold_docx_Permutation; [assumption | apply St_equiv_refl].
Qed.

Lemma analyzeDocx_permutation_witness :
  same_up_to_findings_order
    (analyzeDocx [comments_entry; media_entry] 10000)
    (analyzeDocx [media_entry; comments_entry] 10000).
Proof. apply analyzeDocx_permutation. apply perm_swap. Defined.

(** C7 as stated fails: with the comments part before the image the
    findings list starts with the comments finding, with the image first
    it starts with the embedded-objects finding. *)
Lemma analyzeDocx_findings_order_dependent :
  Permutation [comments_entry; media_entry] [media_entry; comments_entry]
  /\ findings (analyzeDocx [comments_entry; media_entry] 10000)
     = [F_comments; F_embedded]
  /\ findings (analyzeDocx [media_entry; comments_entry] 10000)
     = [F_embedded; F_comments]
  /\ analyzeDocx [comments_entry; media_entry] 10000
     <> analyzeDocx [media_entry; comments_entry] 10000.
Proof.
  split; [apply perm_swap|].
  assert (H1 : findings (analyzeDocx [comments_entry; media_entry] 10000)
               = [F_comments; F_embedded]) by (vm_compute; reflexivity).
  assert (H2 : findings (analyzeDocx [media_entry; comments_entry] 10000)
               = [F_embedded; F_comments]) by (vm_compute; reflexivity).
  repeat split; try assumption.
  intros H. apply (f_equal findings) in H. rewrite H1, H2 in H.
  vm_compute in H. discriminate H.
Qed.

(* ================================================================= *)
(** ** DOCX path: the embedded-objects finding *)

Lemma embedded_count_step (st : St.t) (e : entry) :
  embedded_count (St.findings (docx_entry st e))
  = if is_embedded e && negb (includes F_embedded (St.findings st))
    then S (embedded_count (St.findings st))
    else embedded_count (St.findings st).
Proof.
  rewrite docx_entry_delta. unfold apply_delta, embedded_count.
  cbn [St.findings]. rewrite !count_occ_app.
  assert (H0 : count_occ jsstring_eq_dec (d_findings (entry_delta e))
                 F_embedded = 0%nat).
  { apply count_occ_not_In, entry_delta_no_embedded. }
  rewrite H0. unfold embedded_finding.
  destruct (is_embedded e && negb (includes F_embedded (St.findings st)));
    simpl.
  - destruct (jsstring_eq_dec F_embedded F_embedded); [lia | congruence].
  - lia.
Qed.

Lemma fold_docx_embedded_once (l : list entry) :
  forall st, (embedded_count (St.findings st) <= 1)%nat ->
    (embedded_count (St.findings (fold_left docx_entry l st)) <= 1)%nat.
Proof.
  induction l as [|e l IH]; intros st H; simpl; [assumption|].
  apply IH. rewrite embedded_count_step.
  destruct (is_embedded e && negb (includes F_embedded (St.findings st)))
    eqn:E; [|assumption].
  apply andb_true_iff in E. destruct E as [_ E].
  apply negb_true_iff in E.
  assert (H0 : embedded_count (St.findings st) = 0%nat).
  { apply count_occ_not_In. intros HIn.
    apply includes_In in HIn. congruence. }
  lia.
Qed.

Lemma fold_docx_embedded_found (l : list entry) :
  forall st, existsb is_embedded l = true \/ In F_embedded (St.findings st) ->
    In F_embedded (St.findings (fold_left docx_entry l st)).
Proof.
  induction l as [|e l IH]; intros st H; simpl in *.
  - destruct H; [discriminate | assumption].
  - apply IH. rewrite docx_entry_delta. unfold apply_delta; simpl.
    destruct (In_dec jsstring_eq_dec F_embedded (St.findings st)) as [HIn | HIn].
    + right. apply in_or_app. left. assumption.
    + destruct H as [H | H]; [|contradiction].
      apply orb_true_iff in H. destruct H as [H | H]; [|left; assumption].
      right. apply in_or_app. right. apply in_or_app. left.
      unfold embedded_finding.
      rewrite H, (includes_not_In _ _ HIn). simpl. left. reflexivity.
Qed.

Lemma fold_docx_no_embedded (l : list entry) :
  existsb is_embedded l = false ->
  forall st,
    let st' := fold_left docx_entry l st in
    St.embeddedFileSize st' = St.embeddedFileSize st
    /\ St.embeddedObjectCount st' = St.embeddedObjectCount st
    /\ (In F_embedded (St.findings st') -> In F_embedded (St.findings st)).
Proof.
  induction l as [|e l IH]; intros Hl st; simpl in *.
  - tauto.
  - apply orb_false_iff in Hl. destruct Hl as [He Hl].
    destruct (IH Hl (docx_entry st e)) as (H1 & H2 & H3).
    rewrite H1, H2. rewrite docx_entry_delta in *.
    unfold apply_delta, entry_delta, embedded_finding in *; simpl in *.
    rewrite He in *; simpl in *.
    repeat split; try lia.
    intros HIn. apply H3 in HIn. apply in_app_or in HIn.
    destruct HIn as [HIn | HIn]; [assumption|].
    exfalso. apply (entry_delta_no_embedded e). exact HIn.
Qed.

Lemma docx_finish_embedded (st : St.t) :
  St.embeddedFileSize (docx_finish st) = St.embeddedFileSize st
  /\ St.embeddedObjectCount (docx_finish st) = St.embeddedObjectCount st
  /\ embedded_count (St.findings (docx_finish st))
     = embedded_count (St.findings st).
Proof.
  unfold docx_finish.
  destruct (0 <? count (St.base64Blocks st))%N; [|tauto].
  destruct F_embedded_distinct as (_ & _ & _ & _ & _ & _ & _ & Hb).
  unfold St.push, embedded_count. cbn [St.findings St.embeddedFileSize
    St.embeddedObjectCount]. repeat split.
  rewrite count_occ_app, count_occ_cons_neq by apply Hb.
  simpl. lia.
Qed.

(** C8: in a DOCX scan the embedded-objects finding occurs at most once,
    exactly once when some entry lies under [word/embeddings/] or
    [word/media/], and a package without such entries yields
    [embedded_files = 0], [embeddedObjectCount = 0] and no such finding. *)
Theorem analyzeDocx_embedded_finding (zipEntries : list entry) (fileSize : N) :
  let a := analyzeDocx zipEntries fileSize in
  (count_occ jsstring_eq_dec (findings a) F_embedded <= 1)%nat
  /\ (existsb is_embedded zipEntries = true ->
      count_occ jsstring_eq_dec (findings a) F_embedded = 1%nat)
  /\ (existsb is_embedded zipEntries = false ->
      embedded_files (breakdown a) = 0%N
      /\ embeddedObjectCount (details a) = 0%N
      /\ ~ In F_embedded (findings a)).
Proof.
  unfold analyzeDocx, result_of; simpl.
  destruct (docx_finish_embedded (fold_left docx_entry zipEntries St.init))
    as (H1 & H2 & H3).
  rewrite H1, H2. fold (embedded_count (St.findings (docx_finish
    (fold_left docx_entry zipEntries St.init)))). rewrite H3.
  assert (Hle := fold_docx_embedded_once zipEntries St.init (Nat.le_0_l 1)).
  split; [exact Hle|]. split.
  - intros Hex.
    assert (HIn := fold_docx_embedded_found zipEntries St.init (or_introl Hex)).
    apply (count_occ_In jsstring_eq_dec) in HIn.
    unfold embedded_count in *. lia.
  - intros Hno.
    destruct (fold_docx_no_embedded zipEntries Hno St.init) as (E1 & E2 & E3).
    rewrite E1, E2. repeat split.
    intros HIn. unfold embedded_count in H3.
    apply (count_occ_In jsstring_eq_dec) in HIn. rewrite H3 in HIn.
    apply (count_occ_In jsstring_eq_dec) in HIn. apply E3 in HIn.
    exact HIn.
Qed.

Lemma analyzeDocx_embedded_finding_witness :
  existsb is_embedded [media_entry; comments_entry; media_entry] = true
  /\ count_occ jsstring_eq_dec
       (findings (analyzeDocx [media_entry; comments_entry; media_entry] 10000))
       F_embedded = 1%nat
  /\ existsb is_embedded [comments_entry] = false
  /\ embedded_files (breakdown (analyzeDocx [comments_entry] 10000)) = 0%N.
Proof.
  split; [reflexivity|]. split.
  - apply (analyzeDocx_embedded_finding
             [media_entry; comments_entry; media_entry] 10000).
    reflexivity.
  - split; [reflexivity|].
    apply (analyzeDocx_embedded_finding [comments_entry] 10000).
    reflexivity.
Defined.

(* ================================================================= *)
(** ** The regular-expression engine *)

Section EndsSound.
Variable P : char -> Prop.

Lemma splits_refl s : splits_within P s s.
Proof. exists []. split; [reflexivity | constructor]. Qed.

Lemma splits_trans s1 s2 s3 : splits_within P s1 s2 -> splits_within P s2 s3 -> splits_within P s1 s3.
Proof.
  intros (m1 & -> & H1) (m2 & -> & H2). exists (m1 ++ m2).
  split; [apply app_assoc | apply Forall_app; split; assumption].
Qed.

Lemma star_loop_sound g (body : jsstring -> list jsstring) :
  (forall s s', In s' (body s) -> splits_within P s s') ->
  forall fuel s s', In s' (star_loop g body fuel s) -> splits_within P s s'.
Proof.
  intros Hbody. induction fuel as [|fuel IH]; intros s s' HIn; simpl in HIn.
  - destruct HIn as [<- | []]. apply splits_refl.
  - assert (Hmore : In s' (star_more (star_loop g body fuel) s (body s))
                    -> splits_within P s s').
    { unfold star_more. intros H. apply in_flat_map in H.
      destruct H as (s1 & H1 & H2).
      destruct (length s1 <? length s)%nat; [|contradiction].
      eapply splits_trans; [apply Hbody, H1 | apply IH, H2]. }
    destruct g.
    + apply in_app_or in HIn. destruct HIn as [H | [<- | []]];
        [apply Hmore, H | apply splits_refl].
    + destruct HIn as [<- | H]; [apply splits_refl | apply Hmore, H].
Qed.

Lemma ends_sound r :
  classes_within P r ->
  forall s s', In s' (ends r s) -> splits_within P s s'.
Proof.
  induction r as [| p | r1 IH1 r2 IH2 | r1 IH1 r2 IH2 | g r IH];
    simpl; intros Hc s s' HIn.
  - destruct HIn as [<- | []]. apply splits_refl.
  - destruct s as [|c s]; [contradiction|].
    destruct (p c) eqn:E; [|contradiction].
    destruct HIn as [<- | []]. exists [c].
    split; [reflexivity | constructor; [apply Hc, E | constructor]].
  - destruct Hc as [Hc1 Hc2]. apply in_flat_map in HIn.
    destruct HIn as (s1 & H1 & H2).
    eapply splits_trans; [apply (IH1 Hc1), H1 | apply (IH2 Hc2), H2].
  - destruct Hc as [Hc1 Hc2]. apply in_app_or in HIn.
    destruct HIn as [H | H]; [apply (IH1 Hc1), H | apply (IH2 Hc2), H].
  - eapply star_loop_sound; [apply (IH Hc) | exact HIn].
Qed.

Lemma match_here_sound r s m rest :
  classes_within P r ->
  match_here r s = Some (m, rest) -> s = m ++ rest /\ Forall P m.
Proof.
  unfold match_here. intros Hc H.
  destruct (ends r s) as [|rest' l] eqn:E; [discriminate|].
  injection H as <- <-.
  destruct (ends_sound r Hc s rest') as (m & Hs & Hm).
  { rewrite E. left. reflexivity. }
  assert (Hf : firstn (length s - length rest') s = m).
  { rewrite Hs at 2. rewrite Hs at 1. rewrite length_app.
    replace (length m + length rest' - length rest')%nat
      with (length m + 0)%nat by lia.
    rewrite firstn_app_2. simpl. apply app_nil_r. }
  rewrite Hf. split; assumption.
Qed.

Lemma scan_sound r :
  classes_within P r ->
  forall fuel s, Forall (Forall P) (scan fuel r s).
Proof.
  intros Hc. induction fuel as [|fuel IH]; intros s; simpl; [constructor|].
  destruct (match_here r s) as [[m rest]|] eqn:E.
  - constructor.
    + apply (match_here_sound r s _ _ Hc E).
    + destruct m; [destruct rest; [constructor|]|]; apply IH.
  - destruct s; [constructor | apply IH].
Qed.
End EndsSound.

(* ================================================================= *)
(** ** Literal markers *)

Lemma startsWith_split (p s : jsstring) :
  startsWith p s = true -> s = p ++ skipn (length p) s.
Proof.
  revert s; induction p as [|c p IH]; intros s H; simpl in *; [reflexivity|].
  destruct s as [|x s]; [discriminate|].
  apply andb_true_iff in H. destruct H as [Hc Hp].
  apply N.eqb_eq in Hc. subst x. simpl. f_equal. apply IH, Hp.
Qed.

Lemma startsWith_app (p rest : jsstring) : startsWith p (p ++ rest) = true.
Proof.
  induction p as [|c p IH]; simpl; [reflexivity|].
  rewrite N.eqb_refl. exact IH.
Qed.

Lemma ends_Lit (p s : jsstring) :
  ends (Lit p) s = if startsWith p s then [skipn (length p) s] else [].
Proof.
  revert s; induction p as [|c p IH]; intros s; simpl; [reflexivity|].
  destruct s as [|x s]; simpl; [reflexivity|].
  destruct (N.eqb c x); simpl; [|reflexivity].
  rewrite app_nil_r. apply IH.
Qed.

Lemma firstn_of_split (p s : jsstring) :
  startsWith p s = true ->
  firstn (length s - length (skipn (length p) s)) s = p.
Proof.
  intros H. apply startsWith_split in H.
  set (rest := skipn (length p) s) in *. rewrite H.
  rewrite length_app.
  replace (length p + length rest - length rest)%nat
    with (length p + 0)%nat by lia.
  rewrite firstn_app_2. simpl. apply app_nil_r.
Qed.

Lemma Lit_matches_markers (p : jsstring) : matches_markers (Lit p) [p].
Proof.
  intros s. unfold match_here, first_marker. rewrite ends_Lit. simpl.
  destruct (startsWith p s) eqn:E; [|reflexivity].
  rewrite (firstn_of_split _ _ E). reflexivity.
Qed.

Lemma Alt_Lit_matches_markers (p q : jsstring) :
  matches_markers (Alt (Lit p) (Lit q)) [p; q].
Proof.
  intros s. unfold match_here, first_marker. simpl. rewrite !ends_Lit.
  destruct (startsWith p s) eqn:Ep; simpl.
  - rewrite (firstn_of_split _ _ Ep). reflexivity.
  - destruct (startsWith q s) eqn:Eq; [|reflexivity].
    rewrite (firstn_of_split _ _ Eq). reflexivity.
Qed.

Section Markers.
Variable c0 : char.
Variable markers : list jsstring.
Hypothesis markers_headed : Forall (headed c0) markers.

Lemma no_marker_at (c : char) (s : jsstring) :
  c <> c0 -> existsb (fun p => startsWith p (c :: s)) markers = false.
Proof.
  intros Hc. induction markers_headed as [|p l (tl & -> & _) Hl IH]; simpl;
    [reflexivity|].
  rewrite IH by exact Hl.
  destruct (N.eqb_spec c0 c); [congruence | reflexivity].
Qed.

Lemma occurrences_skip (t rest : jsstring) :
  ~ In c0 t -> occurrences markers (t ++ rest) = occurrences markers rest.
Proof.
  induction t as [|c t IH]; intros Hc; simpl; [reflexivity|].
  rewrite no_marker_at by (intros ->; apply Hc; left; reflexivity).
  apply IH. intros HIn. apply Hc. right. assumption.
Qed.

Lemma occurrences_marker (p rest : jsstring) :
  In p markers ->
  occurrences markers (p ++ rest) = S (occurrences markers rest).
Proof.
  intros HIn.
  assert (Hp : headed c0 p).
  { rewrite Forall_forall in markers_headed. apply markers_headed, HIn. }
  destruct Hp as (tl & -> & Htl). simpl.
  replace (existsb _ markers) with true.
  - rewrite occurrences_skip by assumption. reflexivity.
  - symmetry. apply existsb_exists. exists (c0 :: tl). split; [assumption|].
    apply (startsWith_app (c0 :: tl) rest).
Qed.

Lemma scan_occurrences (r : regex) :
  matches_markers r markers ->
  forall fuel s, (length s < fuel)%nat ->
    length (scan fuel r s) = occurrences markers s.
Proof.
  intros Hr. induction fuel as [|fuel IH]; intros s Hlen; [lia|].
  simpl. rewrite Hr. unfold first_marker.
  destruct (find _ markers) as [p|] eqn:E.
  - apply find_some in E. destruct E as [HIn Hp].
    assert (Hs := startsWith_split _ _ Hp).
    set (rest := skipn (length p) s) in *.
    assert (Hh : headed c0 p).
    { rewrite Forall_forall in markers_headed. apply markers_headed, HIn. }
    destruct Hh as (tl & -> & _). simpl length at 1.
    rewrite IH by (rewrite Hs in Hlen; simpl in Hlen;
                   rewrite length_app in Hlen; lia).
    rewrite Hs. symmetry. apply occurrences_marker, HIn.
  - destruct s as [|x s]; [reflexivity|]. simpl occurrences.
    replace (existsb _ markers) with false.
    + apply IH. simpl in Hlen. lia.
    + symmetry. destruct (existsb _ markers) eqn:Ex; [|reflexivity].
      apply existsb_exists in Ex. destruct Ex as (p & HIn & Hp).
      exfalso. exact (eq_true_false_abs _ Hp (find_none _ _ E p HIn)).
Qed.
End Markers.

Lemma match_count_occurrences (c0 : char) (markers : list jsstring)
    (r : regex) (s : jsstring) :
  Forall (headed c0) markers -> matches_markers r markers ->
  length (matches r s) = occurrences markers s.
Proof.
  intros Hh Hr. unfold matches.
  apply (scan_occurrences c0 markers Hh r Hr). lia.
Qed.

(* ================================================================= *)
(** ** PDF path *)

Ltac headed_marker :=
  eexists; split; [reflexivity |];
  let H := fresh in
  intro H; vm_compute in H;
  repeat (destruct H as [H | H]; [discriminate H |]); exact H.

Lemma embedded_markers_headed : Forall (headed (code "/")) embedded_markers.
Proof. repeat constructor; headed_marker. Qed.

Lemma annot_markers_headed : Forall (headed (code "/")) annot_markers.
Proof. repeat constructor; headed_marker. Qed.

Lemma tr_markers_headed : Forall (headed (code "3")) tr_markers.
Proof. repeat constructor; headed_marker. Qed.

Lemma embedded_matches_occurrences (rawString : jsstring) :
  length (matches embeddedRegex rawString)
  = occurrences embedded_markers rawString.
Proof.
  apply (match_count_occurrences _ _ _ rawString embedded_markers_headed).
  apply Alt_Lit_matches_markers.
Qed.

Lemma annot_matches_occurrences (rawString : jsstring) :
  length (matches annotRegex rawString) = occurrences annot_markers rawString.
Proof.
  apply (match_count_occurrences _ _ _ rawString annot_markers_headed).
  apply Lit_matches_markers.
Qed.

Lemma tr_matches_occurrences (rawString : jsstring) :
  length (matches trRegex rawString) = occurrences tr_markers rawString.
Proof.
  apply (match_count_occurrences _ _ _ rawString tr_markers_headed).
  apply Lit_matches_markers.
Qed.

Lemma count_embedded_push (f : jsstring) (st : St.t) :
  embedded_count (St.findings (St.push f st))
  = (embedded_count (St.findings st)
     + if jsstring_eqb f F_embedded then 1 else 0)%nat.
Proof.
  unfold St.push, embedded_count. cbn [St.findings].
  rewrite count_occ_app. f_equal.
  destruct (jsstring_eqb f F_embedded) eqn:E.
  - apply jsstring_eqb_eq in E. apply count_occ_cons_eq. assumption.
  - apply count_occ_cons_neq. intros H.
    apply jsstring_eqb_eq in H. congruence.
Qed.

Lemma not_embedded (f : jsstring) :
  f <> F_embedded -> jsstring_eqb f F_embedded = false.
Proof.
  intros H. destruct (jsstring_eqb f F_embedded) eqn:E; [|reflexivity].
  apply jsstring_eqb_eq in E. contradiction.
Qed.

(** What one step of [analyzePdf] does to the accumulators the claims are
    about; [touched] tells whether the step sets the byte estimates. *)
Definition pdf_step_keeps (st st' : St.t) : Prop :=
  St.base64Blocks st' = St.base64Blocks st
  /\ St.revisionHistoryCount st' = St.revisionHistoryCount st.

Lemma pdf_blocks_spec (data : pdf_data) (st : St.t) :
  let st' := pdf_blocks data st in
  St.base64Blocks st' = findBase64Blocks (text data)
  /\ St.revisionHistoryCount st' = St.revisionHistoryCount st
  /\ St.hiddenTextSize st' = St.hiddenTextSize st
  /\ St.embeddedFileSize st' = St.embeddedFileSize st
  /\ St.commentsSize st' = St.commentsSize st
  /\ St.embeddedObjectCount st' = St.embeddedObjectCount st
  /\ embedded_count (St.findings st') = embedded_count (St.findings st).
Proof.
  destruct F_embedded_distinct as (_ & _ & _ & _ & _ & _ & _ & Hb).
  unfold pdf_blocks. cbv zeta.
  destruct (0 <? count (findBase64Blocks (text data)))%N;
    rewrite ?count_embedded_push, ?(not_embedded _ (Hb _));
    cbn [St.push St.base64Blocks St.revisionHistoryCount St.hiddenTextSize
         St.embeddedFileSize St.commentsSize St.embeddedObjectCount
         St.findings];
    repeat split; lia.
Qed.

Lemma pdf_metadata_spec (data : pdf_data) (st : St.t) :
  let st' := pdf_metadata data st in
  pdf_step_keeps st st'
  /\ St.hiddenTextSize st' = St.hiddenTextSize st
  /\ St.embeddedFileSize st' = St.embeddedFileSize st
  /\ St.commentsSize st' = St.commentsSize st
  /\ St.embeddedObjectCount st' = St.embeddedObjectCount st
  /\ embedded_count (St.findings st') = embedded_count (St.findings st).
Proof.
  destruct F_embedded_distinct as (_ & _ & _ & Hm & _).
  unfold pdf_metadata, pdf_step_keeps. cbv zeta.
  destruct (10 <? St.metadataFieldsExtracted st)%N;
    cbn [St.base64Blocks St.revisionHistoryCount St.hiddenTextSize
         St.embeddedFileSize St.commentsSize St.embeddedObjectCount
         St.findings];
    rewrite ?count_embedded_push, ?(not_embedded _ Hm);
    cbn [St.push St.base64Blocks St.revisionHistoryCount St.hiddenTextSize
         St.embeddedFileSize St.commentsSize St.embeddedObjectCount
         St.findings];
    repeat split; lia.
Qed.

Lemma pdf_embedded_spec (rawString : jsstring) (st : St.t) :
  let st' := pdf_embedded rawString st in
  let n := length (matches embeddedRegex rawString) in
  pdf_step_keeps st st'
  /\ St.hiddenTextSize st' = St.hiddenTextSize st
  /\ St.commentsSize st' = St.commentsSize st
  /\ (St.embeddedFileSize st = 0%N ->
      St.embeddedFileSize st' = (N.of_nat n * 1024)%N)
  /\ (St.embeddedObjectCount st = 0%N ->
      St.embeddedObjectCount st' = N.of_nat n)
  /\ embedded_count (St.findings st')
     = (embedded_count (St.findings st) + if (n =? 0)%nat then 0 else 1)%nat.
Proof.
  unfold pdf_embedded, pdf_step_keeps. cbv zeta.
  destruct (matches embeddedRegex rawString) as [|m ms].
  - simpl. repeat split; intros; lia.
  - rewrite count_embedded_push, jsstring_eqb_refl.
    cbn [St.push St.base64Blocks St.revisionHistoryCount St.hiddenTextSize
         St.embeddedFileSize St.commentsSize St.embeddedObjectCount
         St.findings].
    repeat split; reflexivity.
Qed.

Lemma pdf_annots_spec (rawString : jsstring) (st : St.t) :
  let st' := pdf_annots rawString st in
  pdf_step_keeps st st'
  /\ St.hiddenTextSize st' = St.hiddenTextSize st
  /\ St.embeddedFileSize st' = St.embeddedFileSize st
  /\ St.embeddedObjectCount st' = St.embeddedObjectCount st
  /\ (St.commentsSize st = 0%N ->
      St.commentsSize st'
      = (N.of_nat (length (matches annotRegex rawString)) * 256)%N)
  /\ embedded_count (St.findings st') = embedded_count (St.findings st).
Proof.
  destruct F_embedded_distinct as (_ & _ & _ & _ & Ha & _).
  unfold pdf_annots, pdf_step_keeps.
  destruct (matches annotRegex rawString) as [|m ms].
  - simpl. repeat split; intros; lia.
  - rewrite count_embedded_push, (not_embedded _ Ha).
    cbn [St.push St.base64Blocks St.revisionHistoryCount St.hiddenTextSize
         St.embeddedFileSize St.commentsSize St.embeddedObjectCount
         St.findings].
    repeat split; lia.
Qed.

Lemma pdf_invisible_spec (rawString : jsstring) (st : St.t) :
  let st' := pdf_invisible rawString st in
  pdf_step_keeps st st'
  /\ St.embeddedFileSize st' = St.embeddedFileSize st
  /\ St.embeddedObjectCount st' = St.embeddedObjectCount st
  /\ St.commentsSize st' = St.commentsSize st
  /\ (St.hiddenTextSize st = 0%N ->
      St.hiddenTextSize st'
      = (N.of_nat (length (matches trRegex rawString)) * 50)%N)
  /\ embedded_count (St.findings st') = embedded_count (St.findings st).
Proof.
  destruct F_embedded_distinct as (_ & _ & _ & _ & _ & Hi & _).
  unfold pdf_invisible, pdf_step_keeps.
  destruct (matches trRegex rawString) as [|m ms].
  - simpl. repeat split; intros; lia.
  - rewrite count_embedded_push, (not_embedded _ Hi).
    cbn [St.push St.base64Blocks St.revisionHistoryCount St.hiddenTextSize
         St.embeddedFileSize St.commentsSize St.embeddedObjectCount
         St.findings].
    repeat split; lia.
Qed.

(** The accumulators at the end of [analyzePdf]. *)
Definition pdf_final (rawString : jsstring) (data : pdf_data) : St.t :=
  pdf_invisible rawString
    (pdf_annots rawString
       (pdf_embedded rawString
          (pdf_metadata data
             (pdf_blocks data
                (St.mk 0 0 0 no_blocks 0 0 0
                   (match info data with
                    | Some obj => N.of_nat (length obj)
                    | None => 0%N
                    end) []))))).

Lemma analyzePdf_final (rawString : jsstring) (data : pdf_data) (fileSize : N) :
  analyzePdf rawString data fileSize
  = result_of (pdf_final rawString data) fileSize.
Proof. reflexivity. Qed.

Lemma pdf_final_spec (rawString : jsstring) (data : pdf_data) :
  let st := pdf_final rawString data in
  let ne := length (matches embeddedRegex rawString) in
  St.base64Blocks st = findBase64Blocks (text data)
  /\ St.revisionHistoryCount st = 0%N
  /\ St.embeddedFileSize st = (N.of_nat ne * 1024)%N
  /\ St.embeddedObjectCount st = N.of_nat ne
  /\ St.commentsSize st
     = (N.of_nat (length (matches annotRegex rawString)) * 256)%N
  /\ St.hiddenTextSize st
     = (N.of_nat (length (matches trRegex rawString)) * 50)%N
  /\ embedded_count (St.findings st) = (if (ne =? 0)%nat then 0 else 1)%nat.
Proof.
  unfold pdf_final.
  set (st0 := St.mk _ _ _ _ _ _ _ _ _).
  assert (H0 : St.revisionHistoryCount st0 = 0%N
               /\ St.hiddenTextSize st0 = 0%N
               /\ St.embeddedFileSize st0 = 0%N
               /\ St.commentsSize st0 = 0%N
               /\ St.embeddedObjectCount st0 = 0%N
               /\ embedded_count (St.findings st0) = 0%nat)
    by (repeat split).
  clearbody st0. destruct H0 as (R0 & T0 & E0 & C0 & O0 & F0).
  destruct (pdf_blocks_spec data st0) as (B1 & R1 & T1 & E1 & C1 & O1 & F1).
  set (st1 := pdf_blocks data st0) in *. clearbody st1.
  destruct (pdf_metadata_spec data st1)
    as ((B2 & R2) & T2 & E2 & C2 & O2 & F2).
  set (st2 := pdf_metadata data st1) in *. clearbody st2.
  destruct (pdf_embedded_spec rawString st2)
    as ((B3 & R3) & T3 & C3 & E3 & O3 & F3).
  set (st3 := pdf_embedded rawString st2) in *. clearbody st3.
  destruct (pdf_annots_spec rawString st3)
    as ((B4 & R4) & T4 & E4 & O4 & C4 & F4).
  set (st4 := pdf_annots rawString st3) in *. clearbody st4.
  destruct (pdf_invisible_spec rawString st4)
    as ((B5 & R5) & E5 & O5 & C5 & T5 & F5).
  set (st5 := pdf_invisible rawString st4) in *. clearbody st5.
  cbv zeta. repeat split.
  - congruence.
  - congruence.
  - rewrite E5, E4. apply E3. congruence.
  - rewrite O5, O4. apply O3. congruence.
  - rewrite C5. apply C4. congruence.
  - apply T5. congruence.
  - rewrite F5, F4, F3, F2, F1, F0. reflexivity.
Qed.

(** C10: a PDF scan reports [revisionHistoryCount = 0]. *)
Theorem analyzePdf_no_revisions (rawString : jsstring) (data : pdf_data)
    (fileSize : N) :
  revisionHistoryCount (details (analyzePdf rawString data fileSize)) = 0%N.
Proof.
  rewrite analyzePdf_final. unfold result_of.
  cbn [details revisionHistoryCount].
  apply (pdf_final_spec rawString data).
Qed.

(** The fields of a PDF scan in terms of the regex matches on the buffer. *)
Lemma analyzePdf_by_matches (rawString : jsstring) (data : pdf_data)
    (fileSize : N) :
  let a := analyzePdf rawString data fileSize in
  let ne := length (matches embeddedRegex rawString) in
  embedded_files (breakdown a) = (N.of_nat ne * 1024)%N
  /\ embeddedObjectCount (details a) = N.of_nat ne
  /\ comments_size (breakdown a)
     = (N.of_nat (length (matches annotRegex rawString)) * 256)%N
  /\ hidden_text (breakdown a)
     = (N.of_nat (length (matches trRegex rawString)) * 50)%N
  /\ embedded_count (findings a) = (if (ne =? 0)%nat then 0 else 1)%nat.
Proof.
  rewrite analyzePdf_final. unfold result_of.
  cbn [embedded_files embeddedObjectCount comments_size hidden_text
       breakdown details findings].
  destruct (pdf_final_spec rawString data) as (_ & _ & E & O & C & T & F).
  repeat split; assumption.
Qed.

(** C6: in a PDF scan every occurrence of [/EmbeddedFiles] or [/Names] in
    the raw bytes counts 1024 bytes of embedded files, every occurrence of
    [/Annots] 256 bytes of comments, every occurrence of [3 Tr] 50 bytes of
    hidden text; the embedded-objects finding is reported once when there
    is an occurrence; with exactly three embedded-file markers and no other
    marker the scan reports 3072 bytes, 3 objects and that finding once. *)
Theorem analyzePdf_marker_estimates (rawString : jsstring) (data : pdf_data)
    (fileSize : N) :
  let a := analyzePdf rawString data fileSize in
  let ne := occurrences embedded_markers rawString in
  embedded_files (breakdown a) = (1024 * N.of_nat ne)%N
  /\ embeddedObjectCount (details a) = N.of_nat ne
  /\ comments_size (breakdown a)
     = (256 * N.of_nat (occurrences annot_markers rawString))%N
  /\ hidden_text (breakdown a)
     = (50 * N.of_nat (occurrences tr_markers rawString))%N
  /\ count_occ jsstring_eq_dec (findings a) F_embedded
     = (if (ne =? 0)%nat then 0 else 1)%nat
  /\ (ne = 3%nat ->
      occurrences annot_markers rawString = 0%nat ->
      occurrences tr_markers rawString = 0%nat ->
      embedded_files (breakdown a) = 3072%N
      /\ embeddedObjectCount (details a) = 3%N
      /\ comments_size (breakdown a) = 0%N
      /\ hidden_text (breakdown a) = 0%N
      /\ count_occ jsstring_eq_dec (findings a) F_embedded = 1%nat).
Proof.
  intros a ne.
  destruct (analyzePdf_by_matches rawString data fileSize)
    as (H1 & H2 & H3 & H4 & H5).
  rewrite embedded_matches_occurrences in H1, H2, H5.
  rewrite annot_matches_occurrences in H3.
  rewrite tr_matches_occurrences in H4.
  fold a in H1, H2, H3, H4, H5. fold ne in H1, H2, H5.
  unfold embedded_count in H5.
  rewrite N.mul_comm in H1, H3, H4.
  repeat split; try assumption.
  - rewrite H1, H. reflexivity.
  - rewrite H2, H. reflexivity.
  - rewrite H3, H0. reflexivity.
  - rewrite H4, H6. reflexivity.
  - rewrite H5, H. reflexivity.
Qed.

Lemma analyzePdf_marker_estimates_witness :
  occurrences embedded_markers three_markers_pdf = 3%nat
  /\ embedded_files (breakdown (analyzePdf three_markers_pdf no_text 4096))
     = 3072%N
  /\ count_occ jsstring_eq_dec
       (findings (analyzePdf three_markers_pdf no_text 4096)) F_embedded
     = 1%nat.
Proof.
  split; [reflexivity|].
  destruct (analyzePdf_marker_estimates three_markers_pdf no_text 4096)
    as (_ & _ & _ & _ & _ & H).
  destruct H as (H1 & _ & _ & _ & H5); [reflexivity ..|].
  split; assumption.
Defined.

(* ================================================================= *)
(** ** Entropy estimator *)

Lemma keys_bump (c d : char) (fr : list (char * nat)) :
  In d (keys (bump c fr)) <-> d = c \/ In d (keys fr).
Proof.
  induction fr as [|[k n] fr IH]; simpl.
  - intuition.
  - destruct (N.eqb_spec c k) as [-> | Hne]; simpl; [intuition|].
    rewrite IH. intuition.
Qed.

Lemma NoDup_bump (c : char) (fr : list (char * nat)) :
  NoDup (keys fr) -> NoDup (keys (bump c fr)).
Proof.
  induction fr as [|[k n] fr IH]; simpl; intros H.
  - constructor; [intros [] | constructor].
  - inversion H as [|? ? Hk Hfr]; subst.
    destruct (N.eqb_spec c k) as [-> | Hne]; simpl.
    + constructor; assumption.
    + constructor; [|apply IH, Hfr].
      intros HIn. apply keys_bump in HIn. destruct HIn; [congruence | auto].
Qed.

Lemma count_of_bump (c d : char) (fr : list (char * nat)) :
  count_of d (bump c fr)
  = if N.eqb d c then S (count_of d fr) else count_of d fr.
Proof.
  induction fr as [|[k n] fr IH]; simpl.
  - destruct (N.eqb d c); reflexivity.
  - destruct (N.eqb_spec c k) as [-> | Hne]; simpl.
    + destruct (N.eqb d k); reflexivity.
    + destruct (N.eqb_spec d k) as [-> | Hne'].
      * destruct (N.eqb_spec k c); [congruence | reflexivity].
      * exact IH.
Qed.

Lemma total_bump (c : char) (fr : list (char * nat)) :
  total (bump c fr) = S (total fr).
Proof.
  induction fr as [|[k n] fr IH]; simpl; [reflexivity|].
  destruct (N.eqb c k); simpl; [reflexivity|].
  rewrite IH. lia.
Qed.

(** The table after the first loop of [calculateEntropy], started from any
    table [fr]. *)
Lemma fold_bump_spec (s : jsstring) :
  forall fr,
    let fr' := fold_left (fun fr c => bump c fr) s fr in
    (NoDup (keys fr) -> NoDup (keys fr'))
    /\ (forall c, In c (keys fr') <-> In c s \/ In c (keys fr))
    /\ (forall c, count_of c fr' = (count_occ char_eq_dec s c + count_of c fr)%nat)
    /\ total fr' = (length s + total fr)%nat.
Proof.
  induction s as [|x s IH]; intros fr; simpl.
  - repeat split; intuition.
  - destruct (IH (bump x fr)) as (H1 & H2 & H3 & H4). repeat split.
    + intros H. apply H1, NoDup_bump, H.
    + intros H. apply H2 in H. rewrite keys_bump in H. intuition.
    + intros H. apply H2. rewrite keys_bump. intuition.
    + intros c. rewrite H3, count_of_bump.
      destruct (char_eq_dec x c) as [-> | Hne].
      * rewrite N.eqb_refl. lia.
      * destruct (N.eqb_spec c x); [congruence | lia].
    + rewrite H4, total_bump. lia.
Qed.

Lemma frequencies_spec (s : jsstring) :
  NoDup (keys (frequencies s))
  /\ (forall c, In c (keys (frequencies s)) <-> In c s)
  /\ (forall c, count_of c (frequencies s) = count_occ char_eq_dec s c)
  /\ total (frequencies s) = length s.
Proof.
  destruct (fold_bump_spec s []) as (H1 & H2 & H3 & H4).
  unfold frequencies. repeat split.
  - apply H1. constructor.
  - intros H. apply H2 in H. simpl in H. intuition.
  - intros H. apply H2. left. assumption.
  - intros c. rewrite H3. simpl. lia.
  - rewrite H4. simpl. lia.
Qed.

(** A table without duplicate keys is determined by its keys and counts. *)
Lemma table_by_keys (fr : list (char * nat)) :
  NoDup (keys fr) -> fr = map (fun c => (c, count_of c fr)) (keys fr).
Proof.
  induction fr as [|[k n] fr IH]; simpl; intros H; [reflexivity|].
  inversion H as [|? ? Hk Hfr]; subst.
  rewrite N.eqb_refl. f_equal.
  rewrite (IH Hfr) at 1. apply map_ext_in.
  intros c Hc. destruct (N.eqb_spec c k) as [-> | _]; [contradiction|].
  reflexivity.
Qed.

Lemma total_by_keys (fr : list (char * nat)) :
  NoDup (keys fr) ->
  total fr = fold_right (fun c t => (count_of c fr + t)%nat) O (keys fr).
Proof.
  intros H. rewrite (table_by_keys fr H) at 1.
  generalize (keys fr) as l. induction l as [|c l IH]; simpl; congruence.
Qed.

Section Entropy.
Local Open Scope R_scope.

Lemma fold_minus_Rsum (A : Type) (f : A -> R) (l : list A) :
  forall a, fold_left (fun e x => e - f x) l a = a - Rsum (map f l).
Proof.
  induction l as [|x l IH]; intros a; simpl; [lra|].
  rewrite IH. lra.
Qed.

Lemma Rsum_Permutation (l l' : list R) :
  Permutation l l' -> Rsum l = Rsum l'.
Proof. induction 1; simpl; lra. Qed.

Lemma Rsum_const (A : Type) (f : A -> R) (t : R) (l : list A) :
  (forall x, In x l -> f x = t) -> Rsum (map f l) = INR (length l) * t.
Proof.
  induction l as [|x l IH]; intros H.
  - simpl. lra.
  - cbn [map Rsum fold_right length]. fold (Rsum (map f l)).
    rewrite S_INR.
    rewrite IH by (intros; apply H; right; assumption).
    rewrite (H x) by (left; reflexivity). lra.
Qed.

Lemma keys_Permutation (s : jsstring) :
  Permutation (keys (frequencies s)) (nodup char_eq_dec s).
Proof.
  destruct (frequencies_spec s) as (Hnd & Hin & _).
  apply NoDup_Permutation; [assumption | apply NoDup_nodup|].
  intros c. rewrite Hin, nodup_In. reflexivity.
Qed.

Lemma calculateEntropy_by_keys (s : jsstring) :
  calculateEntropy s
  = - Rsum (map (fun c => probability s c * log2 (probability s c))
              (keys (frequencies s))).
Proof.
  destruct s as [|x s]; [cbn; lra|].
  unfold calculateEntropy. cbv zeta.
  remember (x :: s) as str eqn:Estr.
  replace (match length str with O => 0 | S _ => _ end)
    with (fold_left
            (fun entropy (kv : char * nat) =>
               entropy - INR (snd kv) / INR (length str)
                         * log2 (INR (snd kv) / INR (length str)))
            (frequencies str) 0)
    by (rewrite Estr; reflexivity).
  rewrite fold_minus_Rsum.
  destruct (frequencies_spec str) as (Hnd & _ & Hc & _).
  rewrite (table_by_keys _ Hnd) at 1. rewrite map_map. cbn [snd].
  rewrite (map_ext _ (fun c => probability str c * log2 (probability str c))).
  - lra.
  - intros c. unfold probability. rewrite Hc. reflexivity.
Qed.

(** The estimator computes the Shannon entropy of its argument. *)
Lemma calculateEntropy_shannon (s : jsstring) :
  calculateEntropy s = shannon s.
Proof.
  rewrite calculateEntropy_by_keys. unfold shannon. f_equal.
  apply Rsum_Permutation, Permutation_map, keys_Permutation.
Qed.

Lemma log2_1 : log2 1 = 0.
Proof. unfold log2. rewrite ln_1. lra. Qed.

Lemma ln_2_pos : 0 < ln 2.
Proof. rewrite <- ln_1. apply ln_increasing; lra. Qed.

Lemma log2_Rinv (x : R) : 0 < x -> log2 (/ x) = - log2 x.
Proof. intros H. unfold log2. rewrite ln_Rinv by assumption. lra. Qed.

Lemma shannon_repeat (c : char) (n : nat) : shannon (repeat c n) = 0.
Proof.
  unfold shannon.
  rewrite (Rsum_const _ _ 0); [lra|].
  intros d Hd. apply nodup_In in Hd.
  assert (d = c) by (eapply repeat_spec; eassumption). subst d.
  destruct n as [|n]; [contradiction|].
  unfold probability. rewrite count_occ_repeat_eq, repeat_length by reflexivity.
  replace (INR (S n) / INR (S n)) with 1.
  - rewrite log2_1. lra.
  - field. apply not_0_INR. discriminate.
Qed.

Lemma length_by_counts (s : jsstring) :
  length s
  = fold_right (fun c t => (count_occ char_eq_dec s c + t)%nat) O
      (keys (frequencies s)).
Proof.
  destruct (frequencies_spec s) as (Hnd & _ & Hc & Ht).
  rewrite <- Ht, (total_by_keys _ Hnd).
  generalize (keys (frequencies s)) as l.
  induction l as [|c l IH]; simpl; [reflexivity|].
  rewrite Hc, IH. reflexivity.
Qed.

Lemma length_uniform (s : jsstring) (k : nat) :
  (forall c, In c s -> count_occ char_eq_dec s c = k) ->
  length s = (distinct s * k)%nat.
Proof.
  intros Hk. unfold distinct.
  rewrite <- (Permutation_length (keys_Permutation s)).
  rewrite (length_by_counts s) at 1.
  assert (Hin : forall c, In c (keys (frequencies s)) -> In c s).
  { intros c. apply (frequencies_spec s). }
  revert Hin. generalize (keys (frequencies s)) as l.
  induction l as [|c l IH]; intros Hin; simpl; [reflexivity|].
  rewrite (Hk c), IH; auto with datatypes.
Qed.

Lemma shannon_uniform (s : jsstring) (k : nat) :
  s <> [] ->
  (forall c, In c s -> count_occ char_eq_dec s c = k) ->
  shannon s = log2 (INR (distinct s)).
Proof.
  intros Hne Hk.
  assert (Hlen := length_uniform s k Hk).
  assert (Hpos : (0 < length s)%nat).
  { destruct s; [congruence | simpl; lia]. }
  assert (HN : (0 < distinct s)%nat) by nia.
  assert (HK : (0 < k)%nat) by nia.
  assert (HNr : 0 < INR (distinct s)) by (apply lt_0_INR, HN).
  assert (HKr : 0 < INR k) by (apply lt_0_INR, HK).
  unfold shannon.
  rewrite (Rsum_const _ _ (/ INR (distinct s) * log2 (/ INR (distinct s)))).
  - fold (distinct s). rewrite log2_Rinv by assumption. field. lra.
  - intros c Hc. apply nodup_In in Hc.
    assert (Hp : probability s c = / INR (distinct s)).
    { unfold probability. rewrite (Hk c Hc), Hlen, mult_INR. field. lra. }
    rewrite Hp. reflexivity.
Qed.

(** C5: the estimator computes the Shannon entropy [- sum p * log2 p] over
    the symbols that occur; it returns 0 on the empty string and on any
    string made of one repeated character, and [log2 N] on a string whose
    [N] distinct characters all occur equally often. *)
Theorem calculateEntropy_spec :
  (forall s, calculateEntropy s = shannon s)
  /\ calculateEntropy [] = 0
  /\ (forall c n, calculateEntropy (repeat c n) = 0)
  /\ (forall s k,
        s <> [] ->
        (forall c, In c s -> count_occ char_eq_dec s c = k) ->
        calculateEntropy s = log2 (INR (distinct s))).
Proof.
  split; [exact calculateEntropy_shannon|].
  split; [reflexivity|].
  split.
  - intros c n. rewrite calculateEntropy_shannon. apply shannon_repeat.
  - intros s k Hne Hk. rewrite calculateEntropy_shannon.
    apply (shannon_uniform s k Hne Hk).
Qed.

Lemma calculateEntropy_spec_witness :
  calculateEntropy (lit "abcabc") = log2 3.
Proof.
  destruct calculateEntropy_spec as (_ & _ & _ & H).
  replace 3 with (INR (distinct (lit "abcabc")))
    by (vm_compute; lra).
  apply (H (lit "abcabc") 2%nat).
  - discriminate.
  - intros c Hc. simpl in Hc.
    repeat (destruct Hc as [<- | Hc]; [reflexivity|]). contradiction.
Defined.
End Entropy.

Section EntropyBounds.
Local Open Scope R_scope.

Lemma ln_le_minus_1 (y : R) : 0 < y -> ln y <= y - 1.
Proof.
  intros Hy. assert (H := exp_ineq1_le (ln y)).
  rewrite exp_ln in H by assumption. lra.
Qed.

Lemma log2_le (x y : R) : 0 < x -> x <= y -> log2 x <= log2 y.
Proof.
  intros Hx Hxy. unfold log2.
  apply Rmult_le_compat_r.
  - left. apply Rinv_0_lt_compat, ln_2_pos.
  - destruct Hxy as [Hlt | ->]; [left; apply ln_increasing; assumption | lra].
Qed.

Lemma log2_pow2 (n : nat) : log2 (2 ^ n) = INR n.
Proof.
  unfold log2. rewrite ln_pow by lra. field.
  apply Rgt_not_eq, ln_2_pos.
Qed.

(** One term of Gibbs' inequality. *)
Lemma gibbs_term (p n : R) :
  0 < p -> 0 < n -> - (p * log2 p) <= p * log2 n + (/ n - p) / ln 2.
Proof.
  intros Hp Hn. unfold log2.
  assert (H2 := ln_2_pos).
  assert (Hpn : 0 < p * n) by (apply Rmult_lt_0_compat; assumption).
  assert (H := ln_le_minus_1 _ (Rinv_0_lt_compat _ Hpn)).
  rewrite ln_Rinv, ln_mult in H by assumption.
  assert (Hm : p * (- (ln p + ln n)) <= p * (/ (p * n) - 1)).
  { apply Rmult_le_compat_l; lra. }
  replace (p * (/ (p * n) - 1)) with (/ n - p) in Hm by (field; split; lra).
  assert (Hd : (p * (- (ln p + ln n))) / ln 2 <= (/ n - p) / ln 2).
  { apply Rmult_le_compat_r; [|assumption].
    left. apply Rinv_0_lt_compat. assumption. }
  replace (- (p * (ln p / ln 2))) with
    ((p * (- (ln p + ln n))) / ln 2 + p * (ln n / ln 2)) by (field; lra).
  lra.
Qed.

Lemma gibbs_sum (f : char -> R) (n : R) (l : list char) :
  0 < n -> (forall c, In c l -> 0 < f c) ->
  - Rsum (map (fun c => f c * log2 (f c)) l)
  <= log2 n * Rsum (map f l)
     + (INR (length l) / n - Rsum (map f l)) / ln 2.
Proof.
  intros Hn. assert (H2 := ln_2_pos).
  induction l as [|c l IH]; intros Hf.
  - simpl. lra.
  - cbn [map Rsum fold_right length].
    fold (Rsum (map f l)). fold (Rsum (map (fun c => f c * log2 (f c)) l)).
    rewrite S_INR.
    assert (Hc := gibbs_term _ _ (Hf c (or_introl eq_refl)) Hn).
    assert (Hl := IH (fun d Hd => Hf d (or_intror Hd))).
    unfold Rdiv in *. lra.
Qed.

Lemma Rsum_counts (g : char -> nat) (d : R) (l : list char) :
  Rsum (map (fun c => INR (g c) / d) l)
  = INR (fold_right (fun c t => (g c + t)%nat) O l) / d.
Proof.
  induction l as [|c l IH]; simpl.
  - lra.
  - fold (Rsum (map (fun c => INR (g c) / d) l)).
    rewrite IH, plus_INR. lra.
Qed.

Lemma probability_pos (s : jsstring) (c : char) :
  In c s -> 0 < probability s c <= 1.
Proof.
  intros Hc.
  assert (H1 : (0 < count_occ char_eq_dec s c)%nat)
    by (apply count_occ_In; assumption).
  assert (H2 := count_occ_bound char_eq_dec c s).
  assert (H1r : 0 < INR (count_occ char_eq_dec s c)) by (apply lt_0_INR, H1).
  assert (H2r : INR (count_occ char_eq_dec s c) <= INR (length s))
    by (apply le_INR, H2).
  unfold probability. split.
  - apply Rdiv_lt_0_compat; lra.
  - apply (Rmult_le_reg_r (INR (length s))); [lra|].
    unfold Rdiv. rewrite Rmult_assoc, Rinv_l by lra. lra.
Qed.

Lemma probability_sum (s : jsstring) :
  s <> [] -> Rsum (map (probability s) (nodup char_eq_dec s)) = 1.
Proof.
  intros Hne.
  rewrite <- (Rsum_Permutation _ _
                (Permutation_map (probability s) (keys_Permutation s))).
  unfold probability.
  rewrite (Rsum_counts (count_occ char_eq_dec s)), <- length_by_counts.
  field. apply not_0_INR. destruct s; [congruence | discriminate].
Qed.

Lemma shannon_nonneg (s : jsstring) : 0 <= shannon s.
Proof.
  unfold shannon.
  assert (H : Rsum (map (fun c => probability s c * log2 (probability s c))
                      (nodup char_eq_dec s)) <= 0).
  { assert (Hin : forall c, In c (nodup char_eq_dec s) -> In c s)
      by (intros c; apply nodup_In).
    revert Hin. generalize (nodup char_eq_dec s) as l.
    induction l as [|c l IH]; intros Hin; simpl; [lra|].
    fold (Rsum (map (fun c => probability s c * log2 (probability s c)) l)).
    assert (Hl := IH (fun d Hd => Hin d (or_intror Hd))).
    destruct (probability_pos s c (Hin c (or_introl eq_refl))) as [Hp0 Hp1].
    assert (Hlog : log2 (probability s c) <= 0).
    { rewrite <- log2_1. apply log2_le; assumption. }
    assert (Hterm : probability s c * log2 (probability s c) <= 0).
    { rewrite <- (Rmult_0_r (probability s c)).
      apply Rmult_le_compat_l; lra. }
    lra. }
  lra.
Qed.

(** Gibbs' inequality: the entropy is at most [log2] of the number of
    distinct symbols. *)
Lemma shannon_le_log2_distinct (s : jsstring) :
  s <> [] -> shannon s <= log2 (INR (distinct s)).
Proof.
  intros Hne.
  assert (HN : 0 < INR (distinct s)).
  { apply lt_0_INR. unfold distinct.
    destruct s as [|x s]; [congruence|].
    destruct (nodup char_eq_dec (x :: s)) eqn:E; [|simpl; lia].
    assert (Hx : In x (nodup char_eq_dec (x :: s)))
      by (apply nodup_In; left; reflexivity).
    rewrite E in Hx. contradiction. }
  assert (H := gibbs_sum (probability s) _ (nodup char_eq_dec s) HN
                 (fun c Hc => proj1 (probability_pos s c
                                       (proj1 (nodup_In _ _ _) Hc)))).
  rewrite (probability_sum s Hne) in H. fold (distinct s) in H.
  unfold shannon.
  replace (INR (distinct s) / INR (distinct s) - 1) with 0 in H
    by (field; lra).
  unfold Rdiv in H at 1. rewrite Rmult_0_l in H. lra.
Qed.
End EntropyBounds.

(* ================================================================= *)
(** ** The base64 pattern *)

Lemma span_le_length (s : jsstring) : (span s <= length s)%nat.
Proof.
  induction s as [|c s IH]; simpl; [lia|]. destruct (b64 c); lia.
Qed.

Lemma span_skipn (n : nat) :
  forall s, (n <= span s)%nat -> span (skipn n s) = (span s - n)%nat.
Proof.
  induction n as [|n IH]; intros s H; simpl; [lia|].
  destruct s as [|c s]; simpl in *; [lia|].
  destruct (b64 c); [apply IH; lia | lia].
Qed.

Lemma span_firstn (n : nat) :
  forall s, (n <= span s)%nat -> Forall (fun c => b64 c = true) (firstn n s).
Proof.
  induction n as [|n IH]; intros s H; simpl; [constructor|].
  destruct s as [|c s]; simpl in *; [lia|].
  destruct (b64 c) eqn:E; [|lia].
  constructor; [assumption | apply IH; lia].
Qed.

Lemma span_app (body rest : jsstring) :
  Forall (fun c => b64 c = true) body ->
  span (body ++ rest) = (length body + span rest)%nat.
Proof.
  induction 1 as [|c body Hc _ IH]; simpl; [reflexivity|].
  rewrite Hc, IH. reflexivity.
Qed.

Lemma ends_group (s : jsstring) :
  ends (Times 4 (Cls b64)) s
  = if (4 <=? span s)%nat then [skipn 4 s] else [].
Proof.
  destruct s as [|a [|b [|c [|d s]]]]; simpl;
    repeat match goal with
           | |- context [b64 ?x] => destruct (b64 x); simpl
           end; reflexivity.
Qed.

Lemma ends_groups (n : nat) :
  forall s,
    ends (Times n (Times 4 (Cls b64))) s
    = if (4 * n <=? span s)%nat then [skipn (4 * n) s] else [].
Proof.
  induction n as [|n IH]; intros s.
  - reflexivity.
  - change (Times (S n) (Times 4 (Cls b64)))
      with (Seq (Times 4 (Cls b64)) (Times n (Times 4 (Cls b64)))).
    cbn [ends]. rewrite ends_group.
    destruct (4 <=? span s)%nat eqn:E4.
    + apply Nat.leb_le in E4. cbn [flat_map]. rewrite app_nil_r, IH.
      rewrite span_skipn by assumption. rewrite skipn_skipn.
      replace (4 * n + 4)%nat with (4 * S n)%nat by lia.
      destruct (4 * n <=? span s - 4)%nat eqn:En.
      * apply Nat.leb_le in En.
        replace (4 * S n <=? span s)%nat with true
          by (symmetry; apply Nat.leb_le; lia).
        reflexivity.
      * apply Nat.leb_gt in En.
        replace (4 * S n <=? span s)%nat with false
          by (symmetry; apply Nat.leb_gt; lia).
        reflexivity.
    + apply Nat.leb_gt in E4. cbn [flat_map].
      replace (4 * S n <=? span s)%nat with false
        by (symmetry; apply Nat.leb_gt; lia).
      reflexivity.
Qed.

(** The greedy iteration of the group first stops after as many groups as
    the run holds. *)
Lemma star_groups_hd (fuel : nat) :
  forall s, (length s <= fuel)%nat ->
    hd_error (star_loop Greedy (ends (Times 4 (Cls b64))) fuel s)
    = Some (skipn (4 * (span s / 4)) s).
Proof.
  induction fuel as [|fuel IH]; intros s Hlen.
  - destruct s; [reflexivity | simpl in Hlen; lia].
  - cbn [star_loop]. rewrite ends_group. unfold star_more.
    assert (Hsp := span_le_length s).
    destruct (4 <=? span s)%nat eqn:E4.
    + apply Nat.leb_le in E4. cbn [flat_map]. rewrite app_nil_r.
      assert (Hsk : length (skipn 4 s) = (length s - 4)%nat)
        by apply length_skipn.
      replace (length (skipn 4 s) <? length s)%nat with true
        by (symmetry; apply Nat.ltb_lt; lia).
      assert (Hrec := IH (skipn 4 s) ltac:(lia)).
      destruct (star_loop Greedy (ends (Times 4 (Cls b64))) fuel (skipn 4 s))
        as [|x l]; [discriminate|].
      cbn [hd_error app] in *. rewrite Hrec. f_equal.
      rewrite span_skipn, skipn_skipn by assumption. f_equal.
      assert (Hq : (span s / 4 = S ((span s - 4) / 4))%nat).
      { replace (span s) with ((span s - 4) + 1 * 4)%nat at 1 by lia.
        rewrite Nat.div_add by lia. lia. }
      lia.
    + apply Nat.leb_gt in E4. cbn [flat_map app hd_error].
      rewrite Nat.div_small by assumption. reflexivity.
Qed.

Lemma hd_flat_map (A B : Type) (f : A -> list B) (x : A) (l : list A) (y : B) :
  hd_error (f x) = Some y -> hd_error (flat_map f (x :: l)) = Some y.
Proof.
  intros H. cbn [flat_map]. destruct (f x); [discriminate | exact H].
Qed.

Lemma at_least_ten_hd (s : jsstring) :
  hd_error (ends (AtLeast 10 (Times 4 (Cls b64))) s)
  = if (10 <=? span s / 4)%nat
    then Some (skipn (4 * (span s / 4)) s) else None.
Proof.
  unfold AtLeast. cbn [ends]. rewrite ends_groups.
  assert (Hq : (10 <=? span s / 4)%nat = (4 * 10 <=? span s)%nat).
  { destruct (4 * 10 <=? span s)%nat eqn:E.
    - apply Nat.leb_le in E. apply Nat.leb_le.
      apply Nat.div_le_lower_bound; lia.
    - apply Nat.leb_gt in E. apply Nat.leb_gt.
      apply Nat.Div0.div_lt_upper_bound; lia. }
  rewrite Hq. destruct (4 * 10 <=? span s)%nat eqn:E; [|reflexivity].
  apply Nat.leb_le in E.
  apply hd_flat_map. rewrite star_groups_hd by lia. f_equal.
  rewrite span_skipn, skipn_skipn by assumption. f_equal.
  assert (Hd : (span s / 4 = (span s - 4 * 10) / 4 + 10)%nat).
  { replace (span s) with ((span s - 4 * 10) + 10 * 4)%nat at 1 by lia.
    rewrite Nat.div_add by lia. reflexivity. }
  lia.
Qed.

Lemma opt_padding_hd (x : jsstring) :
  hd_error
    (ends (Opt (Alt (Seq (Times 2 (Cls b64)) (Lit (lit "==")))
                    (Seq (Times 3 (Cls b64)) (Lit (lit "="))))) x)
  = Some (skipn (pad_length x) x).
Proof.
  unfold pad_length, is_chr. change (code "=") with 61%N.
  destruct x as [|a [|b [|c [|d x]]]]; cbn -[N.eqb b64];
    repeat match goal with
           | |- context [b64 ?y] => destruct (b64 y); cbn -[N.eqb b64]
           | |- context [(61 =? ?y)%N] =>
               destruct (61 =? y)%N; cbn -[N.eqb b64]
           end; reflexivity.
Qed.

Lemma base64Regex_hd (s : jsstring) :
  hd_error (ends base64Regex s)
  = match block_length s with
    | Some n => Some (skipn n s)
    | None => None
    end.
Proof.
  unfold base64Regex, block_length. cbv zeta.
  change (ends (Seq ?a ?b) s) with (flat_map (ends b) (ends a s)).
  assert (H := at_least_ten_hd s).
  destruct (10 <=? span s / 4)%nat.
  - destruct (ends (AtLeast 10 (Times 4 (Cls b64))) s) as [|x l];
      [discriminate|].
    assert (Hx : x = skipn (4 * (span s / 4)) s)
      by (cbn [hd_error] in H; congruence).
    erewrite hd_flat_map by apply opt_padding_hd.
    rewrite Hx, skipn_skipn. f_equal. f_equal. apply Nat.add_comm.
  - destruct (ends (AtLeast 10 (Times 4 (Cls b64))) s) as [|x l];
      [reflexivity | discriminate].
Qed.

Lemma pad_length_le (x : jsstring) : (pad_length x <= length x)%nat.
Proof.
  unfold pad_length. destruct x as [|a [|b [|c [|d x]]]]; simpl; try lia.
  destruct (_ && _); [lia|]. destruct (_ && _); lia.
Qed.

Lemma block_length_le (s : jsstring) (n : nat) :
  block_length s = Some n -> (40 <= n <= length s)%nat.
Proof.
  unfold block_length. cbv zeta.
  destruct (10 <=? span s / 4)%nat eqn:E; [|discriminate].
  apply Nat.leb_le in E. intros H.
  assert (Hn : n = (4 * (span s / 4)
                    + pad_length (skipn (4 * (span s / 4)) s))%nat)
    by congruence.
  clear H. assert (Hsp := span_le_length s).
  assert (Hq : (4 * (span s / 4) <= span s)%nat)
    by (apply Nat.Div0.mul_div_le).
  assert (Hp := pad_length_le (skipn (4 * (span s / 4)) s)).
  rewrite length_skipn in Hp. lia.
Qed.

(** The match of the base64 pattern at the start of [s]. *)
Lemma match_here_base64 (s : jsstring) :
  match_here base64Regex s
  = match block_length s with
    | Some n => Some (firstn n s, skipn n s)
    | None => None
    end.
Proof.
  unfold match_here. assert (H := base64Regex_hd s).
  destruct (block_length s) as [n|] eqn:E.
  - destruct (ends base64Regex s) as [|rest l]; [discriminate|].
    assert (Hr : rest = skipn n s) by (cbn [hd_error] in H; congruence).
    rewrite Hr. apply block_length_le in E. rewrite length_skipn.
    replace (length s - (length s - n))%nat with n by lia.
    reflexivity.
  - destruct (ends base64Regex s); [reflexivity | discriminate].
Qed.

(* ================================================================= *)
(** ** Global matching: what every [/g] scan of the source returns *)

Lemma classes_within_True (r : regex) : classes_within (fun _ => True) r.
Proof. induction r; simpl; auto. Qed.

Lemma match_here_split (r : regex) (s m rest : jsstring) :
  match_here r s = Some (m, rest) -> s = m ++ rest.
Proof.
  intros H.
  apply (match_here_sound (fun _ => True) r s m rest
           (classes_within_True r) H).
Qed.

Lemma interleaved_gap (c : char) (s : jsstring) (ms : list jsstring) :
  interleaved s ms -> interleaved (c :: s) ms.
Proof.
  intros H. destruct H as [text | gap m rest ms H].
  - constructor.
  - apply (interleaved_cons (c :: gap) m rest ms H).
Qed.

Lemma scan_interleaved (r : regex) (fuel : nat) :
  forall s, interleaved s (scan fuel r s).
Proof.
  induction fuel as [|fuel IH]; intros s; simpl; [constructor|].
  destruct (match_here r s) as [[m rest]|] eqn:E.
  - rewrite (match_here_split r s m rest E).
    apply (interleaved_cons [] m rest).
    destruct m as [|x m].
    + destruct rest as [|y rest]; [constructor|].
      apply interleaved_gap, IH.
    + apply IH.
  - destruct s as [|x s]; [constructor|]. apply interleaved_gap, IH.
Qed.

Lemma interleaved_length (s : jsstring) (ms : list jsstring) :
  interleaved s ms -> (length (concat ms) <= length s)%nat.
Proof.
  induction 1 as [text | gap m rest ms _ IH]; simpl; [lia|].
  rewrite !length_app. lia.
Qed.

Lemma total_length_from (ms : list jsstring) :
  forall a,
    fold_left (fun total m => (total + jslength m)%N) ms a
    = (a + N.of_nat (length (concat ms)))%N.
Proof.
  induction ms as [|m ms IH]; intros a; simpl; [lia|].
  rewrite IH, length_app. unfold jslength. lia.
Qed.

Lemma total_length_concat (ms : list jsstring) :
  total_length ms = N.of_nat (length (concat ms)).
Proof. unfold total_length. rewrite total_length_from. lia. Qed.

(** Whatever the pattern, the matches a global scan returns lie in the
    text in order and without overlap, so their lengths add up to at most
    the length of the text. *)
Lemma matches_within_text (r : regex) (s : jsstring) :
  interleaved s (matches r s)
  /\ (total_length (matches r s) <= jslength s)%N.
Proof.
  assert (H := scan_interleaved r (S (length s)) s).
  split; [exact H|].
  rewrite total_length_concat. unfold jslength.
  apply interleaved_length in H. unfold matches. lia.
Qed.

(* ================================================================= *)
(** ** Encoded-block scanner: counts and sizes *)

Lemma Rlt_dec_Rmax (x y : R) :
  (if Rlt_dec x y then y else x) = Rmax x y.
Proof.
  unfold Rmax. destruct (Rlt_dec x y) as [Hlt | Hge];
    destruct (Rle_dec x y) as [Hle | Hgt]; try reflexivity; lra.
Qed.

Lemma fold_add_block (ms : list jsstring) :
  forall acc,
    let b := fold_left add_block ms acc in
    count b = (count acc + N.of_nat (length ms))%N
    /\ size b = (size acc + N.of_nat (length (concat ms)))%N
    /\ maxEntropy b
       = fold_left Rmax (map calculateEntropy ms) (maxEntropy acc).
Proof.
  induction ms as [|m ms IH]; intros acc; simpl.
  - repeat split; lia.
  - destruct (IH (add_block acc m)) as (Hc & Hs & He).
    rewrite Hc, Hs, He. unfold add_block; cbn [count size maxEntropy].
    rewrite Rlt_dec_Rmax, length_app. unfold jslength.
    repeat split; lia.
Qed.

(** Every match of the base64 pattern is at least 40 code units long, a
    multiple of four. *)
Lemma scan_base64_lengths (fuel : nat) :
  forall s,
    Forall (fun m => (40 <= length m)%nat /\ (length m mod 4 = 0)%nat)
      (scan fuel base64Regex s).
Proof.
  induction fuel as [|fuel IH]; intros s; cbn [scan]; [constructor|].
  rewrite match_here_base64.
  destruct (block_length s) as [n|] eqn:E.
  - assert (Hn := block_length_le s n E).
    assert (Hlen : length (firstn n s) = n) by (apply firstn_length_le; lia).
    constructor.
    + rewrite Hlen. split; [lia|].
      unfold block_length in E. cbv zeta in E.
      destruct (10 <=? span s / 4)%nat; [|discriminate].
      assert (Hn' : n = (4 * (span s / 4)
                         + pad_length (skipn (4 * (span s / 4)) s))%nat)
        by congruence.
      rewrite Hn'.
      replace (4 * (span s / 4)
               + pad_length (skipn (4 * (span s / 4)) s))%nat
        with (pad_length (skipn (4 * (span s / 4)) s)
              + (span s / 4) * 4)%nat by lia.
      rewrite Nat.Div0.mod_add. unfold pad_length.
      destruct (skipn (4 * (span s / 4)) s) as [|a [|b [|c [|d x]]]];
        try reflexivity.
      destruct (_ && _); [reflexivity|]. destruct (_ && _); reflexivity.
    + destruct (firstn n s) as [|x m] eqn:Ef; [simpl in Hlen; lia|].
      apply IH.
  - destruct s as [|x s]; [constructor | apply IH].
Qed.

Lemma concat_lengths (ms : list jsstring) :
  Forall (fun m => (40 <= length m)%nat /\ (length m mod 4 = 0)%nat) ms ->
  (40 * length ms <= length (concat ms))%nat
  /\ (length (concat ms) mod 4 = 0)%nat.
Proof.
  induction 1 as [|m ms [H40 H4] _ [IH1 IH2]]; cbn [concat length];
    [split; reflexivity|].
  rewrite length_app. split; [lia|].
  rewrite Nat.Div0.add_mod, H4, IH2. reflexivity.
Qed.

(** X1: the encoded-block scanner reports at least 40 characters per block
    and never more characters than the text has; the total size is a
    multiple of four; a text of fewer than 40 characters has no block. *)
Theorem findBase64Blocks_size_bounds (text : jsstring) :
  let b := findBase64Blocks text in
  (40 * count b <= size b)%N
  /\ (size b <= jslength text)%N
  /\ (size b mod 4 = 0)%N
  /\ ((jslength text < 40)%N -> b = no_blocks).
Proof.
  unfold findBase64Blocks.
  destruct (fold_add_block (matches base64Regex text) no_blocks)
    as (Hc & Hs & He).
  cbn [count size maxEntropy no_blocks] in Hc, Hs, He.
  assert (Hl := proj1 (matches_within_text base64Regex text)).
  apply interleaved_length in Hl.
  destruct (concat_lengths _ (scan_base64_lengths (S (length text)) text))
    as [H40 H4]. fold (matches base64Regex text) in H40, H4.
  cbv zeta. rewrite Hc, Hs. unfold jslength.
  assert (Hmod : (N.of_nat (length (concat (matches base64Regex text))) mod 4
                  = 0)%N).
  { change 4%N with (N.of_nat 4). rewrite <- Nat2N.inj_mod, H4. reflexivity. }
  split; [lia|]. split; [lia|]. split; [exact Hmod|].
  intros Hshort.
  assert (Hnil : length (matches base64Regex text) = 0%nat) by lia.
  destruct (matches base64Regex text) as [|m ms]; [reflexivity|].
  discriminate Hnil.
Qed.

Lemma findBase64Blocks_size_bounds_witness :
  findBase64Blocks (lit "QUJDREVGR0hJSktMTU5PUFFSU1RVVldYWVo=") = no_blocks.
Proof.
  apply (findBase64Blocks_size_bounds
           (lit "QUJDREVGR0hJSktMTU5PUFFSU1RVVldYWVo=")).
  reflexivity.
Defined.

(* ================================================================= *)
(** ** Encoded-block scanner: which blocks are found *)

Lemma firstn_plus (a b : nat) :
  forall s : jsstring,
    firstn (a + b) s = firstn a s ++ firstn b (skipn a s).
Proof.
  induction a as [|a IH]; intros s; simpl; [reflexivity|].
  destruct s as [|x s]; simpl.
  - rewrite firstn_nil. reflexivity.
  - rewrite IH. reflexivity.
Qed.

Lemma is_chr_eq (a : ascii) (c : char) : is_chr a c = true -> c = code a.
Proof. unfold is_chr. intros H. apply N.eqb_eq in H. congruence. Qed.

Lemma padding_length (pad : jsstring) :
  padding pad -> length pad = 0%nat \/ length pad = 4%nat.
Proof. destruct 1; simpl; auto. Qed.

Lemma pad_length_padding (x : jsstring) :
  padding (firstn (pad_length x) x).
Proof.
  unfold pad_length.
  destruct x as [|a [|b [|c [|d x]]]]; try apply pad_none.
  destruct (b64 a && b64 b && is_chr "=" c && is_chr "=" d) eqn:E1.
  - repeat (apply andb_true_iff in E1; destruct E1 as [E1 ?]).
    rewrite (is_chr_eq "=" c), (is_chr_eq "=" d) by assumption.
    apply pad_two; assumption.
  - destruct (b64 a && b64 b && b64 c && is_chr "=" d) eqn:E2;
      [|apply pad_none].
    repeat (apply andb_true_iff in E2; destruct E2 as [E2 ?]).
    rewrite (is_chr_eq "=" d) by assumption.
    apply pad_one; assumption.
Qed.

Lemma pad_length_complete (pad t : jsstring) :
  padding pad -> pad_length (pad ++ t) = length pad \/ pad = [].
Proof.
  destruct 1 as [| a b Ha Hb | a b c Ha Hb Hc]; [right; reflexivity | |];
    left; unfold pad_length; cbn [app length].
  - rewrite Ha, Hb. reflexivity.
  - rewrite Ha, Hb, Hc.
    destruct (is_chr "=" c); reflexivity.
Qed.

(** A block at the start of [s] lies within the run of base64 characters
    that starts there, up to its padding. *)
Lemma block_prefix (s m t : jsstring) :
  s = m ++ t -> b64_block m ->
  exists body pad k,
    m = body ++ pad /\ length body = (4 * k)%nat /\ (10 <= k)%nat
    /\ padding pad /\ (k <= span s / 4)%nat
    /\ skipn (4 * k) s = pad ++ t.
Proof.
  intros Hs (body & pad & k & Hm & Hb & Hlen & Hk & Hp).
  exists body, pad, k. repeat split; try assumption.
  - apply Nat.div_le_lower_bound; [lia|].
    rewrite Hs, Hm, <- app_assoc, (span_app _ _ Hb). lia.
  - rewrite Hs, Hm, <- app_assoc, <- Hlen.
    rewrite skipn_app, skipn_all, Nat.sub_diag. reflexivity.
Qed.

Lemma block_length_none (s m t : jsstring) :
  block_length s = None -> s = m ++ t -> ~ b64_block m.
Proof.
  unfold block_length. cbv zeta. intros H Hs Hm.
  destruct (block_prefix s m t Hs Hm) as (_ & _ & k & _ & _ & Hk & _ & Hq & _).
  destruct (10 <=? span s / 4)%nat eqn:E; [discriminate|].
  apply Nat.leb_gt in E. lia.
Qed.

Lemma block_length_some (s : jsstring) (n : nat) :
  block_length s = Some n ->
  b64_block (firstn n s)
  /\ (forall m t, s = m ++ t -> b64_block m -> (length m <= n)%nat).
Proof.
  intros H. assert (Hn := block_length_le s n H).
  unfold block_length in H. cbv zeta in H.
  destruct (10 <=? span s / 4)%nat eqn:E; [|discriminate].
  apply Nat.leb_le in E.
  set (q := (span s / 4)%nat) in *.
  assert (Hn' : n = (4 * q + pad_length (skipn (4 * q) s))%nat)
    by congruence.
  clear H.
  assert (Hq : (4 * q <= span s)%nat) by apply Nat.Div0.mul_div_le.
  assert (Hsp := span_le_length s).
  split.
  - exists (firstn (4 * q) s), (firstn (pad_length (skipn (4 * q) s))
                                  (skipn (4 * q) s)), q.
    repeat split.
    + rewrite Hn'. apply firstn_plus.
    + apply span_firstn, Hq.
    + apply firstn_length_le. lia.
    + exact E.
    + apply pad_length_padding.
  - intros m t Hs Hm.
    destruct (block_prefix s m t Hs Hm)
      as (body & pad & k & Hmb & Hlen & Hk & Hp & Hkq & Hskip).
    fold q in Hkq.
    rewrite Hmb, length_app, Hlen.
    destruct (padding_length pad Hp) as [H0 | H4]; [lia|].
    destruct (Nat.eq_dec k q) as [-> | Hne]; [|lia].
    rewrite Hn', Hskip.
    destruct (pad_length_complete pad t Hp) as [Hc | ->];
      [lia | simpl in H4; lia].
Qed.

Lemma scan_scanned (fuel : nat) :
  forall s, (length s < fuel)%nat -> scanned s (scan fuel base64Regex s).
Proof.
  induction fuel as [|fuel IH]; intros s Hlen; [lia|].
  cbn [scan]. rewrite match_here_base64.
  destruct (block_length s) as [n|] eqn:E.
  - assert (Hn := block_length_le s n E).
    destruct (block_length_some s n E) as [Hblock Hlongest].
    assert (Hl : length (firstn n s) = n) by (apply firstn_length_le; lia).
    destruct (firstn n s) as [|x m] eqn:Ef; [simpl in Hl; lia|].
    rewrite <- Ef in *.
    rewrite <- (firstn_skipn n s) at 1.
    apply scanned_block.
    + exact Hblock.
    + intros m' t' Hs Hm'. rewrite Hl.
      apply (Hlongest m' t'); [|exact Hm'].
      rewrite <- Hs. symmetry. apply firstn_skipn.
    + apply IH. rewrite length_skipn. lia.
  - destruct s as [|x s]; [constructor|].
    apply scanned_skip.
    + intros m t. apply (block_length_none _ m t E).
    + apply IH. simpl in Hlen. lia.
Qed.

Lemma block_nonempty (m : jsstring) : b64_block m -> m <> [].
Proof.
  intros (body & pad & k & Hm & _ & Hlen & Hk & _) ->.
  symmetry in Hm. apply app_eq_nil in Hm. destruct Hm as [-> _].
  simpl in Hlen. lia.
Qed.

Lemma app_same_length (m m' t t' : jsstring) :
  length m = length m' -> m ++ t = m' ++ t' -> m = m' /\ t = t'.
Proof.
  revert m'. induction m as [|x m IH]; intros [|y m'] Hlen Heq;
    try discriminate.
  - split; [reflexivity | exact Heq].
  - simpl in *. injection Heq as -> Heq.
    destruct (IH m' ltac:(lia) Heq) as [-> ->]. split; reflexivity.
Qed.

(** The blocks of a text are determined by [scanned]. *)
Lemma scanned_unique (s : jsstring) (ms : list jsstring) :
  scanned s ms -> forall ms', scanned s ms' -> ms = ms'.
Proof.
  induction 1 as [| c s ms Hno _ IH | m t ms Hm Hlong _ IH];
    intros ms' H'.
  - remember [] as s eqn:Es.
    destruct H' as [| c s ms'' _ _ | m' t' ms'' Hm' _ _];
      [reflexivity | discriminate |].
    exfalso. apply (block_nonempty m' Hm').
    destruct m'; [reflexivity | discriminate].
  - remember (c :: s) as s0 eqn:Es.
    destruct H' as [| c' s' ms'' _ Hs' | m' t' ms'' Hm' _ _].
    + discriminate.
    + injection Es as E1 E2. subst c' s'. apply IH. exact Hs'.
    + exfalso. apply (Hno m' t'); [reflexivity | exact Hm'].
  - remember (m ++ t) as s0 eqn:Es.
    destruct H' as [| c' s' ms'' Hno' _ | m' t' ms'' Hm' Hlong' Hs'].
    + exfalso. apply (block_nonempty m Hm).
      destruct m; [reflexivity | discriminate].
    + exfalso. apply (Hno' m t); assumption.
    + assert (Hlen : length m = length m').
      { apply Nat.le_antisymm.
        - apply (Hlong' m t); assumption.
        - apply (Hlong m' t'); [reflexivity | assumption]. }
      destruct (app_same_length m m' t t' Hlen (eq_sym Es)) as [-> ->].
      f_equal. apply IH. assumption.
Qed.

Lemma fold_Rmax_max_of (l : list R) : fold_left Rmax l 0%R = max_of l.
Proof.
  unfold max_of. apply fold_symmetric.
  - intros x y z. apply Rmax_assoc.
  - intros y. apply Rmax_comm.
Qed.

(** X2: the encoded-block scanner finds exactly the blocks the pattern
    describes, from left to right: a block where one can start, as long
    as a block starting there can be, the search resuming after it.
    Whatever list of blocks meets this description, the scanner returns
    its length as [count], the sum of the block lengths as [size] and the
    largest block entropy (0 without blocks) as [maxEntropy]; and such a
    list exists for every text. *)
Theorem findBase64Blocks_scanned (text : jsstring) :
  (exists ms, scanned text ms)
  /\ (forall ms, scanned text ms ->
        findBase64Blocks text
        = mkBlocks (N.of_nat (length ms)) (N.of_nat (length (concat ms)))
            (max_of (map calculateEntropy ms))).
Proof.
  assert (Hscan : scanned text (matches base64Regex text))
    by (apply scan_scanned; lia).
  split; [exists (matches base64Regex text); exact Hscan|].
  intros ms Hms.
  rewrite (scanned_unique text ms Hms _ Hscan).
  unfold findBase64Blocks.
  destruct (fold_add_block (matches base64Regex text) no_blocks)
    as (Hc & Hs & He).
  cbn [count size maxEntropy no_blocks] in Hc, Hs, He.
  rewrite fold_Rmax_max_of in He.
  destruct (fold_left add_block (matches base64Regex text) no_blocks)
    as [c sz e].
  cbn [count size maxEntropy] in Hc, Hs, He. subst. f_equal; lia.
Qed.

Lemma findBase64Blocks_scanned_witness :
  findBase64Blocks forty_A
  = mkBlocks 1 40 (max_of [calculateEntropy forty_A]).
Proof.
  apply (proj2 (findBase64Blocks_scanned forty_A) [forty_A]).
  rewrite <- (app_nil_r forty_A) at 1.
  apply scanned_block.
  - exists forty_A, [], 10%nat.
    split; [symmetry; apply app_nil_r|].
    split; [|split; [reflexivity | split; [apply Nat.le_refl | apply pad_none]]].
    apply Forall_forall. intros c Hc.
    apply repeat_spec in Hc. subst c. reflexivity.
  - intros m' t' Heq _. rewrite app_nil_r in Heq.
    apply (f_equal (@length char)) in Heq.
    rewrite length_app in Heq. lia.
  - apply scanned_end.
Defined.

Lemma scanned_blocks (s : jsstring) (ms : list jsstring) :
  scanned s ms -> Forall b64_block ms.
Proof.
  induction 1; [constructor | assumption | constructor; assumption].
Qed.

Lemma b64_block_length (m : jsstring) : b64_block m -> (40 <= length m)%nat.
Proof.
  intros (body & pad & k & -> & _ & Hl & Hk & _). rewrite length_app. lia.
Qed.

Lemma scanned_none (text : jsstring) :
  (forall u m t, text = u ++ m ++ t -> ~ b64_block m) -> scanned text [].
Proof.
  induction text as [|c s IH]; intros H.
  - constructor.
  - apply scanned_skip.
    + intros m t E. apply (H [] m t). exact E.
    + apply IH. intros u m t E. apply (H (c :: u) m t).
      rewrite E. reflexivity.
Qed.

Lemma findBase64Blocks_of_matches (text : jsstring) :
  findBase64Blocks text
  = mkBlocks (N.of_nat (length (matches base64Regex text)))
      (N.of_nat (length (concat (matches base64Regex text))))
      (max_of (map calculateEntropy (matches base64Regex text))).
Proof.
  unfold findBase64Blocks.
  destruct (fold_add_block (matches base64Regex text) no_blocks)
    as (Hc & Hs & He).
  cbn [count size maxEntropy no_blocks] in Hc, Hs, He.
  rewrite fold_Rmax_max_of in He.
  destruct (fold_left add_block (matches base64Regex text) no_blocks)
    as [c sz e].
  cbn [count size maxEntropy] in Hc, Hs, He. subst. f_equal; lia.
Qed.

(** C4: the encoded-block scanner.  The blocks of a text are fixed by the
    pattern: going from left to right, a block is taken wherever one can
    start (at least ten groups of four base64 characters, then optionally
    two more and [==] or three more and [=]), as long as a block starting
    there can be, and the search resumes after it.  There is one such list
    of blocks for every text; every block has at least 40 characters; the
    scanner returns their number, the sum of their lengths and the largest
    of their entropies; for a text in which no block occurs it returns
    [{count: 0, size: 0, maxEntropy: 0}]. *)
Theorem findBase64Blocks_spec (text : jsstring) :
  (exists ms,
      scanned text ms
      /\ findBase64Blocks text
         = mkBlocks (N.of_nat (length ms)) (N.of_nat (length (concat ms)))
             (max_of (map calculateEntropy ms)))
  /\ (forall ms ms', scanned text ms -> scanned text ms' -> ms = ms')
  /\ (forall ms, scanned text ms ->
        Forall (fun m => b64_block m /\ (40 <= length m)%nat) ms)
  /\ ((forall u m t, text = u ++ m ++ t -> ~ b64_block m) ->
      findBase64Blocks text = no_blocks).
Proof.
  assert (Hscan : scanned text (matches base64Regex text))
    by (apply scan_scanned; lia).
  split; [|split; [|split]].
  - exists (matches base64Regex text).
    split; [exact Hscan | apply findBase64Blocks_of_matches].
  - intros ms ms' H H'. apply (scanned_unique text ms H ms' H').
  - intros ms H. apply scanned_blocks in H.
    apply Forall_forall. intros m Hm. rewrite Forall_forall in H.
    split; [apply H, Hm | apply b64_block_length, H, Hm].
  - intros Hnone.
    assert (E : [] = matches base64Regex text)
      by (apply (scanned_unique text [] (scanned_none text Hnone) _ Hscan)).
    rewrite findBase64Blocks_of_matches, <- E. reflexivity.
Qed.

Lemma findBase64Blocks_spec_witness :
  findBase64Blocks (lit "plain text") = no_blocks.
Proof.
  apply (findBase64Blocks_spec (lit "plain text")).
  intros u m t E Hb. apply b64_block_length in Hb.
  apply (f_equal (@length char)) in E. rewrite !length_app in E.
  cbn in E. lia.
Defined.

(* ================================================================= *)
(** ** Entropy: bounds and invariance *)

Section EntropyInvariance.
Local Open Scope R_scope.

Lemma probability_Permutation (s s' : jsstring) (c : char) :
  Permutation s s' -> probability s c = probability s' c.
Proof.
  intros HP. unfold probability.
  rewrite (Permutation_length HP).
  rewrite (proj1 (Permutation_count_occ char_eq_dec s s') HP c).
  reflexivity.
Qed.

Lemma nodup_Permutation (s s' : jsstring) :
  Permutation s s' ->
  Permutation (nodup char_eq_dec s) (nodup char_eq_dec s').
Proof.
  intros HP. apply NoDup_Permutation; try apply NoDup_nodup.
  intros c. rewrite !nodup_In. split; apply Permutation_in;
    [assumption | symmetry; assumption].
Qed.

(** X3: the entropy estimate lies between 0 and [log2] of the number of
    distinct characters of the string. *)
Theorem calculateEntropy_bounds (str : jsstring) :
  0 <= calculateEntropy str
  /\ (str <> [] -> calculateEntropy str <= log2 (INR (distinct str))).
Proof.
  rewrite calculateEntropy_shannon. split.
  - apply shannon_nonneg.
  - apply shannon_le_log2_distinct.
Qed.

Lemma calculateEntropy_bounds_witness :
  calculateEntropy (lit "hello") <= log2 4.
Proof.
  replace 4 with (INR (distinct (lit "hello"))) by (vm_compute; lra).
  apply (calculateEntropy_bounds (lit "hello")). discriminate.
Defined.

Lemma frequencies_by_counts (s : jsstring) :
  frequencies s
  = map (fun c => (c, count_occ char_eq_dec s c)) (keys (frequencies s)).
Proof.
  destruct (frequencies_spec s) as (Hnd & _ & Hc & _).
  rewrite (table_by_keys (frequencies s) Hnd) at 1.
  apply map_ext. intros c. rewrite Hc. reflexivity.
Qed.

(** X4: the frequency table of a rearranged string holds the same
    characters with the same counts, in another order, so that the entropy
    sum has the same terms; over the reals (in place of doubles) the
    entropy estimate is therefore the same.  The code adds the terms in
    doubles in the order of the table, so that its result for a rearranged
    string can differ in the last bits. *)
Theorem calculateEntropy_Permutation (s s' : jsstring) :
  Permutation s s' ->
  Permutation (frequencies s) (frequencies s')
  /\ length s = length s'
  /\ calculateEntropy s = calculateEntropy s'.
Proof.
  intros HP. split; [|split].
  - rewrite (frequencies_by_counts s), (frequencies_by_counts s').
    rewrite (map_ext _ (fun c => (c, count_occ char_eq_dec s' c)))
      by (intros c;
          rewrite (proj1 (Permutation_count_occ char_eq_dec s s') HP c);
          reflexivity).
    apply Permutation_map.
    rewrite (keys_Permutation s), (keys_Permutation s').
    apply nodup_Permutation. exact HP.
  - apply Permutation_length. exact HP.
  - rewrite !calculateEntropy_shannon. unfold shannon. f_equal.
    rewrite (Rsum_Permutation _ _
               (Permutation_map _ (nodup_Permutation s s' HP))).
    f_equal. apply map_ext. intros c.
    rewrite (probability_Permutation s s' c HP). reflexivity.
Qed.

Lemma calculateEntropy_Permutation_witness :
  Permutation (frequencies (lit "aab")) (frequencies (lit "baa"))
  /\ calculateEntropy (lit "aab") = calculateEntropy (lit "baa").
Proof.
  destruct (calculateEntropy_Permutation (lit "aab") (lit "baa"))
    as (H1 & _ & H3).
  - apply Permutation_sym. apply (Permutation_cons_append [_; _]).
  - split; assumption.
Defined.
End EntropyInvariance.

(* ================================================================= *)
(** ** The entropy score of a scan *)

Lemma base64Regex_classes : classes_within base64_symbol base64Regex.
Proof.
  assert (Hb : forall c, b64 c = true -> base64_symbol c)
    by (intros c H; left; exact H).
  assert (He : forall c, (code "=" =? c)%N = true -> base64_symbol c).
  { intros c H. right. apply N.eqb_eq in H. congruence. }
  unfold base64Regex, AtLeast, Opt. cbn -[b64 N.eqb code].
  repeat split; try exact Hb; try exact He.
Qed.

Lemma in_range_alphabet (lo hi : ascii) (c : char) (start len : nat) :
  N.to_nat (code lo) = start ->
  N.to_nat (code hi) = (start + len - 1)%nat -> (0 < len)%nat ->
  in_range lo hi c = true -> In c (map N.of_nat (seq start len)).
Proof.
  intros Hlo Hhi Hlen H. unfold in_range in H.
  apply andb_true_iff in H. destruct H as [H1 H2].
  apply N.leb_le in H1, H2.
  apply in_map_iff. exists (N.to_nat c). split; [apply N2Nat.id|].
  apply in_seq. lia.
Qed.

Lemma base64_symbol_alphabet (c : char) :
  base64_symbol c -> In c base64_alphabet.
Proof.
  unfold base64_symbol, base64_alphabet, b64. intros [H | ->].
  - repeat (apply orb_true_iff in H; destruct H as [H | H]).
    + apply in_or_app. left. rewrite !map_app. apply in_or_app. left.
      apply (in_range_alphabet "A" "Z"); try reflexivity; [lia | exact H].
    + apply in_or_app. left. rewrite !map_app. apply in_or_app. right.
      apply in_or_app. left.
      apply (in_range_alphabet "a" "z"); try reflexivity; [lia | exact H].
    + apply in_or_app. left. rewrite !map_app. apply in_or_app. right.
      apply in_or_app. right.
      apply (in_range_alphabet "0" "9"); try reflexivity; [lia | exact H].
    + apply in_or_app. right. left. symmetry. apply is_chr_eq. exact H.
    + apply in_or_app. right. right. left. symmetry. apply is_chr_eq.
      exact H.
  - apply in_or_app. right. right. right. left. reflexivity.
Qed.

Lemma distinct_base64 (m : jsstring) :
  Forall base64_symbol m -> (distinct m <= 65)%nat.
Proof.
  intros H. unfold distinct.
  change 65%nat with (length base64_alphabet).
  apply NoDup_incl_length; [apply NoDup_nodup|].
  intros c Hc. apply nodup_In in Hc.
  rewrite Forall_forall in H. apply base64_symbol_alphabet, H, Hc.
Qed.

Section EntropyScore.
Local Open Scope R_scope.

Lemma log2_65_le_7 : log2 65 <= 7.
Proof.
  replace 7 with (INR 7) by (simpl; lra).
  rewrite <- log2_pow2. apply log2_le; simpl; lra.
Qed.

Lemma block_entropy_bounds (m : jsstring) :
  Forall base64_symbol m -> 0 <= calculateEntropy m <= log2 65.
Proof.
  intros H.
  assert (H0 : 0 <= calculateEntropy m)
    by (rewrite calculateEntropy_shannon; apply shannon_nonneg).
  assert (Hle : m <> [] -> calculateEntropy m <= log2 (INR (distinct m)))
    by (rewrite calculateEntropy_shannon; apply shannon_le_log2_distinct).
  split; [exact H0|].
  destruct m as [|x m].
  - apply Rle_trans with (log2 1);
      [rewrite log2_1; apply Req_le; reflexivity | apply log2_le; lra].
  - eapply Rle_trans; [apply Hle; discriminate|].
    assert (Hd := distinct_base64 _ H).
    assert (Hpos : (0 < distinct (x :: m))%nat).
    { unfold distinct.
      destruct (nodup char_eq_dec (x :: m)) eqn:E; [|simpl; lia].
      assert (Hx : In x (nodup char_eq_dec (x :: m)))
        by (apply nodup_In; left; reflexivity).
      rewrite E in Hx. contradiction. }
    apply log2_le; [apply lt_0_INR, Hpos|].
    replace 65 with (INR 65) by (simpl; lra).
    apply le_INR, Hd.
Qed.

Lemma fold_Rmax_bounds (B : R) (l : list R) :
  Forall (fun x => 0 <= x <= B) l ->
  forall a, 0 <= a <= B -> 0 <= fold_left Rmax l a <= B.
Proof.
  induction 1 as [|x l Hx _ IH]; intros a Ha; simpl; [exact Ha|].
  apply IH. split.
  - eapply Rle_trans; [apply Ha | apply Rmax_l].
  - apply Rmax_lub; [apply Ha | apply Hx].
Qed.

Lemma findBase64Blocks_entropy (text : jsstring) :
  0 <= maxEntropy (findBase64Blocks text) <= log2 65.
Proof.
  unfold findBase64Blocks.
  destruct (fold_add_block (matches base64Regex text) no_blocks)
    as (_ & _ & He).
  rewrite He. cbn [maxEntropy no_blocks].
  apply fold_Rmax_bounds.
  - apply Forall_forall. intros e He'. apply in_map_iff in He'.
    destruct He' as (m & <- & Hm).
    apply block_entropy_bounds.
    assert (Hs := scan_sound base64_symbol base64Regex base64Regex_classes
                    (S (length text)) text).
    rewrite Forall_forall in Hs. apply Hs, Hm.
  - split; [lra|]. apply Rle_trans with (log2 1);
      [rewrite log2_1; lra | apply log2_le; lra].
Qed.

Lemma toFixed2_bounds (x : R) :
  0 <= x <= 7 -> (0 <= toFixed2 x /\ toFixed2 x <= 7)%Q.
Proof.
  intros [H0 H7]. unfold toFixed2.
  destruct (base_Int_part (x * 100 + / 2)) as [Hle Hgt].
  assert (Hz0 : (-1 < Int_part (x * 100 + / 2))%Z).
  { apply lt_IZR. lra. }
  assert (Hz7 : (Int_part (x * 100 + / 2) < 701)%Z).
  { apply lt_IZR. lra. }
  unfold Qle; simpl. lia.
Qed.

Lemma docx_entry_entropy (B : R) (st : St.t) (e : entry) :
  log2 65 <= B ->
  0 <= maxEntropy (St.base64Blocks st) <= B ->
  0 <= maxEntropy (St.base64Blocks (docx_entry st e)) <= B.
Proof.
  intros HB H. rewrite docx_entry_delta.
  unfold apply_delta, entry_delta. cbn [St.base64Blocks d_blocks].
  destruct (jsstring_eqb (entryName e) (lit "word/document.xml"));
    cbn [merge_blocks maxEntropy]; [|exact H].
  destruct (findBase64Blocks_entropy (getData e)) as [E0 E1].
  split.
  - eapply Rle_trans; [apply H | apply Rmax_l].
  - apply Rmax_lub; [apply H | lra].
Qed.

Lemma analyzeDocx_entropy (zipEntries : list entry) :
  0 <= maxEntropy (St.base64Blocks
                     (docx_finish (fold_left docx_entry zipEntries St.init)))
    <= log2 65.
Proof.
  assert (H : forall l st,
             0 <= maxEntropy (St.base64Blocks st) <= log2 65 ->
             0 <= maxEntropy (St.base64Blocks (fold_left docx_entry l st))
               <= log2 65).
  { induction l as [|e l IH]; intros st Hst; simpl; [exact Hst|].
    apply IH, docx_entry_entropy; [lra | exact Hst]. }
  unfold docx_finish.
  destruct (0 <? count _)%N; cbn [St.push St.base64Blocks]; apply H;
    cbn [St.init St.base64Blocks no_blocks maxEntropy];
    (split; [lra | apply Rle_trans with (log2 1);
                   [rewrite log2_1; lra | apply log2_le; lra]]).
Qed.

Lemma analyzeDocx_entropyScore (zipEntries : list entry) (fileSize : N) :
  (0 <= entropyScore (details (analyzeDocx zipEntries fileSize))
   /\ entropyScore (details (analyzeDocx zipEntries fileSize)) <= 8)%Q.
Proof.
  assert (H7 := log2_65_le_7).
  unfold analyzeDocx, result_of. cbn [details entropyScore].
  destruct (analyzeDocx_entropy zipEntries) as [H0 H1].
  destruct (toFixed2_bounds _ (conj H0 (Rle_trans _ _ _ H1 H7)))
    as [Hq0 Hq7].
  split; [exact Hq0|]. eapply Qle_trans; [exact Hq7 | discriminate].
Qed.

Lemma analyzePdf_entropyScore (rawString : jsstring) (data : pdf_data)
    (fileSize : N) :
  (0 <= entropyScore (details (analyzePdf rawString data fileSize))
   /\ entropyScore (details (analyzePdf rawString data fileSize)) <= 8)%Q.
Proof.
  assert (H7 := log2_65_le_7).
  rewrite analyzePdf_final. unfold result_of. cbn [details entropyScore].
  destruct (pdf_final_spec rawString data) as (Hb & _). rewrite Hb.
  destruct (findBase64Blocks_entropy (text data)) as [H0 H1].
  destruct (toFixed2_bounds _ (conj H0 (Rle_trans _ _ _ H1 H7)))
    as [Hq0 Hq7].
  split; [exact Hq0|]. eapply Qle_trans; [exact Hq7 | discriminate].
Qed.

(** X5: the entropy score a scan reports, DOCX or PDF, lies between 0 and
    8: it is the two-decimal rendering of the largest entropy of a block,
    every block is made of at most 65 distinct symbols, and so no block
    entropy exceeds [log2 65]. *)
Theorem entropyScore_bounds :
  (forall text, 0 <= maxEntropy (findBase64Blocks text) <= log2 65)
  /\ (forall zipEntries fileSize,
        (0 <= entropyScore (details (analyzeDocx zipEntries fileSize))
         /\ entropyScore (details (analyzeDocx zipEntries fileSize)) <= 8)%Q)
  /\ (forall rawString data fileSize,
        (0 <= entropyScore (details (analyzePdf rawString data fileSize))
         /\ entropyScore (details (analyzePdf rawString data fileSize))
            <= 8)%Q).
Proof.
  split.
  - intros text. apply findBase64Blocks_entropy.
  - split.
    + intros zipEntries fileSize. apply analyzeDocx_entropyScore.
    + intros rawString data fileSize. apply analyzePdf_entropyScore.
Qed.
(** C9: the entropy a scan reports lies between 0 and 8.  Every block the
    scanner matches is made of base64 symbols, of which there are 65, so
    that its entropy is at most [log2] of the number of its distinct
    characters and this number at most 65; the [maxEntropy] of a text is
    the largest entropy of its blocks, 0 without blocks; [log2 65] is below
    8; and the [entropyScore] in the details of a DOCX scan and of a PDF
    scan, its rendering with two decimals, lies in [0, 8]. *)
Theorem maxEntropy_range :
  (forall text m,
      In m (matches base64Regex text) ->
      0 <= calculateEntropy m <= log2 (INR (distinct m))
      /\ (distinct m <= 65)%nat)
  /\ (forall text,
        maxEntropy (findBase64Blocks text)
        = max_of (map calculateEntropy (matches base64Regex text)))
  /\ log2 65 <= 8
  /\ (forall zipEntries fileSize,
        (0 <= entropyScore (details (analyzeDocx zipEntries fileSize))
         /\ entropyScore (details (analyzeDocx zipEntries fileSize)) <= 8)%Q)
  /\ (forall rawString data fileSize,
        (0 <= entropyScore (details (analyzePdf rawString data fileSize))
         /\ entropyScore (details (analyzePdf rawString data fileSize))
            <= 8)%Q).
Proof.
  split; [|split; [|split; [|split]]].
  - intros text m Hm.
    assert (Hs := scan_sound base64_symbol base64Regex base64Regex_classes
                    (S (length text)) text).
    rewrite Forall_forall in Hs. assert (Hsym := Hs m Hm).
    assert (Hl := scan_base64_lengths (S (length text)) text).
    rewrite Forall_forall in Hl. destruct (Hl m Hm) as [H40 _].
    assert (Hne : m <> []) by (intros ->; simpl in H40; lia).
    rewrite calculateEntropy_shannon.
    split; [split|].
    + apply shannon_nonneg.
    + apply shannon_le_log2_distinct. exact Hne.
    + apply distinct_base64. exact Hsym.
  - intros text. unfold findBase64Blocks.
    destruct (fold_add_block (matches base64Regex text) no_blocks)
      as (_ & _ & He).
    rewrite He. cbn [maxEntropy no_blocks]. apply fold_Rmax_max_of.
  - assert (H7 := log2_65_le_7). lra.
  - intros zipEntries fileSize. apply analyzeDocx_entropyScore.
  - intros rawString data fileSize. apply analyzePdf_entropyScore.
Qed.

Lemma maxEntropy_range_witness :
  0 <= calculateEntropy forty_A <= log2 (INR (distinct forty_A)).
Proof.
  apply (proj1 maxEntropy_range forty_A forty_A).
  left. vm_compute. reflexivity.
Defined.
End EntropyScore.

(* ================================================================= *)
(** ** DOCX path: the counters as sums over the entries *)

Lemma sum_over_cons (f : entry -> N) (e : entry) (l : list entry) :
  sum_over f (e :: l) = (f e + sum_over f l)%N.
Proof. reflexivity. Qed.

Lemma sum_over_filter (p : entry -> bool) (f : entry -> N) (l : list entry) :
  sum_over f (filter p l) = sum_over (fun e => if p e then f e else 0%N) l.
Proof.
  induction l as [|e l IH]; simpl; [reflexivity|].
  destruct (p e); simpl; rewrite IH; reflexivity.
Qed.

Lemma count_where_sum (p : entry -> bool) (l : list entry) :
  count_where p l = sum_over (fun e => if p e then 1%N else 0%N) l.
Proof.
  unfold count_where. induction l as [|e l IH]; [reflexivity|].
  rewrite sum_over_cons, <- IH. cbn [filter].
  destruct (p e); cbn [length]; lia.
Qed.

Lemma sum_over_app (f : entry -> N) (l l' : list entry) :
  sum_over f (l ++ l') = (sum_over f l + sum_over f l')%N.
Proof.
  induction l as [|e l IH]; simpl; [reflexivity|]. rewrite IH. lia.
Qed.

(** The counters after the loop of [analyzeDocx], started from [st]. *)
Lemma fold_docx_sums (l : list entry) :
  forall st,
    let st' := fold_left docx_entry l st in
    St.hiddenTextSize st'
    = (St.hiddenTextSize st + sum_over (fun e => d_hidden (entry_delta e)) l)%N
    /\ St.embeddedFileSize st'
       = (St.embeddedFileSize st
          + sum_over (fun e => d_embedded (entry_delta e)) l)%N
    /\ St.commentsSize st'
       = (St.commentsSize st
          + sum_over (fun e => d_comments (entry_delta e)) l)%N
    /\ St.metadataScore st'
       = (St.metadataScore st + sum_over (fun e => d_meta (entry_delta e)) l)%N
    /\ St.embeddedObjectCount st'
       = (St.embeddedObjectCount st
          + sum_over (fun e => d_objects (entry_delta e)) l)%N
    /\ St.revisionHistoryCount st'
       = (St.revisionHistoryCount st
          + sum_over (fun e => d_revisions (entry_delta e)) l)%N
    /\ St.metadataFieldsExtracted st'
       = (St.metadataFieldsExtracted st
          + sum_over (fun e => d_fields (entry_delta e)) l)%N
    /\ count (St.base64Blocks st')
       = (count (St.base64Blocks st)
          + sum_over (fun e => match d_blocks (entry_delta e) with
                               | Some b => count b
                               | None => 0
                               end) l)%N
    /\ size (St.base64Blocks st')
       = (size (St.base64Blocks st)
          + sum_over (fun e => match d_blocks (entry_delta e) with
                               | Some b => size b
                               | None => 0
                               end) l)%N.
Proof.
  induction l as [|e l IH]; intros st.
  - simpl. repeat split; lia.
  - cbn [fold_left]. rewrite !sum_over_cons.
    destruct (IH (docx_entry st e))
      as (H1 & H2 & H3 & H4 & H5 & H6 & H7 & H8 & H9).
    cbv zeta. rewrite H1, H2, H3, H4, H5, H6, H7, H8, H9.
    rewrite docx_entry_delta. unfold apply_delta.
    cbn [St.hiddenTextSize St.embeddedFileSize St.commentsSize
         St.metadataScore St.embeddedObjectCount St.revisionHistoryCount
         St.metadataFieldsExtracted St.base64Blocks].
    destruct (d_blocks (entry_delta e)) as [b|];
      cbn [merge_blocks count size]; repeat split; lia.
Qed.

Lemma docx_finish_counters (st : St.t) :
  St.hiddenTextSize (docx_finish st) = St.hiddenTextSize st
  /\ St.embeddedFileSize (docx_finish st) = St.embeddedFileSize st
  /\ St.commentsSize (docx_finish st) = St.commentsSize st
  /\ St.metadataScore (docx_finish st) = St.metadataScore st
  /\ St.embeddedObjectCount (docx_finish st) = St.embeddedObjectCount st
  /\ St.revisionHistoryCount (docx_finish st) = St.revisionHistoryCount st
  /\ St.metadataFieldsExtracted (docx_finish st)
     = St.metadataFieldsExtracted st
  /\ St.base64Blocks (docx_finish st) = St.base64Blocks st.
Proof.
  unfold docx_finish. destruct (0 <? count (St.base64Blocks st))%N;
    repeat split.
Qed.

Lemma ins_markers_headed : Forall (headed (code "<")) revision_markers_ins.
Proof. repeat constructor; headed_marker. Qed.

Lemma del_markers_headed : Forall (headed (code "<")) revision_markers_del.
Proof. repeat constructor; headed_marker. Qed.

Lemma document_revisions_occurrences (e : entry) :
  document_revisions e = revision_occurrences (getData e).
Proof.
  unfold document_revisions, revision_occurrences, match_count.
  rewrite (match_count_occurrences _ _ insRegex (getData e)
             ins_markers_headed (Lit_matches_markers _)).
  rewrite (match_count_occurrences _ _ delRegex (getData e)
             del_markers_headed (Lit_matches_markers _)).
  lia.
Qed.

Lemma sum_over_ext (f g : entry -> N) (l : list entry) :
  (forall e, f e = g e) -> sum_over f l = sum_over g l.
Proof.
  intros H. induction l as [|e l IH]; simpl; [reflexivity|].
  rewrite H, IH. reflexivity.
Qed.

(** X6: every counter of a DOCX scan is a sum over the entries of the
    package: the comment bytes over the parts named [word/comments.xml],
    the embedded bytes (the sizes declared in the entry headers) and the
    object count over the entries under [word/embeddings/] or
    [word/media/], the metadata score (10 per part that names an author)
    and the tag count over the two [docProps] parts, the hidden-text and
    encoded-block figures over the parts named [word/document.xml]. *)
Theorem analyzeDocx_totals (zipEntries : list entry) (fileSize : N) :
  let a := analyzeDocx zipEntries fileSize in
  comments_size (breakdown a)
  = sum_over (fun e => jslength (getData e)) (filter is_comments zipEntries)
  /\ embedded_files (breakdown a)
     = sum_over header_size (filter is_embedded zipEntries)
  /\ embeddedObjectCount (details a) = count_where is_embedded zipEntries
  /\ metadata_score (breakdown a)
     = (10 * count_where (fun e => is_metadata e && names_author e)
               zipEntries)%N
  /\ metadataFieldsExtracted (details a)
     = sum_over (fun e => match_count tagRegex (getData e))
         (filter is_metadata zipEntries)
  /\ hidden_text (breakdown a)
     = sum_over
         (fun e => (total_length (matches vanishRegex (getData e))
                    + total_length (matches whiteRegex (getData e)))%N)
         (filter is_document zipEntries)
  /\ base64_blocks (breakdown a)
     = sum_over (fun e => size (findBase64Blocks (getData e)))
         (filter is_document zipEntries)
  /\ base64BlockCount (details a)
     = sum_over (fun e => count (findBase64Blocks (getData e)))
         (filter is_document zipEntries).
Proof.
  unfold analyzeDocx, result_of.
  cbn [comments_size embedded_files embeddedObjectCount metadata_score
       metadataFieldsExtracted hidden_text base64_blocks base64BlockCount
       breakdown details].
  destruct (docx_finish_counters (fold_left docx_entry zipEntries St.init))
    as (F1 & F2 & F3 & F4 & F5 & F6 & F7 & F8).
  rewrite F1, F2, F3, F4, F5, F7, F8.
  destruct (fold_docx_sums zipEntries St.init)
    as (H1 & H2 & H3 & H4 & H5 & H6 & H7 & H8 & H9).
  cbv zeta in H1, H2, H3, H4, H5, H6, H7, H8, H9.
  rewrite H1, H2, H3, H4, H5, H7, H8, H9.
  cbn [St.init St.hiddenTextSize St.embeddedFileSize St.commentsSize
       St.metadataScore St.embeddedObjectCount St.metadataFieldsExtracted
       St.base64Blocks no_blocks count size].
  rewrite !sum_over_filter, !count_where_sum, !N.add_0_l.
  repeat split; try (apply sum_over_ext; intros e; unfold entry_delta,
    is_comments, is_document, is_metadata, names_author;
    cbn [d_hidden d_embedded d_comments d_meta d_objects d_fields d_blocks];
    repeat match goal with
           | |- context [if ?b then _ else _] => destruct b
           end; reflexivity).
  generalize zipEntries as l. induction l as [|e l IH]; [reflexivity|].
  rewrite !sum_over_cons, IH.
  unfold entry_delta, is_metadata, names_author. cbn [d_meta].
  destruct (_ && _); lia.
Qed.

(** X7: the revision count of a DOCX scan is the number of positions, in
    the parts named [word/document.xml], at which the text [<w:ins] or
    [<w:del] starts, whatever follows it. *)
Theorem analyzeDocx_revisions (zipEntries : list entry) (fileSize : N) :
  revisionHistoryCount (details (analyzeDocx zipEntries fileSize))
  = sum_over (fun e => revision_occurrences (getData e))
      (filter is_document zipEntries).
Proof.
  unfold analyzeDocx, result_of. cbn [revisionHistoryCount details].
  destruct (docx_finish_counters (fold_left docx_entry zipEntries St.init))
    as (_ & _ & _ & _ & _ & F6 & _).
  rewrite F6.
  destruct (fold_docx_sums zipEntries St.init)
    as (_ & _ & _ & _ & _ & H6 & _).
  cbv zeta in H6. rewrite H6. cbn [St.init St.revisionHistoryCount].
  rewrite sum_over_filter, N.add_0_l.
  apply sum_over_ext. intros e. unfold entry_delta, is_document.
  cbn [d_revisions].
  destruct (jsstring_eqb _ _); [apply document_revisions_occurrences|].
  reflexivity.
Qed.

(* ================================================================= *)
(** ** DOCX path: the findings *)

(** Finding texts of different kinds differ within their first eight code
    units. *)
Ltac kinds_differ :=
  let H := fresh in
  intro H; apply (f_equal (firstn 8)) in H; vm_compute in H; discriminate H.

Lemma F_comments_distinct :
  F_embedded <> F_comments /\ F_vanish <> F_comments
  /\ F_white <> F_comments
  /\ (forall n, F_revisions n <> F_comments)
  /\ (forall n, F_blocks n <> F_comments).
Proof. repeat split; first [kinds_differ | intro n; kinds_differ]. Qed.

Lemma F_vanish_distinct :
  F_embedded <> F_vanish /\ F_comments <> F_vanish /\ F_white <> F_vanish
  /\ (forall n, F_revisions n <> F_vanish)
  /\ (forall n, F_blocks n <> F_vanish).
Proof. repeat split; first [kinds_differ | intro n; kinds_differ]. Qed.

Lemma F_white_distinct :
  F_embedded <> F_white /\ F_comments <> F_white /\ F_vanish <> F_white
  /\ (forall n, F_revisions n <> F_white)
  /\ (forall n, F_blocks n <> F_white).
Proof. repeat split; first [kinds_differ | intro n; kinds_differ]. Qed.

Lemma F_blocks_distinct (k : N) :
  F_embedded <> F_blocks k /\ F_comments <> F_blocks k
  /\ F_vanish <> F_blocks k /\ F_white <> F_blocks k
  /\ (forall n, F_revisions n <> F_blocks k).
Proof. repeat split; first [kinds_differ | intro n; kinds_differ]. Qed.

Lemma count_occ_single (x y : jsstring) :
  count_occ jsstring_eq_dec [y] x
  = if jsstring_eq_dec y x then 1%nat else 0%nat.
Proof. simpl. destruct (jsstring_eq_dec y x); reflexivity. Qed.

Lemma count_occ_other (x y : jsstring) (l : list jsstring) :
  y <> x -> count_occ jsstring_eq_dec (y :: l) x = count_occ jsstring_eq_dec l x.
Proof. intros H. apply count_occ_cons_neq. exact H. Qed.

(** How often a finding text other than the embedded-objects one occurs
    after the loop. *)
Lemma fold_docx_count (x : jsstring) :
  F_embedded <> x ->
  forall l st,
    count_occ jsstring_eq_dec (St.findings (fold_left docx_entry l st)) x
    = (count_occ jsstring_eq_dec (St.findings st) x
       + fold_right
           (fun e t =>
              count_occ jsstring_eq_dec (d_findings (entry_delta e)) x + t)
           0 l)%nat.
Proof.
  intros Hx. induction l as [|e l IH]; intros st; cbn [fold_left fold_right].
  - lia.
  - rewrite IH, docx_entry_delta. unfold apply_delta. cbn [St.findings].
    rewrite !count_occ_app.
    assert (H0 : count_occ jsstring_eq_dec
                   (embedded_finding (is_embedded e) (St.findings st)) x
                 = 0%nat).
    { unfold embedded_finding. destruct (_ && _); [|reflexivity].
      apply count_occ_other; exact Hx. }
    rewrite H0. lia.
Qed.

Lemma docx_finish_count (x : jsstring) (st : St.t) :
  (forall n, F_blocks n <> x) ->
  count_occ jsstring_eq_dec (St.findings (docx_finish st)) x
  = count_occ jsstring_eq_dec (St.findings st) x.
Proof.
  intros Hx. unfold docx_finish.
  destruct (0 <? count (St.base64Blocks st))%N; [|reflexivity].
  unfold St.push. cbn [St.findings].
  rewrite count_occ_app, (count_occ_other _ _ _ (Hx _)). simpl. lia.
Qed.

Lemma count_where_fold (p : entry -> bool) (l : list entry) :
  length (filter p l)
  = fold_right (fun e t => ((if p e then 1 else 0) + t)%nat) 0%nat l.
Proof.
  induction l as [|e l IH]; [reflexivity|]. cbn [filter fold_right].
  destruct (p e); cbn [length]; lia.
Qed.

Lemma fold_right_ext (f g : entry -> nat) (l : list entry) :
  (forall e, f e = g e) ->
  fold_right (fun e t => (f e + t)%nat) 0%nat l
  = fold_right (fun e t => (g e + t)%nat) 0%nat l.
Proof.
  intros H. induction l as [|e l IH]; [reflexivity|]. cbn [fold_right].
  rewrite H, IH. reflexivity.
Qed.

(** X8: in the findings of a DOCX scan the comments finding occurs once
    for every part named [word/comments.xml] that is longer than 500
    characters (a part of exactly 500 gives none), the hidden-text finding
    once for every part named [word/document.xml] with a match of the
    vanish pattern, the white-text finding once for every such part with a
    match of the white-colour pattern. *)
Theorem analyzeDocx_findings_census (zipEntries : list entry) (fileSize : N) :
  let found := findings (analyzeDocx zipEntries fileSize) in
  count_occ jsstring_eq_dec found F_comments
  = length (filter long_comments zipEntries)
  /\ count_occ jsstring_eq_dec found F_vanish
     = length (filter has_vanish zipEntries)
  /\ count_occ jsstring_eq_dec found F_white
     = length (filter has_white zipEntries).
Proof.
  destruct F_comments_distinct as (Ce & Cv & Cw & Cr & Cb).
  destruct F_vanish_distinct as (Ve & Vc & Vw & Vr & Vb).
  destruct F_white_distinct as (We & Wc & Wv & Wr & Wb).
  unfold analyzeDocx, result_of. cbn [findings].
  rewrite !docx_finish_count by assumption.
  rewrite !fold_docx_count by assumption.
  cbn [St.init St.findings count_occ]. rewrite !count_where_fold.
  repeat split; apply fold_right_ext; intros e;
    unfold entry_delta, comments_findings, document_findings, long_comments,
      has_vanish, has_white, is_comments, is_document;
    cbn [d_findings]; rewrite count_occ_app;
    destruct (jsstring_eqb (entryName e) (lit "word/comments.xml"));
    destruct (500 <? jslength (getData e))%N;
    destruct (jsstring_eqb (entryName e) (lit "word/document.xml"));
    cbn [andb]; rewrite ?count_occ_app;
    destruct (0 <? document_revisions e)%N;
    destruct (matches vanishRegex (getData e));
    destruct (matches whiteRegex (getData e));
    rewrite ?count_occ_single;
    repeat match goal with
           | |- context [jsstring_eq_dec ?a ?b] =>
               destruct (jsstring_eq_dec a b); try congruence
           end;
    try reflexivity;
    exfalso; eauto.
Qed.

(* ================================================================= *)
(** ** DOCX path: composing packages *)

(** The counters of a scan in terms of the entries, one at a time. *)
Lemma analyzeDocx_counters (l : list entry) (fileSize : N) :
  let a := analyzeDocx l fileSize in
  hidden_text (breakdown a) = sum_over (fun e => d_hidden (entry_delta e)) l
  /\ embedded_files (breakdown a)
     = sum_over (fun e => d_embedded (entry_delta e)) l
  /\ comments_size (breakdown a)
     = sum_over (fun e => d_comments (entry_delta e)) l
  /\ metadata_score (breakdown a)
     = sum_over (fun e => d_meta (entry_delta e)) l
  /\ embeddedObjectCount (details a)
     = sum_over (fun e => d_objects (entry_delta e)) l
  /\ revisionHistoryCount (details a)
     = sum_over (fun e => d_revisions (entry_delta e)) l
  /\ metadataFieldsExtracted (details a)
     = sum_over (fun e => d_fields (entry_delta e)) l
  /\ base64BlockCount (details a)
     = sum_over (fun e => match d_blocks (entry_delta e) with
                          | Some b => count b
                          | None => 0%N
                          end) l
  /\ base64_blocks (breakdown a)
     = sum_over (fun e => match d_blocks (entry_delta e) with
                          | Some b => size b
                          | None => 0%N
                          end) l.
Proof.
  unfold analyzeDocx, result_of.
  cbn [comments_size embedded_files embeddedObjectCount metadata_score
       metadataFieldsExtracted hidden_text base64_blocks base64BlockCount
       revisionHistoryCount breakdown details].
  destruct (docx_finish_counters (fold_left docx_entry l St.init))
    as (F1 & F2 & F3 & F4 & F5 & F6 & F7 & F8).
  rewrite F1, F2, F3, F4, F5, F6, F7, F8.
  destruct (fold_docx_sums l St.init)
    as (H1 & H2 & H3 & H4 & H5 & H6 & H7 & H8 & H9).
  cbv zeta in H1, H2, H3, H4, H5, H6, H7, H8, H9.
  rewrite H1, H2, H3, H4, H5, H6, H7, H8, H9.
  cbn [St.init St.hiddenTextSize St.embeddedFileSize St.commentsSize
       St.metadataScore St.embeddedObjectCount St.metadataFieldsExtracted
       St.revisionHistoryCount St.base64Blocks no_blocks count size].
  repeat split; apply N.add_0_l.
Qed.

(** X9: scanning two lists of entries as one package adds up their
    counters: each byte counter, the metadata score, each count of the
    details and [hiddenBytes] of the scan of [l ++ l'] is the sum of those
    of the scans of [l] and of [l']. *)
Theorem analyzeDocx_app (l l' : list entry) (fileSize : N) :
  let a := analyzeDocx (l ++ l') fileSize in
  let a1 := analyzeDocx l fileSize in
  let a2 := analyzeDocx l' fileSize in
  hiddenBytes a = (hiddenBytes a1 + hiddenBytes a2)%N
  /\ hidden_text (breakdown a)
     = (hidden_text (breakdown a1) + hidden_text (breakdown a2))%N
  /\ embedded_files (breakdown a)
     = (embedded_files (breakdown a1) + embedded_files (breakdown a2))%N
  /\ base64_blocks (breakdown a)
     = (base64_blocks (breakdown a1) + base64_blocks (breakdown a2))%N
  /\ comments_size (breakdown a)
     = (comments_size (breakdown a1) + comments_size (breakdown a2))%N
  /\ metadata_score (breakdown a)
     = (metadata_score (breakdown a1) + metadata_score (breakdown a2))%N
  /\ base64BlockCount (details a)
     = (base64BlockCount (details a1) + base64BlockCount (details a2))%N
  /\ embeddedObjectCount (details a)
     = (embeddedObjectCount (details a1) + embeddedObjectCount (details a2))%N
  /\ metadataFieldsExtracted (details a)
     = (metadataFieldsExtracted (details a1)
        + metadataFieldsExtracted (details a2))%N
  /\ revisionHistoryCount (details a)
     = (revisionHistoryCount (details a1)
        + revisionHistoryCount (details a2))%N.
Proof.
  intros a a1 a2.
  assert (Hsum : forall x,
             hiddenBytes (analyzeDocx x fileSize)
             = (hidden_text (breakdown (analyzeDocx x fileSize))
                + embedded_files (breakdown (analyzeDocx x fileSize))
                + base64_blocks (breakdown (analyzeDocx x fileSize))
                + comments_size (breakdown (analyzeDocx x fileSize)))%N)
    by reflexivity.
  destruct (analyzeDocx_counters (l ++ l') fileSize)
    as (A1 & A2 & A3 & A4 & A5 & A6 & A7 & A8 & A9).
  destruct (analyzeDocx_counters l fileSize)
    as (B1 & B2 & B3 & B4 & B5 & B6 & B7 & B8 & B9).
  destruct (analyzeDocx_counters l' fileSize)
    as (C1 & C2 & C3 & C4 & C5 & C6 & C7 & C8 & C9).
  cbv zeta in *. rewrite sum_over_app in A1, A2, A3, A4, A5, A6, A7, A8, A9.
  unfold a, a1, a2. rewrite !Hsum.
  repeat split; lia.
Qed.

Lemma docx_entry_other (st : St.t) (e : entry) :
  is_other e = true -> docx_entry st e = st.
Proof.
  unfold is_other. intros H. apply negb_true_iff in H.
  apply orb_false_iff in H. destruct H as [H Hmeta].
  apply orb_false_iff in H. destruct H as [H Hdoc].
  apply orb_false_iff in H. destruct H as [Hemb Hcom].
  unfold is_comments in Hcom. unfold is_document in Hdoc.
  unfold is_metadata in Hmeta.
  unfold docx_entry, check_metadata, check_document, check_comments,
    check_embedded.
  rewrite Hemb, Hcom, Hdoc, Hmeta. reflexivity.
Qed.

(** X10: an entry that is neither under [word/embeddings/] or
    [word/media/] nor named [word/comments.xml], [word/document.xml],
    [docProps/core.xml] or [docProps/app.xml] (names are compared exactly)
    has no influence on the result, wherever it stands in the package. *)
Theorem analyzeDocx_ignores_other (l1 l2 : list entry) (e : entry)
    (fileSize : N) :
  is_other e = true ->
  analyzeDocx (l1 ++ e :: l2) fileSize = analyzeDocx (l1 ++ l2) fileSize.
Proof.
  intros H. unfold analyzeDocx. rewrite !fold_left_app.
  cbn [fold_left]. rewrite (docx_entry_other _ e H). reflexivity.
Qed.

Lemma analyzeDocx_ignores_other_witness :
  analyzeDocx
    [comments_entry; mkEntry (lit "Word/Document.xml") 9 (lit "<w:ins>");
     media_entry] 10000
  = analyzeDocx [comments_entry; media_entry] 10000.
Proof.
  apply (analyzeDocx_ignores_other [comments_entry] [media_entry]).
  reflexivity.
Defined.

Lemma d_findings_kinds (e : entry) (f : jsstring) :
  In f (d_findings (entry_delta e)) ->
  f = F_comments \/ f = F_vanish \/ f = F_white
  \/ exists n, f = F_revisions n.
Proof.
  unfold entry_delta, comments_findings, document_findings.
  cbn [d_findings]. intros H. apply in_app_or in H. destruct H as [H | H].
  - destruct (_ && _); [|contradiction].
    destruct H as [<- | []]. left. reflexivity.
  - destruct (jsstring_eqb _ _); [|contradiction].
    apply in_app_or in H. destruct H as [H | H].
    + destruct (0 <? _)%N; [|contradiction].
      destruct H as [<- | []]. right. right. right. eexists. reflexivity.
    + apply in_app_or in H. destruct H as [H | H].
      * destruct (matches vanishRegex _); [contradiction|].
        destruct H as [<- | []]. right. left. reflexivity.
      * destruct (matches whiteRegex _); [contradiction|].
        destruct H as [<- | []]. right. right. left. reflexivity.
Qed.

(** X11: a DOCX scan that found encoded blocks ends its findings with the
    encoded-blocks finding, which names the total number of blocks of all
    document parts; no other finding of the scan is of that kind, and a
    scan without blocks has none. *)
Theorem analyzeDocx_blocks_finding (zipEntries : list entry) (fileSize : N) :
  let a := analyzeDocx zipEntries fileSize in
  exists before,
    (forall k, ~ In (F_blocks k) before)
    /\ findings a
       = before ++ (if (0 <? base64BlockCount (details a))%N
                    then [F_blocks (base64BlockCount (details a))]
                    else []).
Proof.
  unfold analyzeDocx, result_of. cbn [findings details base64BlockCount].
  set (st := fold_left docx_entry zipEntries St.init).
  exists (St.findings st). split.
  - intros k HIn.
    destruct (F_blocks_distinct k) as (Be & Bc & Bv & Bw & Br).
    apply (count_occ_In jsstring_eq_dec) in HIn.
    unfold st in HIn. rewrite (fold_docx_count _ Be) in HIn.
    cbn [St.init St.findings count_occ] in HIn.
    assert (H0 : forall l,
               fold_right
                 (fun e t =>
                    (count_occ jsstring_eq_dec (d_findings (entry_delta e))
                       (F_blocks k) + t)%nat) 0%nat l = 0%nat).
    { induction l as [|e l IH]; [reflexivity|]. cbn [fold_right].
      rewrite IH, Nat.add_0_r. apply count_occ_not_In. intros H.
      apply d_findings_kinds in H.
      destruct H as [H | [H | [H | [n H]]]]; symmetry in H; revert H;
        first [exact Bc | exact Bv | exact Bw | apply Br]. }
    rewrite H0 in HIn. lia.
  - destruct (docx_finish_counters st) as (_ & _ & _ & _ & _ & _ & _ & F8).
    rewrite F8. unfold docx_finish.
    destruct (0 <? count (St.base64Blocks st))%N;
      [reflexivity | symmetry; apply app_nil_r].
Qed.

(* ================================================================= *)
(** ** PDF path: metadata and findings *)

Lemma pdf_blocks_more (data : pdf_data) (st : St.t) :
  let st' := pdf_blocks data st in
  let b := findBase64Blocks (text data) in
  St.findings st'
  = St.findings st ++ (if (0 <? count b)%N then [F_blocks (count b)] else [])
  /\ St.metadataScore st' = St.metadataScore st
  /\ St.metadataFieldsExtracted st' = St.metadataFieldsExtracted st.
Proof.
  unfold pdf_blocks. cbv zeta.
  destruct (0 <? count (findBase64Blocks (text data)))%N;
    cbn [St.push St.findings St.metadataScore St.metadataFieldsExtracted];
    repeat split; symmetry; apply app_nil_r.
Qed.

Lemma pdf_metadata_more (data : pdf_data) (st : St.t) :
  let st' := pdf_metadata data st in
  St.findings st'
  = St.findings st
    ++ (if (10 <? St.metadataFieldsExtracted st)%N then [F_metadata] else [])
  /\ St.metadataScore st'
     = (St.metadataScore st + (if has_creator data then 10 else 0)
        + (if (10 <? St.metadataFieldsExtracted st)%N then 20 else 0))%N
  /\ St.metadataFieldsExtracted st' = St.metadataFieldsExtracted st.
Proof.
  unfold pdf_metadata, has_creator. cbv zeta.
  destruct (10 <? St.metadataFieldsExtracted st)%N;
    cbn [St.push St.findings St.metadataScore St.metadataFieldsExtracted];
    (split; [try reflexivity; symmetry; apply app_nil_r|]);
    (split; [|reflexivity]);
    destruct (info data) as [obj|];
    try destruct (truthy_field (lit "Creator") obj
                  || truthy_field (lit "Producer") obj); lia.
Qed.

Lemma pdf_marker_step_more (step : St.t -> St.t) (ms : list jsstring)
    (f : jsstring) (st : St.t) :
  (step st = match ms with
             | [] => st
             | _ => St.push f (St.mk (St.hiddenTextSize (step st))
                        (St.embeddedFileSize (step st))
                        (St.commentsSize (step st)) (St.base64Blocks st)
                        (St.metadataScore st)
                        (St.embeddedObjectCount (step st))
                        (St.revisionHistoryCount st)
                        (St.metadataFieldsExtracted st) (St.findings st))
             end) ->
  St.findings (step st)
  = St.findings st ++ (match ms with [] => [] | _ => [f] end)
  /\ St.metadataScore (step st) = St.metadataScore st
  /\ St.metadataFieldsExtracted (step st) = St.metadataFieldsExtracted st.
Proof.
  intros H. rewrite H. destruct ms;
    cbn [St.push St.findings St.metadataScore St.metadataFieldsExtracted];
    repeat split; symmetry; apply app_nil_r.
Qed.

Lemma pdf_embedded_more (rawString : jsstring) (st : St.t) :
  let st' := pdf_embedded rawString st in
  St.findings st'
  = St.findings st ++ (match matches embeddedRegex rawString with
                       | [] => []
                       | _ => [F_embedded]
                       end)
  /\ St.metadataScore st' = St.metadataScore st
  /\ St.metadataFieldsExtracted st' = St.metadataFieldsExtracted st.
Proof.
  apply pdf_marker_step_more. unfold pdf_embedded.
  destruct (matches embeddedRegex rawString); reflexivity.
Qed.

Lemma pdf_annots_more (rawString : jsstring) (st : St.t) :
  let st' := pdf_annots rawString st in
  St.findings st'
  = St.findings st ++ (match matches annotRegex rawString with
                       | [] => []
                       | _ => [F_annots]
                       end)
  /\ St.metadataScore st' = St.metadataScore st
  /\ St.metadataFieldsExtracted st' = St.metadataFieldsExtracted st.
Proof.
  apply pdf_marker_step_more. unfold pdf_annots.
  destruct (matches annotRegex rawString); reflexivity.
Qed.

Lemma pdf_invisible_more (rawString : jsstring) (st : St.t) :
  let st' := pdf_invisible rawString st in
  St.findings st'
  = St.findings st ++ (match matches trRegex rawString with
                       | [] => []
                       | _ => [F_invisible]
                       end)
  /\ St.metadataScore st' = St.metadataScore st
  /\ St.metadataFieldsExtracted st' = St.metadataFieldsExtracted st.
Proof.
  apply pdf_marker_step_more. unfold pdf_invisible.
  destruct (matches trRegex rawString); reflexivity.
Qed.

Lemma matches_nil_occurrences (c0 : char) (markers : list jsstring)
    (r : regex) (s : jsstring) (f : jsstring) :
  Forall (headed c0) markers -> matches_markers r markers ->
  match matches r s with [] => [] | _ => [f] end
  = if (occurrences markers s =? 0)%nat then [] else [f].
Proof.
  intros Hh Hr.
  rewrite <- (match_count_occurrences c0 markers r s Hh Hr).
  destruct (matches r s); reflexivity.
Qed.

Lemma pdf_final_more (rawString : jsstring) (data : pdf_data) :
  let st := pdf_final rawString data in
  let b := findBase64Blocks (text data) in
  St.findings st
  = (if (0 <? count b)%N then [F_blocks (count b)] else [])
    ++ (if (10 <? info_keys data)%N then [F_metadata] else [])
    ++ (if (occurrences embedded_markers rawString =? 0)%nat
        then [] else [F_embedded])
    ++ (if (occurrences annot_markers rawString =? 0)%nat
        then [] else [F_annots])
    ++ (if (occurrences tr_markers rawString =? 0)%nat
        then [] else [F_invisible])
  /\ St.metadataScore st
     = ((if has_creator data then 10 else 0)
        + (if (10 <? info_keys data)%N then 20 else 0))%N
  /\ St.metadataFieldsExtracted st = info_keys data.
Proof.
  unfold pdf_final. fold (info_keys data).
  set (st0 := St.mk _ _ _ _ _ _ _ _ _).
  assert (H0 : St.findings st0 = [] /\ St.metadataScore st0 = 0%N
               /\ St.metadataFieldsExtracted st0 = info_keys data)
    by (repeat split).
  clearbody st0. destruct H0 as (F0 & S0 & K0).
  destruct (pdf_blocks_more data st0) as (F1 & S1 & K1).
  set (st1 := pdf_blocks data st0) in *. clearbody st1.
  destruct (pdf_metadata_more data st1) as (F2 & S2 & K2).
  set (st2 := pdf_metadata data st1) in *. clearbody st2.
  destruct (pdf_embedded_more rawString st2) as (F3 & S3 & K3).
  set (st3 := pdf_embedded rawString st2) in *. clearbody st3.
  destruct (pdf_annots_more rawString st3) as (F4 & S4 & K4).
  set (st4 := pdf_annots rawString st3) in *. clearbody st4.
  destruct (pdf_invisible_more rawString st4) as (F5 & S5 & K5).
  set (st5 := pdf_invisible rawString st4) in *. clearbody st5.
  cbv zeta in *.
  rewrite (matches_nil_occurrences _ _ _ _ _ embedded_markers_headed
             (Alt_Lit_matches_markers _ _)) in F3.
  rewrite (matches_nil_occurrences _ _ _ _ _ annot_markers_headed
             (Lit_matches_markers _)) in F4.
  rewrite (matches_nil_occurrences _ _ _ _ _ tr_markers_headed
             (Lit_matches_markers _)) in F5.
  repeat split.
  - rewrite F5, F4, F3, F2, F1, F0, K1, K0. cbn [app].
    rewrite <- !app_assoc. reflexivity.
  - rewrite S5, S4, S3, S2, S1, S0, K1, K0. lia.
  - congruence.
Qed.

(** X12: a PDF scan takes its metadata from the info dictionary alone: the
    field count is the number of its keys (0 without a dictionary), the
    score is 10 for a non-empty [Creator] or [Producer] plus 20 for more
    than ten keys, and the metadata finding is reported exactly when there
    are more than ten keys (ten give none). *)
Theorem analyzePdf_metadata (rawString : jsstring) (data : pdf_data)
    (fileSize : N) :
  let a := analyzePdf rawString data fileSize in
  metadataFieldsExtracted (details a) = info_keys data
  /\ metadata_score (breakdown a)
     = ((if has_creator data then 10 else 0)
        + (if (10 <? info_keys data)%N then 20 else 0))%N
  /\ (In F_metadata (findings a) <-> (10 < info_keys data)%N).
Proof.
  rewrite analyzePdf_final. unfold result_of.
  cbn [metadataFieldsExtracted metadata_score details breakdown findings].
  destruct (pdf_final_more rawString data) as (F & S & K).
  split; [exact K|]. split; [exact S|].
  cbv zeta in F. rewrite F. rewrite !in_app_iff.
  destruct (10 <? info_keys data)%N eqn:E.
  - apply N.ltb_lt in E. split; [intros _; exact E|].
    intros _. right. left. left. reflexivity.
  - apply N.ltb_ge in E. split; [|lia].
    assert (Hone : forall (b : bool) (f : jsstring),
               f <> F_metadata ->
               ~ In F_metadata (if b then [] else [f])).
    { intros b f Hf H. destruct b; [destruct H|].
      destruct H as [H | H]; [exact (Hf H) | destruct H]. }
    intros [H | [H | [H | [H | H]]]]; exfalso.
    + destruct (0 <? _)%N; [|destruct H]. destruct H as [H | []].
      revert H. kinds_differ.
    + destruct H.
    + refine (Hone _ F_embedded _ H). kinds_differ.
    + refine (Hone _ F_annots _ H). kinds_differ.
    + refine (Hone _ F_invisible _ H). kinds_differ.
Qed.

(** X13: the findings of a PDF scan are, in this order and each at most
    once: the encoded-blocks finding (when the text layer holds a block),
    the metadata finding, the embedded-objects finding, the annotations
    finding and the invisible-text finding (each when its marker occurs in
    the raw bytes); so there are never more than five. *)
Theorem analyzePdf_findings (rawString : jsstring) (data : pdf_data)
    (fileSize : N) :
  let a := analyzePdf rawString data fileSize in
  let b := findBase64Blocks (text data) in
  findings a
  = (if (0 <? count b)%N then [F_blocks (count b)] else [])
    ++ (if (10 <? info_keys data)%N then [F_metadata] else [])
    ++ (if (occurrences embedded_markers rawString =? 0)%nat
        then [] else [F_embedded])
    ++ (if (occurrences annot_markers rawString =? 0)%nat
        then [] else [F_annots])
    ++ (if (occurrences tr_markers rawString =? 0)%nat
        then [] else [F_invisible])
  /\ (length (findings a) <= 5)%nat
  /\ base64BlockCount (details a) = count b
  /\ base64_blocks (breakdown a) = size b.
Proof.
  rewrite analyzePdf_final. unfold result_of.
  cbn [findings details breakdown base64BlockCount base64_blocks].
  destruct (pdf_final_more rawString data) as (F & _).
  destruct (pdf_final_spec rawString data) as (B & _).
  cbv zeta in F. rewrite F, B. split; [reflexivity|].
  split; [|split; reflexivity].
  rewrite !length_app.
  destruct (0 <? _)%N, (10 <? _)%N, (_ =? 0)%nat, (_ =? 0)%nat, (_ =? 0)%nat;
    simpl; lia.
Qed.

(* ================================================================= *)
(** ** Fallback risk scorer: what the adjustment does *)

Lemma fallback_riskScore (analysis : AnalysisResult) :
  riskScore (fallbackScore analysis)
  = Number.min
      (Number.max
         (if (0 <? length (findings analysis))%nat
             && Number.ltb (rawRiskScore analysis) (Number.Finite 10)
          then Number.add (rawRiskScore analysis) (Number.Finite 15)
          else rawRiskScore analysis)
         (Number.Finite 0))
      (Number.Finite 100).
Proof. reflexivity. Qed.

(** [Math.min(Math.max(x, 0), 100)] of a number at or above a bound within
    the range, and of a number within the range. *)
Lemma clamp_ge (c : Q) (x : number) :
  0 <= c -> c <= 100 -> Number.le (Number.Finite c) x ->
  Number.le (Number.Finite c)
    (Number.min (Number.max x (Number.Finite 0)) (Number.Finite 100)).
Proof. intros H0 H1 H. number_cases. Qed.

Lemma clamp_id (x : number) :
  Number.le (Number.Finite 0) x -> Number.lt x (Number.Finite 100) ->
  Number.min (Number.max x (Number.Finite 0)) (Number.Finite 100) = x.
Proof. intros H0 H1. number_cases. Qed.

Lemma clamp_bounds (x : number) :
  Number.le (Number.Finite 0) x ->
  Number.le (Number.Finite 0)
    (Number.min (Number.max x (Number.Finite 0)) (Number.Finite 100))
  /\ Number.le
       (Number.min (Number.max x (Number.Finite 0)) (Number.Finite 100))
       (Number.Finite 100).
Proof. intros H. split; number_cases. Qed.

(** A raw score in [0, 10) plus 15 lies in [15, 25]. *)
Lemma lifted_bounds (raw : number) :
  Number.le (Number.Finite 0) raw -> Number.lt raw (Number.Finite 10) ->
  Number.le (Number.Finite 15) (Number.add raw (Number.Finite 15))
  /\ Number.le (Number.add raw (Number.Finite 15)) (Number.Finite 25).
Proof.
  intros H0 H10. split.
  - apply (add_ge 15 0 15); [reflexivity | discriminate | exact H0|].
    reflexivity.
  - apply (add_le 25 10 15);
      [reflexivity | discriminate | apply lt_le; exact H10 | reflexivity
      | exact H0 | reflexivity].
Qed.

(** The adjusted score is not negative when the raw score is not. *)
Lemma adjusted_nonneg (raw : number) (found : bool) :
  Number.le (Number.Finite 0) raw ->
  Number.le (Number.Finite 0)
    (if found && Number.ltb raw (Number.Finite 10)
     then Number.add raw (Number.Finite 15) else raw).
Proof.
  intros H. destruct (found && Number.ltb raw (Number.Finite 10)) eqn:E;
    [|exact H].
  apply andb_true_iff in E. destruct E as [_ E].
  apply (le_trans _ (Number.Finite 15)); [reflexivity|].
  apply (lifted_bounds raw H E).
Qed.

(** The adjusted and clamped score is at least 10 when findings lift raw
    scores below 10. *)
Lemma adjusted_floor (raw : number) :
  Number.le (Number.Finite 0) raw ->
  Number.le (Number.Finite 10)
    (Number.min
       (Number.max
          (if Number.ltb raw (Number.Finite 10)
           then Number.add raw (Number.Finite 15) else raw)
          (Number.Finite 0))
       (Number.Finite 100)).
Proof.
  intros Hraw.
  apply (clamp_ge 10); [discriminate | discriminate|].
  destruct (Number.ltb raw (Number.Finite 10)) eqn:E.
  - apply (le_trans _ (Number.Finite 15)); [reflexivity|].
    apply (lifted_bounds raw Hraw E).
  - apply ltb_false; [apply (le_not_NaN _ _ Hraw) | discriminate | exact E].
Qed.

(** X14: when there is at least one finding and the raw score is not
    negative, the fallback score is at least 10: raw scores below 10 are
    lifted by 15. *)
Theorem fallbackScore_floor (analysis : AnalysisResult) :
  findings analysis <> [] ->
  Number.le (Number.Finite 0) (rawRiskScore analysis) ->
  Number.le (Number.Finite 10) (riskScore (fallbackScore analysis)).
Proof.
  intros Hf Hraw.
  rewrite fallback_riskScore, (proj1 (findings_nonempty analysis) Hf).
  cbn [andb]. apply adjusted_floor. exact Hraw.
Qed.

Lemma fallbackScore_floor_witness :
  Number.le (Number.Finite 10) (riskScore (fallbackScore light_analysis)).
Proof.
  apply fallbackScore_floor; [discriminate|].
  vm_compute. reflexivity.
Defined.

(** X15: the fallback score is not monotone in the signals: with findings
    present, any raw score in [0, 10) ends above any raw score in
    [10, 15). *)
Theorem fallbackScore_not_monotone (a a' : AnalysisResult) :
  findings a <> [] -> findings a' <> [] ->
  Number.le (Number.Finite 0) (rawRiskScore a) ->
  Number.lt (rawRiskScore a) (Number.Finite 10) ->
  Number.le (Number.Finite 10) (rawRiskScore a') ->
  Number.lt (rawRiskScore a') (Number.Finite 15) ->
  Number.lt (riskScore (fallbackScore a')) (riskScore (fallbackScore a)).
Proof.
  intros Hf Hf' H0 H10 H10' H15'.
  rewrite !fallback_riskScore.
  rewrite (proj1 (findings_nonempty a) Hf), (proj1 (findings_nonempty a') Hf').
  cbn [andb]. unfold Number.lt in H10. rewrite H10.
  rewrite (ltb_le_false _ _ H10').
  destruct (lifted_bounds (rawRiskScore a) H0 H10) as [Hlow Hhigh].
  rewrite (clamp_id (Number.add (rawRiskScore a) (Number.Finite 15))).
  - rewrite (clamp_id (rawRiskScore a')).
    + apply (lt_le_trans _ (Number.Finite 15)); assumption.
    + apply (le_trans _ (Number.Finite 10)); [reflexivity | exact H10'].
    + apply (lt_le_trans _ (Number.Finite 15)); [exact H15' | reflexivity].
  - apply (le_trans _ (Number.Finite 15)); [reflexivity | exact Hlow].
  - apply (le_lt_trans _ (Number.Finite 25)); [exact Hhigh | reflexivity].
Qed.

Lemma fallbackScore_not_monotone_witness :
  Number.lt (hiddenRatio light_analysis) (hiddenRatio heavier_analysis)
  /\ Number.lt (riskScore (fallbackScore heavier_analysis))
       (riskScore (fallbackScore light_analysis)).
Proof.
  split; [reflexivity|].
  apply fallbackScore_not_monotone;
    first [discriminate | (vm_compute; reflexivity)].
Defined.

(* ================================================================= *)
(** ** Fallback risk scorer on the results of a scan *)

(** The raw score is at least what the hidden ratio contributes: the other
    three terms are not negative, and rounding is monotone. *)
Lemma rawRiskScore_lower (c h : Q) (analysis : AnalysisResult) :
  Number.round c = Number.Finite c -> c <= h * 2 ->
  Number.le (Number.Finite h) (hiddenRatio analysis) ->
  0 <= entropyScore (details analysis) ->
  Number.le (Number.Finite c) (rawRiskScore analysis).
Proof.
  intros Hc Hch Hr He. unfold rawRiskScore. cbv zeta.
  change (Number.round (1 # 10))
    with (Number.Finite (3602879701896397 # 36028797018963968)).
  apply (add_ge c c 0); [exact Hc | lra | |].
  - apply (add_ge c c 0); [exact Hc | lra | |].
    + apply (add_ge c c 0); [exact Hc | lra | |].
      * apply (mul_ge c h 2); [exact Hc | reflexivity | exact Hch | exact Hr].
      * apply (mul_ge 0 0 20); [reflexivity | reflexivity | discriminate|].
        destruct (0 <? embeddedObjectCount (details analysis))%N;
          reflexivity.
    + apply (mul_ge 0 0 2); [reflexivity | reflexivity | discriminate|].
      apply round_ge; [reflexivity | exact He].
  - apply (mul_ge 0 0 (3602879701896397 # 36028797018963968));
      [reflexivity | reflexivity | discriminate|].
    unfold Number.of_N, Number.le. cbn [Number.leb].
    apply Qle_bool_iff. apply of_N_nonneg.
Qed.

Lemma scan_aggregated (a : AnalysisResult) (fileSize : N) :
  (0 < fileSize)%N -> scan_result a fileSize -> aggregated a fileSize.
Proof.
  intros Hpos [(l & ->) | (raw & data & ->)];
    apply result_of_aggregated; exact Hpos.
Qed.

Lemma scan_entropyScore (a : AnalysisResult) (fileSize : N) :
  scan_result a fileSize ->
  0 <= entropyScore (details a) /\ entropyScore (details a) <= 8.
Proof.
  intros [(l & ->) | (raw & data & ->)];
    [apply analyzeDocx_entropyScore | apply analyzePdf_entropyScore].
Qed.

(** The level of the fallback verdict by the score, and the range of the
    score. *)
Lemma fallback_level (analysis : AnalysisResult) :
  let v := fallbackScore analysis in
  (riskScore v = Number.NaN
   \/ (Number.le (Number.Finite 0) (riskScore v)
       /\ Number.le (riskScore v) (Number.Finite 100)))
  /\ (riskLevel v = lit "HIGH" <-> Number.le (Number.Finite 70) (riskScore v))
  /\ (riskLevel v = lit "MEDIUM"
      <-> Number.le (Number.Finite 30) (riskScore v)
          /\ Number.lt (riskScore v) (Number.Finite 70))
  /\ (riskLevel v = lit "LOW"
      <-> Number.lt (riskScore v) (Number.Finite 30)
          \/ riskScore v = Number.NaN).
Proof.
  cbv zeta. split.
  - rewrite fallback_riskScore. apply clamp_range.
  - apply (level_cases (riskScore (fallbackScore analysis))).
Qed.

(** With a raw score that is not negative the fallback score is a number
    of the range. *)
Lemma fallback_range (analysis : AnalysisResult) :
  Number.le (Number.Finite 0) (rawRiskScore analysis) ->
  Number.le (Number.Finite 0) (riskScore (fallbackScore analysis))
  /\ Number.le (riskScore (fallbackScore analysis)) (Number.Finite 100).
Proof.
  intros H. rewrite fallback_riskScore. apply clamp_bounds.
  apply adjusted_nonneg. exact H.
Qed.

Lemma fallback_high (analysis : AnalysisResult) :
  0 <= entropyScore (details analysis) ->
  Number.le (Number.Finite 35) (hiddenRatio analysis) ->
  riskLevel (fallbackScore analysis) = lit "HIGH".
Proof.
  intros He H35.
  assert (H70 : Number.le (Number.Finite 70) (rawRiskScore analysis)).
  { apply (rawRiskScore_lower 70 35 analysis);
      [reflexivity | discriminate | exact H35 | exact He]. }
  apply (fallback_level analysis).
  rewrite fallback_riskScore.
  assert (E : Number.ltb (rawRiskScore analysis) (Number.Finite 10) = false).
  { apply ltb_le_false.
    apply (le_trans _ (Number.Finite 70)); [reflexivity | exact H70]. }
  rewrite E, andb_false_r.
  apply (clamp_ge 70); [discriminate | discriminate | exact H70].
Qed.

(** X16: on the result of a scan of a file of positive size the raw score
    of the fallback scorer is never negative, so the lower clamp never
    acts; a hidden ratio of 35 per cent or more is rated HIGH whatever the
    other signals, and any finding lifts the score to 10 at least. *)
Theorem fallbackScore_on_scan (a : AnalysisResult) (fileSize : N) :
  (0 < fileSize)%N -> scan_result a fileSize ->
  Number.le (Number.Finite 0) (rawRiskScore a)
  /\ (Number.le (Number.Finite 35) (hiddenRatio a) ->
      riskLevel (fallbackScore a) = lit "HIGH")
  /\ (findings a <> [] ->
      Number.le (Number.Finite 10) (riskScore (fallbackScore a))).
Proof.
  intros Hpos Hscan.
  assert (Hr : Number.le (Number.Finite 0) (hiddenRatio a))
    by apply (scan_aggregated a fileSize Hpos Hscan).
  assert (He : 0 <= entropyScore (details a))
    by apply (scan_entropyScore a fileSize Hscan).
  assert (Hraw : Number.le (Number.Finite 0) (rawRiskScore a)).
  { apply (rawRiskScore_lower 0 0 a);
      [reflexivity | discriminate | exact Hr | exact He]. }
  split; [exact Hraw|]. split.
  - apply (fallback_high a He).
  - intros Hf.
    rewrite fallback_riskScore, (proj1 (findings_nonempty a) Hf).
    cbn [andb]. apply adjusted_floor. exact Hraw.
Qed.

Lemma fallbackScore_on_scan_witness :
  riskLevel (fallbackScore (analyzeDocx [oversized_entry] 100)) = lit "HIGH".
Proof.
  apply (fallbackScore_on_scan (analyzeDocx [oversized_entry] 100) 100).
  - reflexivity.
  - left. exists [oversized_entry]. reflexivity.
  - vm_compute. reflexivity.
Defined.

(* ================================================================= *)
(** ** The handler *)

Lemma existsSync_In (p : jsstring) (d : disk) :
  existsSync p d = true <-> In p d.
Proof. apply includes_In. Qed.

Lemma unlinkSync_present (p : jsstring) (d : disk) :
  In p d -> unlinkSync p d = Some (remove jsstring_eq_dec p d).
Proof.
  intros H. unfold unlinkSync.
  rewrite (proj2 (existsSync_In p d) H). reflexivity.
Qed.

(** The disk after any path through the handler that touches it. *)
Lemma handle_disk (file : File.t) (ext : jsstring) (libs : libraries)
    (o : oracle_outcome) (d : disk) :
  In (File.path file) d ->
  snd (handle (Some file) ext libs o d)
  = remove jsstring_eq_dec (File.path file) d
  /\ fst (handle (Some file) ext libs o d) <> Unanswered.
Proof.
  intros H. unfold handle, analysis_failed.
  rewrite (unlinkSync_present _ _ H), (proj2 (existsSync_In _ _) H).
  destruct (negb _ && negb _); [split; [reflexivity | discriminate]|].
  cbv zeta.
  destruct (if jsstring_eqb ext (lit ".docx") then _ else _);
    split; first [reflexivity | discriminate].
Qed.

(** X18: a request that carries a file stored on the disk is always
    answered, and afterwards that file is gone from the disk while every
    other file is still there: on a rejected extension, on success and on
    a failed analysis alike. *)
Theorem handle_cleans_up (file : File.t) (ext : jsstring) (libs : libraries)
    (o : oracle_outcome) (d : disk) :
  In (File.path file) d ->
  let result := handle (Some file) ext libs o d in
  fst result <> Unanswered
  /\ ~ In (File.path file) (snd result)
  /\ (forall p, p <> File.path file -> (In p (snd result) <-> In p d)).
Proof.
  intros H. cbv zeta.
  destruct (handle_disk file ext libs o d H) as [Hd Hr].
  rewrite Hd. split; [exact Hr|]. split.
  - apply remove_In.
  - intros p Hp. split.
    + intros HIn. apply in_remove in HIn. apply HIn.
    + intros HIn. apply in_in_remove; assumption.
Qed.

Lemma handle_cleans_up_witness :
  ~ In (File.path sample_upload)
      (snd (handle (Some sample_upload) (lit ".pdf") sample_libraries
              Rejected [lit "uploads/zz99"; lit "uploads/ab12"])).
Proof.
  assert (H : In (File.path sample_upload)
                [lit "uploads/zz99"; lit "uploads/ab12"])
    by (right; left; reflexivity).
  destruct (handle_cleans_up sample_upload (lit ".pdf") sample_libraries
              Rejected [lit "uploads/zz99"; lit "uploads/ab12"] H)
    as (_ & Hgone & _).
  exact Hgone.
Defined.

Lemma supported_dec (ext : jsstring) :
  negb (jsstring_eqb ext (lit ".pdf")) && negb (jsstring_eqb ext (lit ".docx"))
  = false <-> supported ext.
Proof.
  unfold supported.
  destruct (jsstring_eqb ext (lit ".pdf")) eqn:Ep;
    destruct (jsstring_eqb ext (lit ".docx")) eqn:Ed; cbn [negb andb];
    try apply jsstring_eqb_eq in Ep; try apply jsstring_eqb_eq in Ed;
    split; auto; try discriminate.
  intros [H | H]; apply jsstring_eqb_eq in H; congruence.
Qed.

(** The reply to a request whose file is on the disk. *)
Lemma handle_reply (file : File.t) (ext : jsstring) (libs : libraries)
    (o : oracle_outcome) (d : disk) :
  In (File.path file) d ->
  fst (handle (Some file) ext libs o d)
  = if negb (jsstring_eqb ext (lit ".pdf"))
       && negb (jsstring_eqb ext (lit ".docx"))
    then Error 400
           (lit "Unsupported file type. Only PDF and DOCX are allowed.")
    else match analysis_for file ext libs with
         | Some analysis => Json (response_body file analysis o)
         | None => Error 500 (lit "Failed to analyze file")
         end.
Proof.
  intros H. unfold handle, analysis_failed, analysis_for, response_body.
  rewrite (unlinkSync_present _ _ H).
  destruct (negb _ && negb _); [reflexivity|]. cbv zeta.
  destruct (if jsstring_eqb ext (lit ".docx") then _ else _); reflexivity.
Qed.

(** X19: the reply to an upload.  Without a file: 400 and the disk is
    left alone.  With a file: 400 exactly when the lower-cased extension
    is neither [.pdf] nor [.docx]; 500 exactly when the extension is
    accepted and the library that reads that format fails; otherwise 200
    with the body built from the analysis the extension selects - the
    content of the file plays no part in the choice. *)
Theorem handle_status (file : File.t) (ext : jsstring) (libs : libraries)
    (o : oracle_outcome) (d : disk) :
  handle None ext libs o d = (Error 400 (lit "No file uploaded"), d)
  /\ (In (File.path file) d ->
      let r := fst (handle (Some file) ext libs o d) in
      (r = Error 400
             (lit "Unsupported file type. Only PDF and DOCX are allowed.")
       <-> ~ supported ext)
      /\ (r = Error 500 (lit "Failed to analyze file")
          <-> supported ext /\ analysis_for file ext libs = None)
      /\ (forall analysis,
            supported ext -> analysis_for file ext libs = Some analysis ->
            r = Json (response_body file analysis o))
      /\ (ext = lit ".docx" ->
          analysis_for file ext libs
          = option_map (fun l => analyzeDocx l (File.size file)) (zip libs))
      /\ (ext = lit ".pdf" ->
          analysis_for file ext libs
          = option_map
              (fun rd => analyzePdf (fst rd) (snd rd) (File.size file))
              (pdf libs))).
Proof.
  split; [reflexivity|]. intros H. cbv zeta.
  rewrite (handle_reply file ext libs o d H).
  assert (Hs := supported_dec ext).
  destruct (negb _ && negb _) eqn:E.
  - assert (Hn : ~ supported ext)
      by (intros Hsup; apply Hs in Hsup; discriminate).
    split; [tauto|]. split; [split; [discriminate | tauto]|].
    split; [tauto|]. split; intros ->; exfalso; apply Hn;
      [right | left]; reflexivity.
  - assert (Hy : supported ext) by (apply Hs; reflexivity).
    split; [|split; [|split; [|split]]].
    + split; [|tauto].
      destruct (analysis_for file ext libs); discriminate.
    + destruct (analysis_for file ext libs);
        split; try discriminate; try tauto.
      intros [_ Hnone]. discriminate.
    + intros analysis _ ->. reflexivity.
    + intros ->. reflexivity.
    + intros ->. reflexivity.
Qed.

Lemma handle_status_witness :
  fst (handle (Some sample_upload) (lit ".docx") sample_libraries Rejected
         [lit "uploads/ab12"])
  = Error 500 (lit "Failed to analyze file").
Proof.
  assert (H : In (File.path sample_upload) [lit "uploads/ab12"])
    by (left; reflexivity).
  destruct (handle_status sample_upload (lit ".docx") sample_libraries
              Rejected [lit "uploads/ab12"]) as (_ & Hs).
  destruct (Hs H) as (_ & H500 & _).
  apply H500. split; [right; reflexivity | reflexivity].
Defined.

(** X20: the oracle bears on the four verdict members only: whatever it
    answers, the status, the state of the disk and the other members of
    the body (name, size, hidden bytes and ratio, breakdown, findings and
    details) are the same. *)
Theorem handle_oracle_frame (req_file : option File.t) (ext : jsstring)
    (libs : libraries) (o o' : oracle_outcome) (d : disk) :
  let r := handle req_file ext libs o d in
  let r' := handle req_file ext libs o' d in
  snd r = snd r'
  /\ match fst r, fst r' with
     | Json b, Json b' =>
         file_name b = file_name b' /\ file_size b = file_size b'
         /\ hidden_bytes b = hidden_bytes b'
         /\ hidden_ratio b = hidden_ratio b'
         /\ r_breakdown b = r_breakdown b' /\ r_findings b = r_findings b'
         /\ r_details b = r_details b'
     | Error st m, Error st' m' => st = st' /\ m = m'
     | Unanswered, Unanswered => True
     | _, _ => False
     end.
Proof.
  cbv zeta. unfold handle, analysis_failed.
  destruct req_file as [file|]; [|repeat split].
  destruct (negb _ && negb _).
  - destruct (unlinkSync (File.path file) d); repeat split.
  - cbv zeta.
    destruct (if jsstring_eqb ext (lit ".docx") then _ else _);
      [|repeat split].
    destruct (unlinkSync (File.path file) d); repeat split.
Qed.

Lemma analysis_for_scan (file : File.t) (ext : jsstring) (libs : libraries)
    (analysis : AnalysisResult) :
  analysis_for file ext libs = Some analysis ->
  scan_result analysis (File.size file).
Proof.
  unfold analysis_for, scan_result.
  destruct (jsstring_eqb ext (lit ".docx")).
  - destruct (zip libs) as [l|]; [|discriminate].
    cbn [option_map]. intros H. left. exists l. congruence.
  - destruct (jsstring_eqb ext (lit ".pdf")); [|discriminate].
    destruct (pdf libs) as [[raw data]|]; [|discriminate].
    cbn [option_map fst snd]. intros H. right. exists raw, data. congruence.
Qed.

Lemma handle_json (file : File.t) (ext : jsstring) (libs : libraries)
    (o : oracle_outcome) (d : disk) (body : response) :
  In (File.path file) d ->
  fst (handle (Some file) ext libs o d) = Json body ->
  exists analysis,
    analysis_for file ext libs = Some analysis
    /\ body = response_body file analysis o.
Proof.
  intros H. rewrite (handle_reply file ext libs o d H).
  destruct (negb _ && negb _); [discriminate|].
  destruct (analysis_for file ext libs) as [analysis|]; [|discriminate].
  intros Hb. exists analysis. split; [reflexivity | congruence].
Qed.

(** X21: when the oracle cannot be reached, every 200 reply for a file of
    positive size is well formed: [hidden_bytes] is the sum of the four
    byte counters of the breakdown, [hidden_ratio] lies in [0, 100], the
    risk score is a number in [0, 100], the risk level is LOW, MEDIUM or
    HIGH, the confidence is a number from 80 to 99, and the entropy score
    of the details lies in [0, 8]. *)
Theorem handle_fallback_reply (file : File.t) (ext : jsstring)
    (libs : libraries) (d : disk) (body : response) :
  In (File.path file) d -> (0 < File.size file)%N ->
  fst (handle (Some file) ext libs Rejected d) = Json body ->
  hidden_bytes body
  = (hidden_text (r_breakdown body) + embedded_files (r_breakdown body)
     + base64_blocks (r_breakdown body) + comments_size (r_breakdown body))%N
  /\ (Number.le (Number.Finite 0) (hidden_ratio body)
      /\ Number.le (hidden_ratio body) (Number.Finite 100))
  /\ (exists score,
        risk_score body = Some (JNum score)
        /\ Number.le (Number.Finite 0) score
        /\ Number.le score (Number.Finite 100))
  /\ (exists level,
        risk_level body = Some (JStr level)
        /\ (level = lit "LOW" \/ level = lit "MEDIUM" \/ level = lit "HIGH"))
  /\ (exists c,
        r_confidence body = Some (JNum (Number.of_N c)) /\ (80 <= c <= 99)%N)
  /\ (0 <= entropyScore (r_details body)
      /\ entropyScore (r_details body) <= 8).
Proof.
  intros Hd Hpos Hr.
  destruct (handle_json file ext libs Rejected d body Hd Hr)
    as (a & Ha & ->).
  assert (Hscan := analysis_for_scan file ext libs a Ha).
  unfold response_body. cbv zeta.
  cbn [hidden_bytes hidden_ratio r_breakdown risk_score risk_level
       r_confidence r_details].
  destruct (scan_aggregated a (File.size file) Hpos Hscan)
    as (Hsum & _ & Hratio & _).
  assert (He := scan_entropyScore a (File.size file) Hscan).
  assert (Hraw : Number.le (Number.Finite 0) (rawRiskScore a)).
  { apply (rawRiskScore_lower 0 0 a);
      [reflexivity | discriminate | apply Hratio | apply He]. }
  split; [exact Hsum|]. split; [exact Hratio|]. split; [|split; [|split]].
  - exists (riskScore (fallbackScore a)).
    split; [reflexivity | apply fallback_range; exact Hraw].
  - exists (riskLevel (fallbackScore a)). split; [reflexivity|].
    unfold fallbackScore. cbn [riskLevel].
    destruct (Number.leb (Number.Finite 70) _); [right; right; reflexivity|].
    destruct (Number.leb (Number.Finite 30) _); [right; left | left];
      reflexivity.
  - exists (confidence (fallbackScore a)). split; [reflexivity|].
    unfold fallbackScore. cbn [confidence]. lia.
  - exact He.
Qed.

Lemma handle_fallback_reply_witness :
  exists score,
    risk_score (response_body sample_upload
                  (analyzePdf three_markers_pdf no_text 4096) Rejected)
    = Some (JNum score)
    /\ Number.le (Number.Finite 0) score
    /\ Number.le score (Number.Finite 100).
Proof.
  assert (H : In (File.path sample_upload) [lit "uploads/ab12"])
    by (left; reflexivity).
  assert (Hr : fst (handle (Some sample_upload) (lit ".pdf") sample_libraries
                      Rejected [lit "uploads/ab12"])
               = Json (response_body sample_upload
                         (analyzePdf three_markers_pdf no_text 4096)
                         Rejected)).
  { rewrite (handle_reply _ _ _ _ _ H). reflexivity. }
  destruct (handle_fallback_reply sample_upload (lit ".pdf")
              sample_libraries [lit "uploads/ab12"] _ H eq_refl Hr)
    as (_ & _ & Hs & _).
  exact Hs.
Defined.

(* ================================================================= *)
(** ** The dashboard on the results of the server *)

Lemma percentage_bounds (value total : N) :
  (value <= total)%N ->
  Number.le (Number.Finite 0) (percentage value total)
  /\ Number.le (percentage value total) (Number.Finite 100).
Proof.
  intros Hle. unfold percentage.
  destruct (0 <? total)%N eqn:E; [|split; reflexivity].
  apply N.ltb_lt in E. split.
  - apply (mul_ge 0 0 100); [reflexivity | reflexivity | discriminate|].
    apply quotient_nonneg. exact E.
  - apply (mul_le 100 1 100); [reflexivity | reflexivity | discriminate | |].
    + apply quotient_le_1; assumption.
    + apply quotient_nonneg. exact E.
Qed.

Lemma percentage_none (total : N) :
  percentage 0 total = Number.Finite 0.
Proof.
  unfold percentage. destruct (0 <? total)%N eqn:E; [|reflexivity].
  apply N.ltb_lt in E. rewrite (div_of_N 0 total E).
  rewrite (round_comp (inject_Z (Z.of_N 0) / inject_Z (Z.of_N total)) 0).
  - reflexivity.
  - change (inject_Z (Z.of_N 0)) with 0. unfold Qdiv. apply Qmult_0_l.
Qed.

Lemma percentage_all (total : N) :
  (0 < total)%N -> percentage total total = Number.Finite 100.
Proof.
  intros Hpos. unfold percentage.
  replace (0 <? total)%N with true by (symmetry; apply N.ltb_lt; exact Hpos).
  rewrite (div_of_N total total Hpos).
  rewrite (round_comp (inject_Z (Z.of_N total) / inject_Z (Z.of_N total)) 1).
  - reflexivity.
  - apply Qmult_inv_r. intros H. assert (P := of_N_pos total Hpos).
    rewrite H in P. discriminate P.
Qed.

Lemma bar_shown (value hidden : N) :
  (value <= hidden)%N -> bar_ok value hidden.
Proof.
  intros Hle. unfold bar_ok, bar_total. cbv zeta.
  destruct (hidden =? 0)%N eqn:E.
  - apply N.eqb_eq in E. assert (V : value = 0%N) by lia. subst.
    repeat split; try reflexivity. intros _ H. discriminate H.
  - apply N.eqb_neq in E.
    destruct (percentage_bounds value hidden Hle) as [H0 H100].
    split; [exact H0|]. split; [exact H100|]. split.
    + intros ->. apply percentage_none.
    + intros -> Hpos. apply percentage_all. exact Hpos.
Qed.

(** X22: each of the four progress bars of the dashboard, drawn for a
    result of the server, shows a percentage between 0 and 100: exactly 0
    for a counter that is 0 (so all four when the scan found no hidden
    bytes) and exactly 100 for a counter that holds all the hidden bytes.
    The widths are rounded one by one. *)
Theorem progress_bars (a : AnalysisResult) (fileSize : N) :
  scan_result a fileSize ->
  bar_ok (hidden_text (breakdown a)) (hiddenBytes a)
  /\ bar_ok (embedded_files (breakdown a)) (hiddenBytes a)
  /\ bar_ok (base64_blocks (breakdown a)) (hiddenBytes a)
  /\ bar_ok (comments_size (breakdown a)) (hiddenBytes a).
Proof.
  intros Hscan.
  assert (Hsum : hiddenBytes a
                 = (hidden_text (breakdown a) + embedded_files (breakdown a)
                    + base64_blocks (breakdown a)
                    + comments_size (breakdown a))%N).
  { destruct Hscan as [(l & ->) | (raw & data & ->)]; reflexivity. }
  repeat split; apply bar_shown; lia.
Qed.

Lemma progress_bars_witness :
  percentage
    (embedded_files (breakdown (analyzeDocx [oversized_entry] 100)))
    (bar_total (hiddenBytes (analyzeDocx [oversized_entry] 100)))
  = Number.Finite 100.
Proof.
  assert (Hs : scan_result (analyzeDocx [oversized_entry] 100) 100)
    by (left; exists [oversized_entry]; reflexivity).
  destruct (progress_bars _ _ Hs) as (_ & (_ & _ & _ & H) & _).
  apply H; reflexivity.
Defined.

(** The widths need not add up to 100: three counters of 22 bytes out of
    66 give three times the double next below 100/3, and their sum is the
    double next below 100. *)
Example progress_bars_rounding :
  let p := percentage 22 (bar_total 66) in
  let sum :=
    Number.add (Number.add (Number.add p p) (percentage 0 (bar_total 66))) p in
  Number.lt sum (Number.Finite 100)
  /\ sum = Number.Finite (7036874417766399 # 70368744177664).
Proof. split; vm_compute; reflexivity. Qed.

(** X23: the colour the dashboard gives a fallback verdict follows the
    score: red from 70, amber from 30 up to 70, green below 30 and for a
    score that is not a number.  A level that is not exactly [HIGH] or
    [MEDIUM] is shown green. *)
Theorem badge_of_fallback (analysis : AnalysisResult) :
  let v := fallbackScore analysis in
  (badge (riskLevel v) = Red <-> Number.le (Number.Finite 70) (riskScore v))
  /\ (badge (riskLevel v) = Amber
      <-> Number.le (Number.Finite 30) (riskScore v)
          /\ Number.lt (riskScore v) (Number.Finite 70))
  /\ (badge (riskLevel v) = Green
      <-> Number.lt (riskScore v) (Number.Finite 30)
          \/ riskScore v = Number.NaN)
  /\ (forall level,
        level <> lit "HIGH" -> level <> lit "MEDIUM" -> badge level = Green).
Proof.
  destruct (fallback_level analysis) as (_ & HH & HM & HL).
  cbv zeta in *. unfold badge.
  assert (Hlev : riskLevel (fallbackScore analysis) = lit "HIGH"
                 \/ riskLevel (fallbackScore analysis) = lit "MEDIUM"
                 \/ riskLevel (fallbackScore analysis) = lit "LOW").
  { unfold fallbackScore. cbn [riskLevel].
    destruct (Number.leb (Number.Finite 70) _); [left; reflexivity|].
    destruct (Number.leb (Number.Finite 30) _);
      [right; left | right; right]; reflexivity. }
  split; [|split; [|split]].
  - rewrite <- HH. destruct Hlev as [E | [E | E]]; rewrite E;
      split; try reflexivity; discriminate.
  - rewrite <- HM. destruct Hlev as [E | [E | E]]; rewrite E;
      split; try reflexivity; discriminate.
  - rewrite <- HL. destruct Hlev as [E | [E | E]]; rewrite E;
      split; try reflexivity; discriminate.
  - intros level H1 H2.
    destruct (jsstring_eqb level (lit "HIGH")) eqn:E1;
      [apply jsstring_eqb_eq in E1; contradiction|].
    destruct (jsstring_eqb level (lit "MEDIUM")) eqn:E2;
      [apply jsstring_eqb_eq in E2; contradiction|].
    reflexivity.
Qed.

Lemma badge_of_fallback_witness : badge (lit "Critical") = Green.
Proof.
  apply (badge_of_fallback saturated_analysis); discriminate.
Defined.

(* ================================================================= *)
(** ** How large the hidden-byte estimate can be *)

Lemma sum_over_le (f g : entry -> N) (l : list entry) :
  (forall e, (f e <= g e)%N) -> (sum_over f l <= sum_over g l)%N.
Proof.
  intros H. induction l as [|e l IH]; [apply N.le_refl|].
  rewrite !sum_over_cons. specialize (H e). lia.
Qed.

Lemma sum_over_scale (k : N) (f : entry -> N) (l : list entry) :
  sum_over (fun e => (k * f e)%N) l = (k * sum_over f l)%N.
Proof.
  induction l as [|e l IH]; [cbn; lia|].
  rewrite !sum_over_cons, IH. lia.
Qed.

Lemma findBase64Blocks_size_le (text : jsstring) :
  (size (findBase64Blocks text) <= jslength text)%N.
Proof.
  unfold findBase64Blocks.
  destruct (fold_add_block (matches base64Regex text) no_blocks)
    as (_ & Hs & _).
  cbn [size no_blocks] in Hs. rewrite Hs.
  assert (Hl := proj1 (matches_within_text base64Regex text)).
  apply interleaved_length in Hl. unfold jslength. lia.
Qed.

Lemma analyzeDocx_byte_counters (zipEntries : list entry) (fileSize : N) :
  let a := analyzeDocx zipEntries fileSize in
  comments_size (breakdown a)
  = sum_over (fun e => jslength (getData e)) (filter is_comments zipEntries)
  /\ embedded_files (breakdown a)
     = sum_over header_size (filter is_embedded zipEntries)
  /\ hidden_text (breakdown a)
     = sum_over
         (fun e => (total_length (matches vanishRegex (getData e))
                    + total_length (matches whiteRegex (getData e)))%N)
         (filter is_document zipEntries)
  /\ base64_blocks (breakdown a)
     = sum_over (fun e => size (findBase64Blocks (getData e)))
         (filter is_document zipEntries).
Proof.
  unfold analyzeDocx, result_of.
  cbn [comments_size embedded_files hidden_text base64_blocks breakdown].
  destruct (docx_finish_counters (fold_left docx_entry zipEntries St.init))
    as (F1 & F2 & F3 & _ & _ & _ & _ & F8).
  rewrite F1, F2, F3, F8.
  destruct (fold_docx_sums zipEntries St.init)
    as (H1 & H2 & H3 & _ & _ & _ & _ & _ & H9).
  cbv zeta in H1, H2, H3, H9.
  rewrite H1, H2, H3, H9.
  cbn [St.init St.hiddenTextSize St.embeddedFileSize St.commentsSize
       St.base64Blocks no_blocks size].
  rewrite !sum_over_filter, !N.add_0_l.
  repeat split; apply sum_over_ext; intros e;
    unfold entry_delta, is_comments, is_document, is_metadata, names_author;
    cbn [d_hidden d_embedded d_comments d_blocks];
    repeat match goal with
           | |- context [if ?b then _ else _] => destruct b
           end; reflexivity.
Qed.

(** X24: the hidden-byte estimate of a DOCX scan is bounded by the sizes
    the headers of the embedded entries declare, plus the length of the
    comments parts, plus three times the length of the document parts
    (the hidden-text pattern, the white-text pattern and the block pattern
    may each count the same characters); the file size plays no part, so
    the estimate can exceed it. *)
Theorem analyzeDocx_hidden_bound (zipEntries : list entry) (fileSize : N) :
  (hiddenBytes (analyzeDocx zipEntries fileSize)
   <= sum_over header_size (filter is_embedded zipEntries)
      + sum_over (fun e => jslength (getData e)) (filter is_comments zipEntries)
      + 3 * sum_over (fun e => jslength (getData e))
              (filter is_document zipEntries))%N.
Proof.
  assert (Hsum : hiddenBytes (analyzeDocx zipEntries fileSize)
                 = (hidden_text (breakdown (analyzeDocx zipEntries fileSize))
                    + embedded_files
                        (breakdown (analyzeDocx zipEntries fileSize))
                    + base64_blocks
                        (breakdown (analyzeDocx zipEntries fileSize))
                    + comments_size
                        (breakdown (analyzeDocx zipEntries fileSize)))%N)
    by reflexivity.
  destruct (analyzeDocx_byte_counters zipEntries fileSize)
    as (Hc & He & Hh & Hb).
  cbv zeta in Hc, He, Hh, Hb. rewrite Hsum, Hc, He, Hh, Hb.
  set (docs := filter is_document zipEntries).
  assert (H1 : (sum_over
                  (fun e => total_length (matches vanishRegex (getData e))
                            + total_length (matches whiteRegex (getData e)))
                  docs
                <= sum_over (fun e => 2 * jslength (getData e)) docs)%N).
  { apply sum_over_le. intros e.
    assert (Hv := proj2 (matches_within_text vanishRegex (getData e))).
    assert (Hw := proj2 (matches_within_text whiteRegex (getData e))).
    lia. }
  assert (H2 : (sum_over (fun e => size (findBase64Blocks (getData e))) docs
                <= sum_over (fun e => jslength (getData e)) docs)%N).
  { apply sum_over_le. intros e.
    apply (findBase64Blocks_size_le (getData e)). }
  rewrite sum_over_scale in H1. lia.
Qed.

(** X25: the hidden-byte estimate of a PDF scan is 50 bytes for every
    occurrence of [3 Tr] in the raw bytes, 1024 for every occurrence of
    [/EmbeddedFiles] or [/Names], 256 for every occurrence of [/Annots],
    plus the size of the encoded blocks of the text layer; the raw bytes
    are not searched for blocks and the text layer not for markers. *)
Theorem analyzePdf_hiddenBytes (rawString : jsstring) (data : pdf_data)
    (fileSize : N) :
  hiddenBytes (analyzePdf rawString data fileSize)
  = (50 * N.of_nat (occurrences tr_markers rawString)
     + 1024 * N.of_nat (occurrences embedded_markers rawString)
     + size (findBase64Blocks (text data))
     + 256 * N.of_nat (occurrences annot_markers rawString))%N.
Proof.
  rewrite analyzePdf_final. unfold result_of. cbn [hiddenBytes].
  destruct (pdf_final_spec rawString data) as (B & _ & E & _ & C & T & _).
  rewrite B, E, C, T.
  rewrite embedded_matches_occurrences, annot_matches_occurrences,
    tr_matches_occurrences.
  lia.
Qed.
